(** * border-shimmer: the colour model and the cyclic animator

    A shallow embedding of [cmd/border-shimmer/border-shimmer.go].

    - Go's [float64] is IEEE-754 binary64; it is modelled by the
      executable specification [SpecFloat] of the Standard Library,
      instantiated at precision 53 and maximal exponent 1024.  Every
      operation is rounded on its own (round to nearest, ties to even),
      as the gc compiler emits it for amd64.
    - [uint8], [uint32] and [int] are modelled in [Z], with the wrap-around
      written where the source has one.
    - Go strings are byte strings: [string] of the Standard Library.
    - The functions of Go's standard library that the program calls
      ([strings.TrimPrefix], [strings.Split], [fmt.Sscanf], [fmt.Sprintf])
      are modelled as far as the program uses them, after the library's
      own code.
    - The process is a computation that writes a trace of events (lines
      printed, invocations of [borders], sleeps, the exit); the answers of
      the outside world (the configuration file, the flags, the outcome of
      every invocation) are its environment.  The loop of [main] never
      ends: it is run for a number of rounds of the outer [for]. *)

From Stdlib Require Import ZArith List String Ascii Bool Lia SpecFloat.
Import ListNotations.

Local Open Scope Z_scope.

(** ** binary64 arithmetic *)

Module F64.

Definition prec : Z := 53.
Definition emax : Z := 1024.

Definition float64 : Type := spec_float.

Definition add : float64 -> float64 -> float64 := SFadd prec emax.
Definition sub : float64 -> float64 -> float64 := SFsub prec emax.
Definition mul : float64 -> float64 -> float64 := SFmul prec emax.
Definition div : float64 -> float64 -> float64 := SFdiv prec emax.

(** [float64(n)] for an integer [n]: exact below 2^53, rounded above. *)
Definition of_Z (n : Z) : float64 := binary_normalize prec emax n 0 false.

Definition valid (f : float64) : bool := valid_binary prec emax f.

(** The integer part of a float, rounding toward zero; [None] for NaN
    and the infinities. *)
Definition trunc (f : float64) : option Z :=
  match f with
  | S754_zero _ => Some 0
  | S754_finite s m e => Some (cond_Zopp s (Z.shiftl (Zpos m) e))
  | S754_infinity _ | S754_nan => None
  end.

(** [uint8(f)].  Go truncates toward zero; when the result does not fit
    the language leaves it to the implementation.  On amd64 the
    conversion goes through a 32-bit signed integer whose low byte is
    kept, and the "integer indefinite" value 0x80000000 stands for
    everything out of the 32-bit range. *)
Definition to_uint8 (f : float64) : Z :=
  match trunc f with
  | Some z => if (- 2 ^ 31 <=? z) && (z <? 2 ^ 31) then z mod 256 else 0
  | None => 0
  end.

(** [int(f)] and [time.Duration(f)], both 64-bit signed; out of range
    amd64 yields the "integer indefinite" value -2^63. *)
Definition to_int64 (f : float64) : Z :=
  match trunc f with
  | Some z => if (- 2 ^ 63 <=? z) && (z <? 2 ^ 63) then z else - 2 ^ 63
  | None => - 2 ^ 63
  end.

Definition zero : float64 := S754_zero false.
Definition one : float64 := of_Z 1.

End F64.

Definition float64 : Type := F64.float64.

(** ** The colour model *)

(** [color.RGBA]: four [uint8] channels. *)
Record RGBA : Type := mkRGBA { R : Z; G : Z; B : Z; A : Z }.

Definition is_uint8 (x : Z) : Prop := 0 <= x < 256.

Definition wf_color (c : RGBA) : Prop :=
  is_uint8 (R c) /\ is_uint8 (G c) /\ is_uint8 (B c) /\ is_uint8 (A c).

(** One channel of [interpolateColor]:
    [uint8(float64(x)*(1-t) + float64(y)*t)]. *)
Definition lerp (x y : Z) (t : float64) : float64 :=
  F64.add (F64.mul (F64.of_Z x) (F64.sub F64.one t))
          (F64.mul (F64.of_Z y) t).

Definition interpolateChannel (x y : Z) (t : float64) : Z :=
  F64.to_uint8 (lerp x y t).

Definition interpolateColor (c1 c2 : RGBA) (t : float64) : RGBA :=
  let r := interpolateChannel (R c1) (R c2) t in
  let g := interpolateChannel (G c1) (G c2) t in
  let b := interpolateChannel (B c1) (B c2) t in
  let a := interpolateChannel (A c1) (A c2) t in
  mkRGBA r g b a.


(** ** Errors *)

(** A Go [(T, error)] pair; the error carries its message. *)
Inductive result (T : Type) : Type :=
| Ok (x : T)
| Err (msg : string).
Arguments Ok {T} x.
Arguments Err {T} msg.

(** ** Scanning a colour: [fmt.Sscanf(c, "%08X", &val)] *)

Local Open Scope string_scope.
Local Open Scope Z_scope.

Definition byte_of (c : ascii) : Z := Z.of_N (N_of_ascii c).

(** [strings.TrimPrefix(c, "#")] *)
Definition TrimPrefix_hash (c : string) : string :=
  match c with
  | String "#" rest => rest
  | _ => c
  end.

(** [len(c)]: the number of bytes. *)
Definition len (c : string) : Z := Z.of_nat (String.length c).

(** Membership in [fmt]'s [hexadecimalDigits = "0123456789aAbBcCdDeEfF"]. *)
Definition isHexDigit (c : ascii) : bool :=
  let b := byte_of c in
  ((48 <=? b) && (b <=? 57)) || ((65 <=? b) && (b <=? 70))
  || ((97 <=? b) && (b <=? 102)).

(** The value [strconv.ParseUint] gives a digit in base 16. *)
Definition hexVal (c : ascii) : Z :=
  let b := byte_of c in
  if (48 <=? b) && (b <=? 57) then b - 48
  else if (65 <=? b) && (b <=? 70) then b - 65 + 10
  else if (97 <=? b) && (b <=? 102) then b - 97 + 10
  else 0.

(** [fmt.isSpace] on a rune of three UTF-8 bytes: U+1680, U+2000..U+200A,
    U+2028, U+2029, U+202F, U+205F and U+3000. *)
Definition isSpace3 (b0 b1 b2 : Z) : bool :=
  ((b0 =? 225) && (b1 =? 154) && (b2 =? 128))
  || ((b0 =? 226) && (b1 =? 128)
      && (((128 <=? b2) && (b2 <=? 138)) || (b2 =? 168) || (b2 =? 169)
          || (b2 =? 175)))
  || ((b0 =? 226) && (b1 =? 129) && (b2 =? 159))
  || ((b0 =? 227) && (b1 =? 128) && (b2 =? 128)).

(** [ss.SkipSpace] with [nlIsSpace = false], as [Sscanf] sets it: space
    runes are dropped, a newline is an error.  The one-byte spaces are
    U+0009..U+000D and U+0020, the two-byte ones U+0085 and U+00A0. *)
Fixpoint SkipSpace (s : string) : result string :=
  match s with
  | EmptyString => Ok s
  | String c0 s1 =>
    let b0 := byte_of c0 in
    if b0 =? 10 then Err "unexpected newline"
    else if ((9 <=? b0) && (b0 <=? 13)) || (b0 =? 32) then SkipSpace s1
    else
      match s1 with
      | EmptyString => Ok s
      | String c1 s2 =>
        let b1 := byte_of c1 in
        if (b0 =? 194) && ((b1 =? 133) || (b1 =? 160)) then SkipSpace s2
        else
          match s2 with
          | EmptyString => Ok s
          | String c2 s3 =>
            if isSpace3 b0 b1 (byte_of c2) then SkipSpace s3 else Ok s
          end
      end
  end.

(** [ss.scanNumber]: the longest run of digits at the head of the
    input, at most [width] runes long. *)
Fixpoint scanNumber (width : nat) (s : string) : string :=
  match width, s with
  | S w, String c rest =>
    if isHexDigit c then String c (scanNumber w rest) else EmptyString
  | _, _ => EmptyString
  end.

(** [strconv.ParseUint(tok, 16, 64)] on a token of hexadecimal digits. *)
Fixpoint ParseUint16 (acc : Z) (tok : string) : Z :=
  match tok with
  | EmptyString => acc
  | String c rest => ParseUint16 (acc * 16 + hexVal c) rest
  end.

(** [fmt.Sscanf(c, "%08X", &val)] with [val] a [uint32].  The format is
    one verb, [X], of width 8 (the [0] is part of the width).  The scanner
    skips leading space, fails with [io.EOF] at the end of the input, then
    reads the longest run of hexadecimal digits, eight at most, and fails
    if there is none; the run is converted by [strconv.ParseUint] and
    checked against 32 bits.  Input left over after the number is not
    looked at: it is not an error. *)
Definition Sscanf_08X (c : string) : result Z :=
  match SkipSpace c with
  | Err e => Err e
  | Ok rest =>
    match rest with
    | EmptyString => Err "EOF"
    | _ =>
      match scanNumber 8 rest with
      | EmptyString => Err "expected integer"
      | tok =>
        let i := ParseUint16 0 tok in
        if i <? 2 ^ 32 then Ok i
        else Err ("unsigned integer overflow on token " ++ tok)
      end
    end
  end.

(** The line feed that ends the messages of [main]. *)
Definition newline : string := String (ascii_of_N 10) EmptyString.

(** ** [parseColors] *)

Definition uint8 (x : Z) : Z := x mod 256.

(** The body of the loop of [parseColors], for one colour string. *)
Definition parseColor (c : string) : result RGBA :=
  let c := TrimPrefix_hash c in
  if negb (len c =? 8) then Err ("invalid color format: " ++ c)
  else
    match Sscanf_08X c with
    | Err _ => Err ("invalid color value: " ++ c)
    | Ok val =>
      let r := uint8 (Z.shiftr val 24) in
      let g := uint8 (Z.land (Z.shiftr val 16) 255) in
      let b := uint8 (Z.land (Z.shiftr val 8) 255) in
      let a := uint8 (Z.land val 255) in
      Ok (mkRGBA r g b a)
    end.

Fixpoint parseColors_from (colorList : list RGBA) (colors : list string)
  : result (list RGBA) :=
  match colors with
  | [] => Ok colorList
  | c :: rest =>
    match parseColor c with
    | Err e => Err e
    | Ok col => parseColors_from (colorList ++ [col]) rest
    end
  end.

Definition parseColors (colors : list string) : result (list RGBA) :=
  parseColors_from [] colors.

(** ** [colorToHex] *)

Definition hexDigitUpper (d : Z) : ascii :=
  if d <? 10 then ascii_of_N (Z.to_N (48 + d))
  else ascii_of_N (Z.to_N (65 + d - 10)).

(** [fmt.Sprintf("%02X", x)] for a [uint8]: always two digits. *)
Definition fmt_02X (x : Z) : string :=
  String (hexDigitUpper (x / 16)) (String (hexDigitUpper (x mod 16)) "").

(** Format: 0xAARRGGBB *)
Definition colorToHex (c : RGBA) : string :=
  "0x" ++ fmt_02X (A c) ++ fmt_02X (R c) ++ fmt_02X (G c) ++ fmt_02X (B c).

(** ** Configuration *)

Record BorderConfig : Type := mkBorderConfig {
  Colors : list string;
  Secs : float64;
  FPS : float64;
  Width : float64;
  Glow : bool
}.

Record Config : Type := mkConfig {
  Active : BorderConfig;
  Inactive : BorderConfig
}.

(** The zero value of [BorderConfig]. *)
Definition emptyBorderConfig : BorderConfig :=
  mkBorderConfig [] F64.zero F64.zero F64.zero false.

Definition defaultConfig : Config :=
  mkConfig
    (mkBorderConfig
       ["#FF0000FF"; "#FFA500FF"; "#FFFF00FF"; "#008000FF"; "#0000FFFF";
        "#4B0082FF"]
       (F64.of_Z 3) (F64.of_Z 3) (F64.of_Z 5) false)
    emptyBorderConfig.

Definition set_Colors (b : BorderConfig) (v : list string) : BorderConfig :=
  mkBorderConfig v (Secs b) (FPS b) (Width b) (Glow b).
Definition set_Secs (b : BorderConfig) (v : float64) : BorderConfig :=
  mkBorderConfig (Colors b) v (FPS b) (Width b) (Glow b).
Definition set_FPS (b : BorderConfig) (v : float64) : BorderConfig :=
  mkBorderConfig (Colors b) (Secs b) v (Width b) (Glow b).
Definition set_Width (b : BorderConfig) (v : float64) : BorderConfig :=
  mkBorderConfig (Colors b) (Secs b) (FPS b) v (Glow b).
Definition set_Glow (b : BorderConfig) (v : bool) : BorderConfig :=
  mkBorderConfig (Colors b) (Secs b) (FPS b) (Width b) v.
Definition on_Active (f : BorderConfig -> BorderConfig) (c : Config) : Config :=
  mkConfig (f (Active c)) (Inactive c).
Definition on_Inactive (f : BorderConfig -> BorderConfig) (c : Config)
  : Config :=
  mkConfig (Active c) (f (Inactive c)).

(** The command-line flags after [flag.Parse()]. *)
Record Flags : Type := mkFlags {
  colorsFlag : string;
  inactiveColorsFlag : string;
  secsFlag : float64;
  fpsFlag : float64;
  widthFlag : float64
}.

(** [x > 0] on [float64]. *)
Definition gt0 (x : float64) : bool := SFltb F64.zero x.

(** [strings.Split(s, ",")] *)
Fixpoint Split_comma (s : string) : list string :=
  match s with
  | EmptyString => [EmptyString]
  | String c rest =>
    match Split_comma rest with
    | hd :: tl =>
      if Ascii.eqb c "," then EmptyString :: hd :: tl
      else String c hd :: tl
    | [] => [String c EmptyString]
    end
  end.

(** The two override passes of [main]: the configuration file over the
    defaults, then the flags over both. *)
Definition overrideWithFile (cfg fileConfig : Config) : Config :=
  let cfg :=
    if 0 <? Z.of_nat (List.length (Colors (Active fileConfig)))
    then on_Active (fun b => set_Colors b (Colors (Active fileConfig))) cfg
    else cfg in
  let cfg :=
    if 0 <? Z.of_nat (List.length (Colors (Inactive fileConfig)))
    then on_Inactive (fun b => set_Colors b (Colors (Inactive fileConfig))) cfg
    else cfg in
  let cfg :=
    if gt0 (Secs (Active fileConfig))
    then on_Active (fun b => set_Secs b (Secs (Active fileConfig))) cfg
    else cfg in
  let cfg :=
    if gt0 (FPS (Active fileConfig))
    then on_Active (fun b => set_FPS b (FPS (Active fileConfig))) cfg
    else cfg in
  let cfg :=
    if gt0 (Width (Active fileConfig))
    then on_Active (fun b => set_Width b (Width (Active fileConfig))) cfg
    else cfg in
  if Glow (Active fileConfig)
  then on_Active (fun b => set_Glow b (Glow (Active fileConfig))) cfg
  else cfg.

Definition overrideWithFlags (cfg : Config) (fl : Flags) : Config :=
  let cfg :=
    if negb (String.eqb (colorsFlag fl) "")
    then on_Active (fun b => set_Colors b (Split_comma (colorsFlag fl))) cfg
    else cfg in
  let cfg :=
    if negb (String.eqb (inactiveColorsFlag fl) "")
    then on_Inactive
           (fun b => set_Colors b (Split_comma (inactiveColorsFlag fl))) cfg
    else cfg in
  let cfg :=
    if gt0 (secsFlag fl)
    then on_Active (fun b => set_Secs b (secsFlag fl)) cfg else cfg in
  let cfg :=
    if gt0 (fpsFlag fl)
    then on_Active (fun b => set_FPS b (fpsFlag fl)) cfg else cfg in
  if gt0 (widthFlag fl)
  then on_Active (fun b => set_Width b (widthFlag fl)) cfg else cfg.

(** ** Slices of colours

    A Go slice is a window on a backing array.  [append] writes behind
    the window when the capacity allows it, and the array is then shared
    between the old and the new slice; [main] appends to a slice of
    [colors] itself, so the arrays are kept in a store. *)

Module Slice.

Record t : Type := mk { base : nat; off : nat; length : nat; cap : nat }.

Definition store : Type := list (list RGBA).

Definition zeroColor : RGBA := mkRGBA 0 0 0 0.

Definition array (h : store) (s : t) : list RGBA := nth (base s) h [].

(** The elements a slice shows. *)
Definition elems (h : store) (s : t) : list RGBA :=
  firstn (length s) (skipn (off s) (array h s)).

(** [s[k:]] *)
Definition from (s : t) (k : nat) : t :=
  mk (base s) (off s + k) (length s - k) (cap s - k).

(** [s[:k]] *)
Definition upto (s : t) (k : nat) : t :=
  mk (base s) (off s) k (cap s).

(** [s[i]]; [None] is the run-time panic of an index out of range. *)
Definition index (h : store) (s : t) (i : Z) : option RGBA :=
  if (0 <=? i) && (i <? Z.of_nat (length s))
  then nth_error (array h s) (off s + Z.to_nat i)
  else None.

(** A fresh array holding [xs], with [spare] unused cells behind. *)
Definition alloc (h : store) (xs : list RGBA) (spare : nat) : store * t :=
  ((h ++ [xs ++ repeat zeroColor spare])%list,
   mk (List.length h) 0 (List.length xs) (List.length xs + spare)).

Fixpoint set_nth (h : store) (n : nat) (a : list RGBA) : store :=
  match h, n with
  | [], _ => []
  | _ :: tl, O => a :: tl
  | x :: tl, S k => x :: set_nth tl k a
  end.

(** [append(s, xs...)]: in place when [len(s) + len(xs) <= cap(s)],
    into a fresh array (with [grow] cells to spare) otherwise. *)
Definition append (h : store) (s : t) (xs : list RGBA) (grow : nat)
  : store * t :=
  let n := List.length xs in
  if (length s + n <=? cap s)%nat then
    let a := array h s in
    let k := (off s + length s)%nat in
    let a' := (firstn k a ++ xs ++ skipn (k + n) a)%list in
    (set_nth h (base s) a', mk (base s) (off s) (length s + n) (cap s))
  else alloc h (elems h s ++ xs)%list grow.

(** A slice is well formed in a store when its window lies within its
    capacity and its capacity within its array. *)
Definition wf (h : store) (s : t) : Prop :=
  (base s < List.length h)%nat /\
  (length s <= cap s)%nat /\
  (off s + cap s = List.length (array h s))%nat.

End Slice.

(** ** The process and its environment *)

(** The three named arguments of one [borders] invocation.  The source
    collects them in a map and passes them in the map's iteration order,
    which Go leaves unspecified, so no order is recorded; [width] stands
    for its rendering by [%f]. *)
Record borderArgs : Type := mkArgs {
  active_color : string;
  inactive_color : string;
  width : float64
}.

(** What the process does to the outside world, in order. *)
Inductive event : Type :=
| EvPrintf (msg : string)
| EvRun (binary : string) (args : borderArgs)
| EvSleep (nanoseconds : Z)
| EvExit (code : Z)
| EvPanic (msg : string).

(** What the outside world hands to the process. *)
Record Env : Type := mkEnv {
  env_flags : Flags;
  (** the outcome of [loadConfigFile()] *)
  env_file : result Config;
  (** the error of the [k]-th [cmd.Run()], [None] for [nil] *)
  env_sink : nat -> option string;
  (** the unused capacity the run time left behind a parsed colour list,
      and the one it hands out when [append] has to reallocate *)
  env_spare : nat;
  env_grow : nat
}.

(** A computation threads the number of [borders] invocations made so
    far, writes events, and either yields a value or ends the process
    ([None]: [os.Exit] or a panic). *)
Definition IO (X : Type) : Type := nat -> list event * nat * option X.

Definition ret {X : Type} (x : X) : IO X := fun n => ([], n, Some x).

Definition bind {X Y : Type} (m : IO X) (f : X -> IO Y) : IO Y :=
  fun n =>
    match m n with
    | (t1, n1, Some x) =>
      match f x n1 with
      | (t2, n2, r) => ((t1 ++ t2)%list, n2, r)
      end
    | (t1, n1, None) => (t1, n1, None)
    end.

Notation "x <- m ;; k" := (bind m (fun x => k))
  (at level 61, m at next level, right associativity).
Notation "m ;; k" := (bind m (fun _ => k))
  (at level 61, right associativity).

Definition Printf (msg : string) : IO unit :=
  fun n => ([EvPrintf msg], n, Some tt).

Definition Exit {X : Type} (code : Z) : IO X :=
  fun n => ([EvExit code], n, None).

Definition Sleep (d : Z) : IO unit :=
  fun n => ([EvSleep d], n, Some tt).

(** [exec.Command(binary, args...).Run()] *)
Definition Run (sink : nat -> option string) (binary : string)
  (args : borderArgs) : IO (option string) :=
  fun n => ([EvRun binary args], S n, Some (sink n)).

(** An indexing expression, with its bounds check. *)
Definition at_index (h : Slice.store) (s : Slice.t) (i : Z) : IO RGBA :=
  match Slice.index h s i with
  | Some c => ret c
  | None => fun n => ([EvPanic "index out of range"], n, None)
  end.

(** [for i := lo; ...; i++ { body }], for a loop that runs [n] times. *)
Fixpoint for_range (n : nat) (lo : Z) (body : Z -> IO unit) : IO unit :=
  match n with
  | O => ret tt
  | S k => body lo ;; for_range k (lo + 1) body
  end.

(** [for { body }], cut after [fuel] rounds. *)
Fixpoint forever (fuel : nat) (body : IO unit) : IO unit :=
  match fuel with
  | O => ret tt
  | S k => body ;; forever k body
  end.

(** ** The cyclic animator *)

Definition slen (s : Slice.t) : Z := Z.of_nat (Slice.length s).

Definition glowWrap (glow : bool) (hex : string) : string :=
  if glow then "glow(" ++ hex ++ ")" else hex.

Section Animator.

Variable env : Env.
Variable cfg : Config.
Variable h : Slice.store.
Variables colors inactiveColors : Slice.t.
Variable stepsPerTransition : Z.
Variable delay : Z.

(** [t := float64(step) / float64(stepsPerTransition)] *)
Definition t_of (step : Z) : float64 :=
  F64.div (F64.of_Z step) (F64.of_Z stepsPerTransition).

(** The body of the innermost loop: one frame. *)
Definition frame
  (currentActiveColor nextActiveColor : RGBA)
  (currentInactiveColor nextInactiveColor : RGBA) (step : Z) : IO unit :=
  let t := t_of step in
  let interpolatedActiveColor :=
    interpolateColor currentActiveColor nextActiveColor t in
  let activeColorHex :=
    glowWrap (Glow (Active cfg)) (colorToHex interpolatedActiveColor) in
  let interpolatedInactiveColor :=
    interpolateColor currentInactiveColor nextInactiveColor t in
  let inactiveColorHex :=
    glowWrap (Glow (Inactive cfg)) (colorToHex interpolatedInactiveColor) in
  err <- Run (env_sink env) "borders"
           (mkArgs activeColorHex inactiveColorHex (Width (Active cfg))) ;;
  match err with
  | Some e => Printf ("Error running borders command: " ++ e ++ newline)
  | None => ret tt
  end ;;
  Sleep delay.

(** The body of the loop over [i]: one transition. *)
Definition transition (i : Z) : IO unit :=
  currentActiveColor <- at_index h colors i ;;
  nextActiveColor <- at_index h colors (Z.rem (i + 1) (slen colors)) ;;
  currentInactiveColor <- at_index h inactiveColors i ;;
  nextInactiveColor <-
    at_index h inactiveColors (Z.rem (i + 1) (slen inactiveColors)) ;;
  for_range (Z.to_nat (stepsPerTransition + 1)) 0
    (frame currentActiveColor nextActiveColor
           currentInactiveColor nextInactiveColor).

(** One round of the outer [for]. *)
Definition cycle : IO unit :=
  for_range (Slice.length colors) 0 transition.

Definition animate (fuel : nat) : IO unit := forever fuel cycle.

End Animator.

(** ** [main] *)

Definition second : float64 := F64.of_Z 1000000000.

Definition stepsOf (cfg : Config) : Z :=
  F64.to_int64 (F64.mul (Secs (Active cfg)) (FPS (Active cfg))).

Definition delayOf (cfg : Config) : Z :=
  F64.to_int64 (F64.mul (F64.div F64.one (FPS (Active cfg))) second).

(** The configuration [main] works with. *)
Definition resolve (fileConfig : Config) (fl : Flags) : Config :=
  overrideWithFlags (overrideWithFile defaultConfig fileConfig) fl.

Definition mismatchMessage : string :=
  "Error: The number of inactive colors must match the number of active colors."
  ++ newline.

(** The inactive track when none is configured: the active colours with
    an offset, [append(colors[offset:], colors[:offset]...)]. *)
Definition deriveInactive (h : Slice.store) (colors : Slice.t) (grow : nat)
  : Slice.store * Slice.t :=
  let offset := (Slice.length colors / 2)%nat in
  Slice.append h (Slice.from colors offset)
    (Slice.elems h (Slice.upto colors offset)) grow.

(** The first part of [main], up to the two colour tracks. *)
Definition loadTracks (env : Env)
  : IO (Config * Slice.store * Slice.t * Slice.t) :=
  fileConfig <-
    match env_file env with
    | Err e => Printf ("Error loading config file: " ++ e ++ newline) ;; Exit 1
    | Ok fc => ret fc
    end ;;
  let cfg := resolve fileConfig (env_flags env) in
  parsed <-
    match parseColors (Colors (Active cfg)) with
    | Err e => Printf ("Error parsing colors: " ++ e ++ newline) ;; Exit 1
    | Ok l => ret l
    end ;;
  let '(h, colors) := Slice.alloc [] parsed (env_spare env) in
  hi <-
    (if 0 <? Z.of_nat (List.length (Colors (Inactive cfg))) then
       match parseColors (Colors (Inactive cfg)) with
       | Err e =>
         Printf ("Error parsing inactive colors: " ++ e ++ newline) ;; Exit 1
       | Ok l => ret (Slice.alloc h l (env_spare env))
       end
     else
       (* Use active colors with offset *)
       ret (deriveInactive h colors (env_grow env))) ;;
  let '(h, inactiveColors) := hi in
  ret (cfg, h, colors, inactiveColors).

(** The rest of [main]: the length check, the derived timing, the loop. *)
Definition runTracks (fuel : nat) (env : Env)
  (tracks : Config * Slice.store * Slice.t * Slice.t) : IO unit :=
  let '(cfg, h, colors, inactiveColors) := tracks in
  (if negb (slen inactiveColors =? slen colors) then
     Printf mismatchMessage ;; Exit 1
   else ret tt) ;;
  let stepsPerTransition := stepsOf cfg in
  let delay := delayOf cfg in
  animate env cfg h colors inactiveColors stepsPerTransition delay fuel.

Definition main (fuel : nat) (env : Env) : IO unit :=
  tracks <- loadTracks env ;;
  runTracks fuel env tracks.

(** The events of a run cut after [fuel] rounds of the outer loop. *)
Definition trace (fuel : nat) (env : Env) : list event :=
  fst (fst (main fuel env 0%nat)).

(** The frames a trace hands to the sink. *)
Fixpoint runs (tr : list event) : list borderArgs :=
  match tr with
  | [] => []
  | EvRun _ args :: rest => args :: runs rest
  | _ :: rest => runs rest
  end.


(** ** The frames of the animation, by number *)

Section Frames.

Variable env : Env.
Variable cfg : Config.
Variables active inactive : list RGBA.
Variable stepsPerTransition : Z.
Variable delay : Z.

(** The arguments of the frame that interpolates the active track from
    [cur] to [nxt] and the inactive one from [curI] to [nxtI]. *)
Definition frameArgs (cur nxt curI nxtI : RGBA) (step : Z) : borderArgs :=
  let t := t_of stepsPerTransition step in
  mkArgs
    (glowWrap (Glow (Active cfg)) (colorToHex (interpolateColor cur nxt t)))
    (glowWrap (Glow (Inactive cfg))
       (colorToHex (interpolateColor curI nxtI t)))
    (Width (Active cfg)).

Definition framesPerTransition : nat := Z.to_nat (stepsPerTransition + 1).

Definition trackIndex (k : nat) : nat :=
  ((k / framesPerTransition) mod List.length active)%nat.

Definition subStep (k : nat) : nat := (k mod framesPerTransition)%nat.

Definition colorAt (track : list RGBA) (i : nat) : RGBA :=
  nth i track Slice.zeroColor.

(** The [k]-th frame, counting from the start of the loop. *)
Definition frameAt (k : nat) : borderArgs :=
  let i := trackIndex k in
  let i' := ((i + 1) mod List.length active)%nat in
  frameArgs (colorAt active i) (colorAt active i')
            (colorAt inactive i) (colorAt inactive i')
            (Z.of_nat (subStep k)).

(** The events of one frame whose sink invocation is the [n]-th. *)
Definition frameEvents (args : borderArgs) (n : nat) : list event :=
  (EvRun "borders" args
     :: match env_sink env n with
        | Some e =>
          [EvPrintf ("Error running borders command: " ++ e ++ newline)]
        | None => []
        end
     ++ [EvSleep delay])%list.

End Frames.

(** ** Well-formed colour strings *)

(** The digits [fmt] accepts for the verb [X]. *)
Definition hexDigits : list ascii :=
  list_ascii_of_string "0123456789aAbBcCdDeEfF".

(** Eight hexadecimal digits, of either case. *)
Definition isHex8 (s : string) : bool :=
  (String.length s =? 8)%nat && forallb isHexDigit (list_ascii_of_string s).

Definition toUpperHex (c : ascii) : ascii :=
  let b := byte_of c in
  if (97 <=? b) && (b <=? 102) then ascii_of_N (Z.to_N (b - 32)) else c.

Fixpoint upperHex (s : string) : string :=
  match s with
  | EmptyString => EmptyString
  | String c rest => String (toUpperHex c) (upperHex rest)
  end.

(** The canonical form of the colour written [RRGGBBAA]: [0xAARRGGBB] in
    upper case. *)
Definition canonicalHex (rrggbbaa : string) : string :=
  "0x" ++ upperHex (substring 6 2 rrggbbaa)
       ++ upperHex (substring 0 6 rrggbbaa).

(** The value of a pair of hexadecimal digits. *)
Definition hexPair (s : string) (pos : nat) : Z :=
  ParseUint16 0 (substring pos 2 s).

(** ** The magnitude of a float

    Finite floats are compared through integers: the magnitude of a float
    is its absolute value scaled by [2 ^ scaleExp], which is an integer for
    every exponent that binary64 and the products of two binary64 numbers
    can have. *)

Definition scaleExp : Z := 2200.

Definition magnitude (f : float64) : option Z :=
  match f with
  | S754_zero _ => Some 0
  | S754_finite _ m e =>
    if - scaleExp <=? e then Some (Zpos m * 2 ^ (e + scaleExp)) else None
  | S754_infinity _ | S754_nan => None
  end.

(** [expAtLeast lo f]: the exponent of [f], when it is finite and not a
    zero, is at least [lo]. *)
Definition expAtLeast (lo : Z) (f : float64) : Prop :=
  match f with
  | S754_finite _ _ e => lo <= e
  | _ => True
  end.

(** The sign bit of a float that has one. *)
Definition signBit (f : float64) : option bool :=
  match f with
  | S754_zero s | S754_finite s _ _ | S754_infinity s => Some s
  | S754_nan => None
  end.

(** ** Statements about floats *)

(** A binary64 number between 0 and 1, the ends included. *)
Definition inUnitInterval (t : float64) : Prop :=
  F64.valid t = true /\ SFleb F64.zero t = true /\ SFleb t F64.one = true.

(** [z] is [f] with its fractional part dropped: the sign of [f] and the
    largest integer magnitude not above the magnitude of [f]. *)
Definition truncationOf (f : float64) (z : Z) : Prop :=
  match f with
  | S754_zero _ => z = 0
  | S754_finite s m e =>
    exists q, z = cond_Zopp s q /\ 0 <= q /\
      if 0 <=? e then q = Zpos m * 2 ^ e
      else q * 2 ^ (- e) <= Zpos m < (q + 1) * 2 ^ (- e)
  | S754_infinity _ | S754_nan => False
  end.

(** [d] nanoseconds are [1 / fps] seconds to the nanosecond: the two
    are less than one nanosecond apart. *)
Definition withinOneNanosecond (d : Z) (fps : float64) : Prop :=
  match fps with
  | S754_finite false m e =>
    if 0 <=? e then Z.abs (d * (Zpos m * 2 ^ e) - 10 ^ 9) < Zpos m * 2 ^ e
    else Z.abs (d * Zpos m - 10 ^ 9 * 2 ^ (- e)) < Zpos m
  | _ => False
  end.

(** The product of two finite numbers before it is rounded: a mantissa
    and an exponent that binary64 need not hold. *)
Definition exactProduct (a b : float64) : float64 :=
  match a, b with
  | S754_finite sa ma ea, S754_finite sb mb eb =>
    S754_finite (xorb sa sb) (ma * mb) (ea + eb)
  | _, _ => F64.mul a b
  end.

(** The default configuration with another timing. *)
Definition timed (secs fps : float64) : Config :=
  mkConfig
    (mkBorderConfig (Colors (Active defaultConfig)) secs fps (F64.of_Z 5)
       false)
    emptyBorderConfig.

(** The whole frame rates from 1 to 1000, and the check that the delay
    of one is [1 / fps] seconds rounded down to the nanosecond. *)
Definition wholeRates : list Z := map Z.of_nat (seq 1 1000).

Definition delayIsFloor (k : Z) : bool :=
  F64.to_int64 (F64.mul (F64.div F64.one (F64.of_Z k)) second) =? 10 ^ 9 / k.

(** One channel is the other or one less. *)
Definition sameOrOneLess (x y : Z) : Prop := y = x \/ y = x - 1.

(** ** Exhaustive checks over the channel values *)

(** The values of a [uint8]. *)
Definition channels : list Z := map Z.of_nat (seq 0 256).

(** [float64(x)] holds [x] exactly, with an exponent between -60 and 0. *)
Definition exactByte (x : Z) : bool :=
  match F64.of_Z x with
  | S754_zero false => x =? 0
  | S754_finite false m e =>
    (-60 <=? e) && (e <=? 0) && (Zpos m =? x * 2 ^ (- e))
  | _ => false
  end.

Definition isZero (s : bool) (f : float64) : bool :=
  match f with
  | S754_zero s' => Bool.eqb s s'
  | _ => false
  end.

(** What the two ends of an interpolation need of a channel value [x]:
    [x * 0] is a zero of the sign of the zero, and [x * 1 + 0] and
    [0 + x * 1] convert back to [x]. *)
Definition endpointsExact (x : Z) : bool :=
  let X := F64.of_Z x in
  isZero false (F64.mul X (S754_zero false))
  && isZero true (F64.mul X (S754_zero true))
  && (F64.to_uint8 (F64.add (F64.mul X F64.one) (S754_zero false)) =? x)
  && (F64.to_uint8 (F64.add (F64.mul X F64.one) (S754_zero true)) =? x)
  && (F64.to_uint8 (F64.add (S754_zero false) (F64.mul X F64.one)) =? x).

(** ** What a computation can emit *)

Definition emits {X : Type} (P : event -> Prop) (m : IO X) : Prop :=
  forall n, Forall P (fst (fst (m n))).

(** The events of the loop: it prints nothing but the failures of the
    sink, and it never exits. *)
Definition loopEvent (e : event) : Prop :=
  match e with
  | EvPrintf msg =>
    exists err,
      msg = ("Error running borders command: " ++ err ++ newline)%string
  | EvRun _ _ | EvSleep _ | EvPanic _ => True
  | EvExit _ => False
  end.

(** ** Sample environments *)

Definition noFlags : Flags := mkFlags "" "" F64.zero F64.zero F64.zero.

(** No configuration file: [loadConfigFile] returns the empty [Config]. *)
Definition noFile : result Config :=
  Ok (mkConfig emptyBorderConfig emptyBorderConfig).

(** The default configuration, with a sink that never fails. *)
Definition envDefault : Env := mkEnv noFlags noFile (fun _ => None) 2 0.

(** Four active colours on the command line, no inactive ones. *)
Definition envFour : Env :=
  mkEnv (mkFlags "#11111111,#22222222,#33333333,#44444444" ""
           F64.zero F64.zero F64.zero)
        noFile (fun _ => None) 4 0.

(** Four active colours and three inactive ones. *)
Definition envMismatch : Env :=
  mkEnv (mkFlags "#11111111,#22222222,#33333333,#44444444"
           "#55555555,#66666666,#77777777" F64.zero F64.zero F64.zero)
        noFile (fun _ => None) 0 0.

(** Two colours, one second per transition, two frames per second, and a
    sink that fails on every other invocation. *)
Definition envTwo : Env :=
  mkEnv (mkFlags "#FF0000FF,#0000FFFF" "" (F64.of_Z 1) (F64.of_Z 2) F64.zero)
        noFile
        (fun k => if Nat.even k then Some "exit status 1" else None) 0 0.

(** ** The configuration file on disk *)

(** What the operating system and the libraries answer to
    [getConfigFilePath] and [loadConfigFile]. *)
Record Host : Type := mkHost {
  (** [os.Getenv("XDG_CONFIG_HOME")]: empty when the variable is unset *)
  XDG_CONFIG_HOME : string;
  (** [os.UserHomeDir()] *)
  UserHomeDir : result string;
  (** [filepath.Join] *)
  Join : list string -> string;
  (** [os.ReadFile] *)
  ReadFile : string -> result string;
  (** [toml.Unmarshal(data, &config)] on the empty [config]: what it
      leaves in [config], and its error, [None] for [nil] *)
  Unmarshal : string -> Config * option string
}.

Definition getConfigFilePath (w : Host) : IO string :=
  let configDir := XDG_CONFIG_HOME w in
  configDir <-
    (if String.eqb configDir "" then
       homeDir <-
         match UserHomeDir w with
         | Err e =>
           Printf ("Error getting user home directory: " ++ e ++ newline) ;;
           Exit 1
         | Ok d => ret d
         end ;;
       ret (Join w [homeDir; ".config"])
     else ret configDir) ;;
  ret (Join w [configDir; "border-shimmer"; "config.toml"]).

(** The Go function returns a [(Config, error)] pair, and the [Config]
    also when there is an error. *)
Definition loadConfigFile (w : Host) : IO (Config * option string) :=
  let config := mkConfig emptyBorderConfig emptyBorderConfig in
  configFilePath <- getConfigFilePath w ;;
  match ReadFile w configFilePath with
  | Ok data =>
    let '(config, err) := Unmarshal w data in
    match err with
    | Some e =>
      ret (config,
           Some ("error parsing config file " ++ configFilePath ++ ": " ++ e))
    | None => ret (config, None)
    end
  | Err _ =>
    (* No config file found, return empty config *)
    ret (config, None)
  end.

(** What [main] makes of the pair: [err != nil] is looked at first. *)
Definition asResult (r : Config * option string) : result Config :=
  match snd r with
  | Some e => Err e
  | None => Ok (fst r)
  end.

Definition withFile (env : Env) (file : result Config) : Env :=
  mkEnv (env_flags env) file (env_sink env) (env_spare env) (env_grow env).

(** [main] on a host: the flags are parsed, which prints nothing, then
    [loadConfigFile()] is called and [main] goes on with its outcome.  The
    [env_file] of the environment is not looked at. *)
Definition mainOn (w : Host) (fuel : nat) (env : Env) : IO unit :=
  r <- loadConfigFile w ;;
  main fuel (withFile env (asResult r)).

Definition traceOn (w : Host) (fuel : nat) (env : Env) : list event :=
  fst (fst (mainOn w fuel env 0%nat)).

(** The same host with another answer of [os.UserHomeDir()]. *)
Definition withHome (w : Host) (home : result string) : Host :=
  mkHost (XDG_CONFIG_HOME w) home (Join w) (ReadFile w) (Unmarshal w).

(** A host for the examples: paths are joined by a slash, and the one
    file there is, the configuration file under [/home/u], holds [data]. *)
Definition hostWith (xdg : string) (home : result string) (data : string)
  (parsed : Config * option string) : Host :=
  mkHost xdg home (String.concat "/")
    (fun path =>
       if String.eqb path "/home/u/.config/border-shimmer/config.toml"
       then Ok data else Err "no such file or directory")
    (fun _ => parsed).

(** ** Further notions for the statements *)

(** The four channels of a 32-bit word, as [parseColors] takes them. *)
Definition unpack (val : Z) : RGBA :=
  mkRGBA (uint8 (Z.shiftr val 24)) (uint8 (Z.land (Z.shiftr val 16) 255))
         (uint8 (Z.land (Z.shiftr val 8) 255)) (uint8 (Z.land val 255)).

(** The colour string of the configuration, [#RRGGBBAA], for a string
    [0xAARRGGBB] of the sink. *)
Definition configString (hex : string) : string :=
  "#" ++ substring 4 6 hex ++ substring 2 2 hex.

(** [z] lies between [x] and [y], or one below the smaller of them, and
    is not negative. *)
Definition between (x y z : Z) : Prop :=
  Z.min x y - 1 <= z <= Z.max x y /\ 0 <= z.

Definition betweenColors (c1 c2 c : RGBA) : Prop :=
  between (R c1) (R c2) (R c) /\ between (G c1) (G c2) (G c)
  /\ between (B c1) (B c2) (B c) /\ between (A c1) (A c2) (A c).

(** No run-time panic. *)
Definition notPanic (e : event) : Prop :=
  match e with
  | EvPanic _ => False
  | _ => True
  end.

(** No invocation of the sink. *)
Definition notRun (e : event) : Prop :=
  match e with
  | EvRun _ _ => False
  | _ => True
  end.

(** The frames of a configuration: the active colour wrapped in [glow]
    when [g] says so, the inactive colour bare, the width [w]. *)
Definition plainFrame (g : bool) (w : float64) (e : event) : Prop :=
  match e with
  | EvRun binary args =>
    binary = "borders" /\
    exists ca ci,
      wf_color ca /\ wf_color ci /\
      args = mkArgs (glowWrap g (colorToHex ca)) (colorToHex ci) w
  | _ => True
  end.

(** A quarter of a second per transition at one frame per second: no
    whole step fits in a transition. *)
Definition envSlow : Env :=
  mkEnv (mkFlags "#FF0000FF,#0000FFFF" ""
           (F64.div (F64.of_Z 1) (F64.of_Z 4)) (F64.of_Z 1) F64.zero)
        noFile (fun _ => None) 0 0.

(** A product of seconds and frames per second that no [int] holds. *)
Definition envHuge : Env :=
  mkEnv (mkFlags "#FF0000FF,#0000FFFF" ""
           (F64.of_Z (2 ^ 62)) (F64.of_Z 4) F64.zero)
        noFile (fun _ => None) 0 0.

(** ** The whole process *)

(** What [flag.Parse()] makes of the command line.  The flag set of the
    program exits on error: a command line it rejects ends the process
    with status 2, and [-h] or [-help] with status 0, either after a text
    written to the standard error. *)
Inductive CommandLine : Type :=
| Parsed (fl : Flags)
| Help (usage : string)
| Rejected (message : string).

(** What the process does, the writes of package [flag] to the standard
    error included. *)
Inductive output : Type :=
| Stderr (text : string)
| Event (e : event).

Definition withFlags (env : Env) (fl : Flags) : Env :=
  mkEnv fl (env_file env) (env_sink env) (env_spare env) (env_grow env).

(** [main] from its first line: [flag.Parse()], then [loadConfigFile()],
    then the rest.  Neither the [env_flags] nor the [env_file] of the
    environment is looked at. *)
Definition process (cl : CommandLine) (w : Host) (fuel : nat) (env : Env)
  : list output :=
  match cl with
  | Parsed fl => map Event (traceOn w fuel (withFlags env fl))
  | Help usage => [Stderr usage; Event (EvExit 0)]
  | Rejected message => [Stderr message; Event (EvExit 2)]
  end.

(** The lines a failed start-up prints. *)
Definition startupMessage (msg : string) : Prop :=
  (exists e, msg = "Error getting user home directory: " ++ e ++ newline)
  \/ (exists e, msg = "Error loading config file: " ++ e ++ newline)
  \/ (exists e, msg = "Error parsing colors: " ++ e ++ newline)
  \/ (exists e, msg = "Error parsing inactive colors: " ++ e ++ newline)
  \/ msg = mismatchMessage.

(** ** Slices *)

Module SliceFacts.
Import Slice.

Lemma nth_set_nth (h : store) (n : nat) (a : list RGBA) :
  (n < List.length h)%nat -> nth n (set_nth h n a) [] = a.
Proof.
  revert n; induction h as [|x h IH]; intros [|n] Hn; simpl in *;
    try lia; auto.
  apply IH; lia.
Qed.

Lemma length_set_nth (h : store) (n : nat) (a : list RGBA) :
  List.length (set_nth h n a) = List.length h.
Proof.
  revert n; induction h as [|x h IH]; intros [|n]; simpl; auto.
Qed.

Lemma alloc_elems (h : store) (xs : list RGBA) (spare : nat) :
  elems (fst (alloc h xs spare)) (snd (alloc h xs spare)) = xs.
Proof.
  unfold elems, alloc, array; simpl.
  rewrite app_nth2, Nat.sub_diag by lia; simpl.
  now rewrite firstn_app, Nat.sub_diag, firstn_all, app_nil_r.
Qed.

Lemma alloc_wf (h : store) (xs : list RGBA) (spare : nat) :
  wf (fst (alloc h xs spare)) (snd (alloc h xs spare)).
Proof.
  unfold wf, alloc, array; simpl.
  rewrite app_nth2, Nat.sub_diag by lia; simpl.
  rewrite !length_app, repeat_length; simpl. lia.
Qed.

Lemma elems_length (h : store) (s : t) :
  wf h s -> List.length (elems h s) = length s.
Proof.
  intros (_ & Hc & Ha). unfold elems.
  rewrite length_firstn, length_skipn. lia.
Qed.

Lemma firstn_app_len {X : Type} (l r : list X) (n : nat) :
  n = List.length l -> firstn n (l ++ r) = l.
Proof.
  intros ->. now rewrite firstn_app, Nat.sub_diag, firstn_all, app_nil_r.
Qed.

Lemma skipn_app_len {X : Type} (l r : list X) (n : nat) :
  n = List.length l -> skipn n (l ++ r) = r.
Proof.
  intros ->. now rewrite skipn_app, Nat.sub_diag, skipn_all.
Qed.

(** An array cut at the four places the in-place append looks at. *)
Lemma cut4 {X : Type} (a : list X) (o k m : nat) :
  (o + k + m + k <= List.length a)%nat ->
  exists P M1 M2 T1 T2,
    a = (P ++ M1 ++ M2 ++ T1 ++ T2)%list /\ List.length P = o /\
    List.length M1 = k /\ List.length M2 = m /\ List.length T1 = k.
Proof.
  intros Hl.
  exists (firstn o a), (firstn k (skipn o a)),
    (firstn m (skipn k (skipn o a))),
    (firstn k (skipn m (skipn k (skipn o a)))),
    (skipn k (skipn m (skipn k (skipn o a)))).
  rewrite !firstn_skipn, !length_firstn, !length_skipn.
  repeat split; lia.
Qed.

(** The in-place append on the bare array: the window at [o + k] shows
    the rotation and the window at [o] is as before. *)
Lemma rotate_in_place {X : Type} (a : list X) (o L k : nat) :
  (k <= L)%nat -> (o + L + k <= List.length a)%nat ->
  let w := firstn L (skipn o a) in
  let a' :=
    (firstn (o + L) a ++ firstn k (skipn o a) ++ skipn (o + L + k) a)%list in
  firstn L (skipn (o + k) a') = (skipn k w ++ firstn k w)%list
  /\ firstn L (skipn o a') = w.
Proof.
  intros Hk Hl.
  destruct (cut4 a o k (L - k))
  as (P & M1 & M2 & T1 & T2 & -> & HP & H1 & H2 & H3); [lia|].
  cbv zeta.
  assert (E1 : firstn (o + L) (P ++ M1 ++ M2 ++ T1 ++ T2)
               = (P ++ M1 ++ M2)%list).
  { replace (P ++ M1 ++ M2 ++ T1 ++ T2)%list
      with ((P ++ M1 ++ M2) ++ T1 ++ T2)%list by now rewrite <- !app_assoc.
    apply firstn_app_len. rewrite !length_app. lia. }
  assert (E2 : skipn o (P ++ M1 ++ M2 ++ T1 ++ T2)
               = (M1 ++ M2 ++ T1 ++ T2)%list)
    by (apply skipn_app_len; lia).
  assert (E3 : skipn (o + L + k) (P ++ M1 ++ M2 ++ T1 ++ T2) = T2).
  { replace (P ++ M1 ++ M2 ++ T1 ++ T2)%list
      with ((P ++ M1 ++ M2 ++ T1) ++ T2)%list by now rewrite <- !app_assoc.
    apply skipn_app_len. rewrite !length_app. lia. }
  assert (E4 : firstn L (M1 ++ M2 ++ T1 ++ T2) = (M1 ++ M2)%list).
  { replace (M1 ++ M2 ++ T1 ++ T2)%list
      with ((M1 ++ M2) ++ T1 ++ T2)%list by now rewrite <- !app_assoc.
    apply firstn_app_len. rewrite !length_app. lia. }
  rewrite E1, E2, E3, E4.
  rewrite (firstn_app_len M1) by lia.
  rewrite (skipn_app_len M1) by lia.
  rewrite (firstn_app_len M1) by lia.
  split.
  - replace ((P ++ M1 ++ M2) ++ M1 ++ T2)%list
      with ((P ++ M1) ++ (M2 ++ M1) ++ T2)%list by now rewrite <- !app_assoc.
    rewrite skipn_app_len by (rewrite length_app; lia).
    apply firstn_app_len. rewrite length_app. lia.
  - replace ((P ++ M1 ++ M2) ++ M1 ++ T2)%list
      with (P ++ (M1 ++ M2) ++ M1 ++ T2)%list by now rewrite <- !app_assoc.
    rewrite skipn_app_len by lia.
    apply firstn_app_len. rewrite length_app. lia.
Qed.

(** Appending to [s[k:]] the elements of [s[:k]] yields the rotation of
    [s] by [k], whether the array is shared or fresh, and leaves what
    [s] shows untouched. *)
Lemma append_rotate (h : store) (s : t) (k grow : nat) :
  wf h s -> (k <= length s)%nat ->
  let r := append h (from s k) (elems h (upto s k)) grow in
  elems (fst r) (snd r) = (skipn k (elems h s) ++ firstn k (elems h s))%list
  /\ elems (fst r) s = elems h s
  /\ length (snd r) = length s
  /\ wf (fst r) (snd r) /\ wf (fst r) s.
Proof.
  intros (Hb & Hc & Ha) Hk r.
  assert (Hwf : wf h s) by (repeat split; assumption).
  assert (Hfrom : elems h (from s k) = skipn k (elems h s)).
  { unfold elems, from; simpl. unfold array; simpl.
    rewrite skipn_firstn_comm, skipn_skipn. f_equal. f_equal. lia. }
  assert (Hupto : elems h (upto s k) = firstn k (elems h s)).
  { unfold elems, upto; simpl. unfold array; simpl.
    rewrite firstn_firstn. f_equal. lia. }
  assert (Hlen : List.length (elems h (upto s k)) = k).
  { rewrite Hupto, length_firstn, elems_length by assumption. lia. }
  subst r. unfold append. rewrite Hlen.
  destruct (Nat.leb_spec (length (from s k) + k) (cap (from s k)))
    as [Hfit | Hfit]; simpl in Hfit.
  - (* in place: the array is shared with [s] *)
    cbn [fst snd].
    assert (Hupto' : elems h (upto s k) = firstn k (skipn (off s) (array h s))).
    { unfold elems, upto, array; reflexivity. }
    destruct (rotate_in_place (array h s) (off s) (length s) k Hk)
      as [R1 R2]; [lia|].
    assert (Harr : forall s', base s' = base s ->
              array (set_nth h (base s)
                (firstn (off s + k + (length s - k)) (array h s) ++
                 elems h (upto s k) ++
                 skipn (off s + k + (length s - k) + k) (array h s))) s'
              = (firstn (off s + length s) (array h s) ++
                 firstn k (skipn (off s) (array h s)) ++
                 skipn (off s + length s + k) (array h s))%list).
    { intros s' Hs'. unfold array at 1. rewrite Hs', nth_set_nth by assumption.
      rewrite Hupto'.
      replace (off s + k + (length s - k))%nat with (off s + length s)%nat
        by lia. reflexivity. }
    change (array h (from s k)) with (array h s).
    cbn [base off length cap from].
    repeat split.
    + unfold elems at 1. rewrite Harr by reflexivity. cbn [off length].
      replace (length s - k + k)%nat with (length s) by lia.
      rewrite R1. reflexivity.
    + unfold elems at 1. rewrite Harr by reflexivity. exact R2.
    + cbn. lia.
    + cbn [base]. now rewrite length_set_nth.
    + cbn [length cap]. lia.
    + rewrite Harr by reflexivity. cbn [off cap].
      rewrite !length_app, !length_firstn, !length_skipn. lia.
    + now rewrite length_set_nth.
    + assumption.
    + rewrite Harr by reflexivity.
      rewrite !length_app, !length_firstn, !length_skipn. lia.
  - (* a fresh array *)
    set (xs := (elems h (from s k) ++ elems h (upto s k))%list).
    assert (Hxs : List.length xs = length s).
    { unfold xs. rewrite length_app, Hlen, Hfrom, length_skipn, elems_length
        by assumption. lia. }
    split; [|split; [|split; [|split]]].
    + rewrite alloc_elems. unfold xs. now rewrite Hfrom, Hupto.
    + unfold alloc, elems, array; simpl. now rewrite app_nth1 by assumption.
    + unfold alloc; simpl. lia.
    + apply alloc_wf.
    + unfold wf, alloc, array; simpl. rewrite length_app; simpl.
      rewrite app_nth1 by assumption. repeat split; try lia.
      exact Ha.
Qed.

End SliceFacts.

(** ** The loops in closed form *)

Lemma bind_ok {X Y : Type} (m : IO X) (f : X -> IO Y) (n n1 n2 : nat)
  (t1 t2 : list event) (x : X) (r : option Y) :
  m n = (t1, n1, Some x) -> f x n1 = (t2, n2, r) ->
  bind m f n = ((t1 ++ t2)%list, n2, r).
Proof. intros H1 H2. unfold bind. now rewrite H1, H2. Qed.

Lemma bind_ret {X Y : Type} (x : X) (f : X -> IO Y) (n : nat) :
  bind (ret x) f n = f x n.
Proof. unfold bind, ret. now destruct (f x n) as [[t k] r]. Qed.

Lemma bind_end {X Y : Type} (m : IO X) (f : X -> IO Y) (n n1 : nat)
  (t1 : list event) :
  m n = (t1, n1, None) -> bind m f n = (t1, n1, None).
Proof. intros H1. unfold bind. now rewrite H1. Qed.

(** A bounded loop whose body always returns, having made [c]
    invocations, runs all its rounds. *)
Lemma for_range_closed (c bound : nat) (lo : Z) (body : Z -> IO unit)
  (ev : nat -> nat -> list event) :
  (forall j n, (j < bound)%nat ->
     body (lo + Z.of_nat j) n = (ev j n, (n + c)%nat, Some tt)) ->
  forall m a n, (a + m <= bound)%nat ->
    for_range m (lo + Z.of_nat a) body (n + a * c)%nat =
    (flat_map (fun j => ev j (n + j * c)%nat) (seq a m),
     (n + (a + m) * c)%nat, Some tt).
Proof.
  intros Hb. induction m as [|m IH]; intros a n Ha; simpl.
  - unfold ret. now rewrite Nat.add_0_r.
  - erewrite bind_ok; [reflexivity | apply Hb; lia |].
    replace (lo + Z.of_nat a + 1) with (lo + Z.of_nat (S a)) by lia.
    replace (n + a * c + c)%nat with (n + S a * c)%nat by lia.
    rewrite IH by lia. now replace (S a + m)%nat with (a + S m)%nat by lia.
Qed.

Lemma forever_closed (c : nat) (body : IO unit) (ev : nat -> list event) :
  (forall n, body n = (ev n, (n + c)%nat, Some tt)) ->
  forall fuel a n,
    forever fuel body (n + a * c)%nat =
    (flat_map (fun r => ev (n + r * c)%nat) (seq a fuel),
     (n + (a + fuel) * c)%nat, Some tt).
Proof.
  intros Hb. induction fuel as [|m IH]; intros a n; simpl.
  - unfold ret. now rewrite Nat.add_0_r.
  - erewrite bind_ok; [reflexivity | apply Hb |].
    replace (n + a * c + c)%nat with (n + S a * c)%nat by lia.
    rewrite IH. now replace (S a + m)%nat with (a + S m)%nat by lia.
Qed.

Lemma flat_map_ext_seq {X : Type} (f g : nat -> list X) (a m : nat) :
  (forall j, (a <= j < a + m)%nat -> f j = g j) ->
  flat_map f (seq a m) = flat_map g (seq a m).
Proof.
  revert a. induction m as [|m IH]; intros a H; simpl; auto.
  rewrite H by lia. f_equal. apply IH. intros j Hj. apply H. lia.
Qed.

Lemma flat_map_seq_shift {X : Type} (f : nat -> list X) (a m : nat) :
  flat_map f (seq a m) = flat_map (fun j => f (a + j)%nat) (seq 0 m).
Proof.
  rewrite <- (Nat.add_0_r a) at 1.
  generalize 0%nat as b. revert a.
  induction m as [|m IH]; intros a b; simpl; auto.
  f_equal. rewrite <- (IH a (S b)). f_equal. f_equal. lia.
Qed.

(** Two nested counting loops are one loop over the pairs, row by row. *)
Lemma flat_map_nested {X : Type} (g : nat -> nat -> list X) (L w : nat) :
  (0 < w)%nat ->
  flat_map (fun i => flat_map (fun j => g i j) (seq 0 w)) (seq 0 L) =
  flat_map (fun k => g (k / w)%nat (k mod w)%nat) (seq 0 (L * w)).
Proof.
  intros Hw. induction L as [|L IH]; [reflexivity|].
  rewrite seq_S, flat_map_app, IH, Nat.mul_succ_l, seq_app, flat_map_app.
  f_equal. cbn [flat_map Nat.add]. rewrite app_nil_r.
  rewrite (flat_map_seq_shift _ (L * w)).
  apply flat_map_ext_seq. intros j Hj.
  rewrite Nat.add_comm, Nat.div_add, Nat.Div0.mod_add by lia.
  rewrite Nat.div_small, Nat.mod_small by lia. reflexivity.
Qed.

Lemma index_elems (h : Slice.store) (s : Slice.t) (i : nat) :
  Slice.wf h s -> (i < Slice.length s)%nat ->
  Slice.index h s (Z.of_nat i) = Some (colorAt (Slice.elems h s) i).
Proof.
  intros (Hb & Hc & Ha) Hi. unfold Slice.index, colorAt, Slice.elems.
  replace ((0 <=? Z.of_nat i) && (Z.of_nat i <? Z.of_nat (Slice.length s)))
    with true by (symmetry; apply andb_true_iff; split; lia).
  rewrite Nat2Z.id.
  rewrite (nth_error_nth' _ Slice.zeroColor) by lia.
  f_equal. rewrite nth_firstn.
  replace (i <? Slice.length s)%nat with true
    by (symmetry; apply Nat.ltb_lt; lia).
  now rewrite nth_skipn.
Qed.

Section AnimatorFacts.

Variable env : Env.
Variable cfg : Config.
Variable h : Slice.store.
Variables colors inactiveColors : Slice.t.
Variable stepsPerTransition : Z.
Variable delay : Z.

Hypothesis wf_colors : Slice.wf h colors.
Hypothesis wf_inactive : Slice.wf h inactiveColors.
Hypothesis same_length : Slice.length inactiveColors = Slice.length colors.
Hypothesis steps_nonneg : 0 <= stepsPerTransition.

Let active := Slice.elems h colors.
Let inactive := Slice.elems h inactiveColors.
Let fpt := framesPerTransition stepsPerTransition.
Let n_colors := Slice.length colors.

Lemma frame_closed (cur nxt curI nxtI : RGBA) (step : Z) (n : nat) :
  frame env cfg stepsPerTransition delay cur nxt curI nxtI step n =
  (frameEvents env delay
     (frameArgs cfg stepsPerTransition cur nxt curI nxtI step) n,
   (n + 1)%nat, Some tt).
Proof.
  unfold frame, frameEvents, frameArgs, bind, Run, Printf, Sleep, ret.
  rewrite Nat.add_1_r.
  destruct (env_sink env n); reflexivity.
Qed.

Lemma transition_closed (i n : nat) :
  (i < n_colors)%nat ->
  transition env cfg h colors inactiveColors stepsPerTransition delay
    (0 + Z.of_nat i) n =
  (flat_map
     (fun j =>
        frameEvents env delay
          (frameArgs cfg stepsPerTransition
             (colorAt active i) (colorAt active ((i + 1) mod n_colors))
             (colorAt inactive i) (colorAt inactive ((i + 1) mod n_colors))
             (Z.of_nat j)) (n + j)%nat)
     (seq 0 fpt),
   (n + fpt)%nat, Some tt).
Proof.
  intros Hi. unfold transition, at_index, slen. rewrite same_length.
  fold n_colors. rewrite Z.add_0_l.
  assert (Hrem : Z.rem (Z.of_nat i + 1) (Z.of_nat n_colors)
                 = Z.of_nat ((i + 1) mod n_colors)).
  { rewrite Z.rem_mod_nonneg by lia. rewrite Nat2Z.inj_mod. f_equal. lia. }
  rewrite Hrem.
  assert (Hm : ((i + 1) mod n_colors < n_colors)%nat)
    by (apply Nat.mod_upper_bound; lia).
  rewrite !index_elems by (try assumption; unfold n_colors in *; lia).
  rewrite !bind_ret.
  pose proof (for_range_closed 1 fpt 0
                (frame env cfg stepsPerTransition delay
                   (colorAt active i) (colorAt active ((i + 1) mod n_colors))
                   (colorAt inactive i)
                   (colorAt inactive ((i + 1) mod n_colors)))
                (fun j n =>
                   frameEvents env delay
                     (frameArgs cfg stepsPerTransition
                        (colorAt active i)
                        (colorAt active ((i + 1) mod n_colors))
                        (colorAt inactive i)
                        (colorAt inactive ((i + 1) mod n_colors))
                        (Z.of_nat j)) n)) as H.
  specialize (H (fun j n _ => frame_closed _ _ _ _ _ n) fpt 0%nat n
                (Nat.le_refl _)).
  simpl in H. rewrite Nat.add_0_r, Nat.mul_1_r in H.
  fold active inactive. unfold fpt, framesPerTransition in *.
  rewrite H. f_equal. f_equal.
  apply flat_map_ext_seq. intros j _. now rewrite Nat.mul_1_r.
Qed.

Lemma cycle_closed (n : nat) :
  cycle env cfg h colors inactiveColors stepsPerTransition delay n =
  (flat_map
     (fun q =>
        frameEvents env delay
          (frameAt cfg active inactive stepsPerTransition q) (n + q)%nat)
     (seq 0 (n_colors * fpt)),
   (n + n_colors * fpt)%nat, Some tt).
Proof.
  assert (Hf : (0 < fpt)%nat) by (unfold fpt, framesPerTransition; lia).
  unfold cycle.
  pose proof (for_range_closed fpt n_colors 0
                (transition env cfg h colors inactiveColors
                   stepsPerTransition delay) _
                (fun i n Hi => transition_closed i n Hi)
                n_colors 0%nat n (Nat.le_refl _)) as H.
  simpl in H. rewrite Nat.add_0_r in H. fold n_colors. rewrite H.
  f_equal. f_equal.
  set (G := fun i j =>
              frameEvents env delay
                (frameArgs cfg stepsPerTransition
                   (colorAt active i)
                   (colorAt active ((i + 1) mod n_colors))
                   (colorAt inactive i)
                   (colorAt inactive ((i + 1) mod n_colors))
                   (Z.of_nat j)) (n + (i * fpt + j))%nat).
  transitivity
    (flat_map (fun i => flat_map (fun j => G i j) (seq 0 fpt))
       (seq 0 n_colors)).
  - apply flat_map_ext_seq. intros i Hi.
    apply flat_map_ext_seq. intros j Hj. unfold G. f_equal. lia.
  - rewrite flat_map_nested by assumption.
    apply flat_map_ext_seq. intros k Hk. unfold G, frameAt.
    assert (Hlen : List.length active = n_colors)
      by (apply SliceFacts.elems_length; assumption).
    assert (Hq : (k / fpt < n_colors)%nat)
      by (apply Nat.Div0.div_lt_upper_bound; lia).
    unfold trackIndex, subStep. rewrite Hlen. fold fpt.
    rewrite (Nat.mod_small (k / fpt)) by assumption.
    f_equal. f_equal.
    rewrite (Nat.div_mod_eq k fpt) at 3. lia.
Qed.

(** The loop in closed form: after [fuel] rounds it has emitted the
    frames numbered from 0, each with its own sink invocation, and it is
    still running. *)
Lemma animate_closed (fuel n : nat) :
  animate env cfg h colors inactiveColors stepsPerTransition delay fuel n =
  (flat_map
     (fun k =>
        frameEvents env delay
          (frameAt cfg active inactive stepsPerTransition k) (n + k)%nat)
     (seq 0 (fuel * (n_colors * fpt))),
   (n + fuel * (n_colors * fpt))%nat, Some tt).
Proof.
  assert (Hf : (0 < fpt)%nat) by (unfold fpt, framesPerTransition; lia).
  unfold animate.
  pose proof (forever_closed (n_colors * fpt)
                (cycle env cfg h colors inactiveColors stepsPerTransition
                   delay) _ cycle_closed fuel 0%nat n) as H.
  simpl in H. rewrite Nat.add_0_r in H. rewrite H. f_equal. f_equal.
  destruct (Nat.eq_dec n_colors 0) as [Hz | Hz].
  - rewrite Hz. simpl. rewrite Nat.mul_0_r. simpl.
    clear. induction (seq 0 fuel); simpl; auto.
  - set (G := fun r q =>
                frameEvents env delay
                  (frameAt cfg active inactive stepsPerTransition q)
                  (n + (r * (n_colors * fpt) + q))%nat).
    transitivity
      (flat_map (fun r => flat_map (fun q => G r q) (seq 0 (n_colors * fpt)))
         (seq 0 fuel)).
    + apply flat_map_ext_seq. intros r Hr.
      apply flat_map_ext_seq. intros q Hq. unfold G. f_equal. lia.
    + rewrite flat_map_nested by nia.
      apply flat_map_ext_seq. intros k Hk. unfold G.
      assert (Hlen : List.length active = n_colors)
        by (apply SliceFacts.elems_length; assumption).
      f_equal.
      * unfold frameAt, trackIndex, subStep. rewrite Hlen. fold fpt.
        rewrite (Nat.mul_comm n_colors fpt).
        rewrite Nat.Div0.mod_mul_r.
        rewrite (Nat.mul_comm fpt), Nat.div_add, Nat.Div0.mod_add by lia.
        rewrite (Nat.div_small (k mod fpt)), Nat.add_0_l
          by (apply Nat.mod_upper_bound; lia).
        rewrite !Nat.Div0.mod_mod. reflexivity.
      * rewrite (Nat.div_mod_eq k (n_colors * fpt)) at 3. lia.
Qed.

End AnimatorFacts.

Lemma emits_ret {X : Type} (P : event -> Prop) (x : X) : emits P (ret x).
Proof. intros n. constructor. Qed.

Lemma emits_bind {X Y : Type} (P : event -> Prop) (m : IO X) (f : X -> IO Y) :
  emits P m -> (forall x, emits P (f x)) -> emits P (bind m f).
Proof.
  intros Hm Hf n. unfold bind. specialize (Hm n).
  destruct (m n) as [[t1 n1] [x|]]; simpl in *; auto.
  specialize (Hf x n1). destruct (f x n1) as [[t2 n2] r]; simpl in *.
  apply Forall_app. split; assumption.
Qed.

Lemma emits_for_range {P : event -> Prop} (body : Z -> IO unit) :
  (forall i, emits P (body i)) -> forall m lo, emits P (for_range m lo body).
Proof.
  intros Hb. induction m as [|m IH]; intros lo; simpl.
  - apply emits_ret.
  - apply emits_bind; auto.
Qed.

Lemma emits_forever {P : event -> Prop} (body : IO unit) :
  emits P body -> forall fuel, emits P (forever fuel body).
Proof.
  intros Hb. induction fuel as [|m IH]; simpl.
  - apply emits_ret.
  - apply emits_bind; auto.
Qed.

Lemma animate_emits env cfg h colors inactiveColors steps delay fuel :
  emits loopEvent
    (animate env cfg h colors inactiveColors steps delay fuel).
Proof.
  apply emits_forever. apply emits_for_range. intros i.
  unfold transition.
  assert (Hat : forall s j, emits loopEvent (at_index h s j)).
  { intros s j n. unfold at_index. destruct (Slice.index h s j); simpl.
    - constructor.
    - repeat constructor. }
  repeat (apply emits_bind; [apply Hat | intros ?]).
  apply emits_for_range. intros step n.
  unfold frame, bind, Run, Sleep, Printf, ret.
  destruct (env_sink env n) as [e|]; simpl; repeat constructor.
  now exists e.
Qed.

(** [loadTracks] is silent when it succeeds, and invokes nothing. *)
Lemma loadTracks_ok env n t n' x :
  loadTracks env n = (t, n', Some x) -> t = [] /\ n' = n.
Proof.
  unfold loadTracks, bind, ret, Printf, Exit.
  destruct (env_file env) as [fc|e]; simpl; [|discriminate].
  destruct (parseColors (Colors (Active (resolve fc (env_flags env)))))
    as [pa|e]; simpl; [|discriminate].
  destruct (0 <? Z.of_nat (List.length (Colors (Inactive
                (resolve fc (env_flags env)))))).
  - destruct (parseColors (Colors (Inactive (resolve fc (env_flags env)))))
      as [pi|e]; simpl; [|discriminate].
    intros H; inversion H; auto.
  - simpl.
    destruct (deriveInactive _ _ _) as [h2 s2]. simpl.
    intros H; inversion H; auto.
Qed.

Lemma loadTracks_counter env n :
  loadTracks env n =
  (fst (fst (loadTracks env 0%nat)), n, snd (loadTracks env 0%nat)).
Proof.
  unfold loadTracks, bind, ret, Printf, Exit.
  destruct (env_file env) as [fc|e]; simpl; [|reflexivity].
  destruct (parseColors (Colors (Active (resolve fc (env_flags env)))))
    as [pa|e]; simpl; [|reflexivity].
  destruct (0 <? Z.of_nat (List.length (Colors (Inactive
                (resolve fc (env_flags env)))))).
  - destruct (parseColors (Colors (Inactive (resolve fc (env_flags env)))))
      as [pi|e]; simpl; reflexivity.
  - simpl. destruct (deriveInactive _ _ _) as [h2 s2]. reflexivity.
Qed.

(** ** Start-up *)

(** With no inactive colours configured, [loadTracks] derives them. *)
Lemma loadTracks_derived env fc parsed n :
  env_file env = Ok fc ->
  Colors (Inactive (resolve fc (env_flags env))) = [] ->
  parseColors (Colors (Active (resolve fc (env_flags env)))) = Ok parsed ->
  let hc := Slice.alloc [] parsed (env_spare env) in
  let hi := deriveInactive (fst hc) (snd hc) (env_grow env) in
  loadTracks env n =
  ([], n, Some (resolve fc (env_flags env), fst hi, snd hc, snd hi)).
Proof.
  intros Hf Hi Hp hc hi. unfold loadTracks, bind, ret.
  rewrite Hf, Hp, Hi. simpl.
  subst hi hc. simpl.
  destruct (deriveInactive _ _ _) as [h2 s2]. reflexivity.
Qed.

Lemma deriveInactive_rotate (h : Slice.store) (colors : Slice.t) (grow : nat) :
  Slice.wf h colors ->
  let r := deriveInactive h colors grow in
  let k := (Slice.length colors / 2)%nat in
  Slice.elems (fst r) (snd r)
  = (skipn k (Slice.elems h colors) ++ firstn k (Slice.elems h colors))%list
  /\ Slice.elems (fst r) colors = Slice.elems h colors
  /\ Slice.length (snd r) = Slice.length colors
  /\ Slice.wf (fst r) (snd r) /\ Slice.wf (fst r) colors.
Proof.
  intros Hwf. apply SliceFacts.append_rotate; [assumption|].
  apply Nat.Div0.div_le_upper_bound. lia.
Qed.

(** C6: with no inactive colours configured, the inactive track that
    [main] derives is the active track rotated left by half its length
    (integer division): the second half followed by the first half.  The
    active track itself is left as parsed. *)
Theorem C6_inactive_is_rotation (env : Env) (fc : Config)
  (parsed : list RGBA) :
  env_file env = Ok fc ->
  Colors (Inactive (resolve fc (env_flags env))) = [] ->
  parseColors (Colors (Active (resolve fc (env_flags env)))) = Ok parsed ->
  exists h colors inactiveColors,
    loadTracks env 0%nat =
    ([], 0%nat, Some (resolve fc (env_flags env), h, colors, inactiveColors))
    /\ Slice.elems h colors = parsed
    /\ Slice.elems h inactiveColors
       = (skipn (List.length parsed / 2) parsed
          ++ firstn (List.length parsed / 2) parsed)%list.
Proof.
  intros Hf Hi Hp.
  pose proof (loadTracks_derived env fc parsed 0%nat Hf Hi Hp) as HL.
  cbv zeta in HL.
  set (hc := Slice.alloc [] parsed (env_spare env)) in *.
  pose proof (SliceFacts.alloc_wf [] parsed (env_spare env)) as Hwf.
  pose proof (SliceFacts.alloc_elems [] parsed (env_spare env)) as Hel.
  fold hc in Hwf, Hel.
  destruct (deriveInactive_rotate (fst hc) (snd hc) (env_grow env) Hwf)
    as (R1 & R2 & _).
  eexists _, _, _. split; [exact HL|]. split.
  - now rewrite R2.
  - rewrite R1, Hel. reflexivity.
Qed.

Lemma C6_inactive_is_rotation_witness :
  exists h colors inactiveColors,
    loadTracks envFour 0%nat =
    ([], 0%nat,
     Some (resolve (mkConfig emptyBorderConfig emptyBorderConfig)
             (env_flags envFour), h, colors, inactiveColors))
    /\ Slice.elems h colors
       = [mkRGBA 17 17 17 17; mkRGBA 34 34 34 34; mkRGBA 51 51 51 51;
          mkRGBA 68 68 68 68]
    /\ Slice.elems h inactiveColors
       = [mkRGBA 51 51 51 51; mkRGBA 68 68 68 68; mkRGBA 17 17 17 17;
          mkRGBA 34 34 34 34].
Proof.
  exact (C6_inactive_is_rotation envFour
           (mkConfig emptyBorderConfig emptyBorderConfig)
           [mkRGBA 17 17 17 17; mkRGBA 34 34 34 34; mkRGBA 51 51 51 51;
            mkRGBA 68 68 68 68]
           eq_refl eq_refl eq_refl).
Defined.

Lemma mismatch_not_loopEvent : ~ loopEvent (EvPrintf mismatchMessage).
Proof. intros [err H]. discriminate H. Qed.

(** C10: when the inactive track is derived from the active one, the two
    have the same length, and no run prints the track-length-mismatch
    message, however long it goes on. *)
Theorem C10_derived_track_never_mismatches (fuel : nat) (env : Env)
  (fc : Config) :
  env_file env = Ok fc ->
  Colors (Inactive (resolve fc (env_flags env))) = [] ->
  (forall t n cfg h colors inactiveColors,
      loadTracks env 0%nat = (t, n, Some (cfg, h, colors, inactiveColors)) ->
      Slice.length inactiveColors = Slice.length colors)
  /\ ~ In (EvPrintf mismatchMessage) (trace fuel env).
Proof.
  intros Hf Hi.
  destruct (parseColors (Colors (Active (resolve fc (env_flags env)))))
    as [parsed|e] eqn:Hp.
  - pose proof (loadTracks_derived env fc parsed 0%nat Hf Hi Hp) as HL.
    cbv zeta in HL.
    set (hc := Slice.alloc [] parsed (env_spare env)) in *.
    pose proof (SliceFacts.alloc_wf [] parsed (env_spare env)) as Hwf.
    fold hc in Hwf.
    destruct (deriveInactive_rotate (fst hc) (snd hc) (env_grow env) Hwf)
      as (_ & _ & R3 & _).
    split.
    + intros t n cfg h colors inactiveColors H. rewrite HL in H.
      inversion H; subst. exact R3.
    + unfold trace, main, bind. rewrite HL. unfold runTracks.
      unfold slen. rewrite R3, Z.eqb_refl. simpl negb. cbv iota.
      rewrite bind_ret.
      pose proof (animate_emits env (resolve fc (env_flags env))
                    (fst (deriveInactive (fst hc) (snd hc) (env_grow env)))
                    (snd hc)
                    (snd (deriveInactive (fst hc) (snd hc) (env_grow env)))
                    (stepsOf (resolve fc (env_flags env)))
                    (delayOf (resolve fc (env_flags env))) fuel 0%nat) as HE.
      destruct (animate _ _ _ _ _ _ _ _ _) as [[t2 n2] r]. simpl in *.
      intros Hin. rewrite Forall_forall in HE.
      exact (mismatch_not_loopEvent (HE _ Hin)).
  - split.
    + intros t n cfg h colors inactiveColors H.
      unfold loadTracks, bind, ret, Printf, Exit in H.
      rewrite Hf, Hp in H. simpl in H. discriminate H.
    + unfold trace, main, loadTracks, bind, ret, Printf, Exit.
      rewrite Hf, Hp. simpl.
      intros [H | [H | []]]; discriminate H.
Qed.

Lemma C10_derived_track_never_mismatches_witness :
  (forall t n cfg h colors inactiveColors,
      loadTracks envDefault 0%nat
      = (t, n, Some (cfg, h, colors, inactiveColors)) ->
      Slice.length inactiveColors = Slice.length colors)
  /\ ~ In (EvPrintf mismatchMessage) (trace 2 envDefault).
Proof.
  exact (C10_derived_track_never_mismatches 2 envDefault
           (mkConfig emptyBorderConfig emptyBorderConfig) eq_refl eq_refl).
Defined.

(** C8: when the two tracks that start-up arrives at differ in length, the
    process prints the mismatch message and exits with status 1; this is
    all it does, and no frame reaches the sink. *)
Theorem C8_length_mismatch_is_fatal (fuel : nat) (env : Env)
  (t : list event) (n : nat) (cfg : Config) (h : Slice.store)
  (colors inactiveColors : Slice.t) :
  loadTracks env 0%nat = (t, n, Some (cfg, h, colors, inactiveColors)) ->
  slen inactiveColors <> slen colors ->
  main fuel env 0%nat
  = ([EvPrintf mismatchMessage; EvExit 1], 0%nat, None)
  /\ runs (trace fuel env) = [].
Proof.
  intros HL Hne.
  destruct (loadTracks_ok _ _ _ _ _ HL) as [-> ->].
  assert (Hm : main fuel env 0%nat
               = ([EvPrintf mismatchMessage; EvExit 1], 0%nat, None)).
  { unfold main, bind at 1. rewrite HL. unfold runTracks.
    apply Z.eqb_neq in Hne. rewrite Hne. reflexivity. }
  split; [exact Hm|]. unfold trace. rewrite Hm. reflexivity.
Qed.

Lemma C8_length_mismatch_is_fatal_witness :
  main 5 envMismatch 0%nat
  = ([EvPrintf mismatchMessage; EvExit 1], 0%nat, None)
  /\ runs (trace 5 envMismatch) = [].
Proof.
  eapply (C8_length_mismatch_is_fatal 5 envMismatch).
  - vm_compute. reflexivity.
  - vm_compute. discriminate.
Defined.

(** ** The frames the sink receives *)

Lemma runs_app (t1 t2 : list event) :
  runs (t1 ++ t2) = (runs t1 ++ runs t2)%list.
Proof.
  induction t1 as [|e t1 IH]; simpl; auto.
  destruct e; simpl; now rewrite ?IH.
Qed.

Lemma runs_frameEvents env delay args n :
  runs (frameEvents env delay args n) = [args].
Proof. unfold frameEvents. simpl. now destruct (env_sink env n). Qed.

Lemma runs_frames env delay (f : nat -> borderArgs) (g : nat -> nat)
  (l : list nat) :
  runs (flat_map (fun k => frameEvents env delay (f k) (g k)) l) = map f l.
Proof.
  induction l as [|k l IH]; [reflexivity|].
  cbn [flat_map map]. now rewrite runs_app, runs_frameEvents, IH.
Qed.

Lemma nth_error_map_seq {X : Type} (f : nat -> X) (m k : nat) :
  (k < m)%nat -> nth_error (map f (seq 0 m)) k = Some (f k).
Proof.
  intros Hk. rewrite nth_error_map, nth_error_seq.
  destruct (Nat.ltb_spec k m); [reflexivity | lia].
Qed.

(** C9: whatever the sink answers, the loop goes on.  After [fuel] rounds
    the process is still running and has handed the sink every frame
    once, in order; a failed invocation adds one printed line between the
    invocation and the sleep, and the frames are the same for every
    sink. *)
Theorem C9_sink_failure_never_stops_the_loop (env : Env) (cfg : Config)
  (h : Slice.store) (colors inactiveColors : Slice.t)
  (stepsPerTransition delay : Z) (fuel n : nat) :
  Slice.wf h colors -> Slice.wf h inactiveColors ->
  Slice.length inactiveColors = Slice.length colors ->
  0 <= stepsPerTransition ->
  let active := Slice.elems h colors in
  let inactive := Slice.elems h inactiveColors in
  let total :=
    (fuel * (Slice.length colors * framesPerTransition stepsPerTransition))%nat
  in
  let frameK := frameAt cfg active inactive stepsPerTransition in
  let run :=
    animate env cfg h colors inactiveColors stepsPerTransition delay fuel n in
  run = (flat_map (fun k => frameEvents env delay (frameK k) (n + k)%nat)
           (seq 0 total),
         (n + total)%nat, Some tt)
  /\ runs (fst (fst run)) = map frameK (seq 0 total)
  /\ (forall k e, env_sink env (n + k)%nat = Some e ->
        frameEvents env delay (frameK k) (n + k)%nat
        = [EvRun "borders" (frameK k);
           EvPrintf ("Error running borders command: " ++ e ++ newline);
           EvSleep delay])
  /\ (forall k, env_sink env (n + k)%nat = None ->
        frameEvents env delay (frameK k) (n + k)%nat
        = [EvRun "borders" (frameK k); EvSleep delay]).
Proof.
  intros Hc Hi Hl Hs active inactive total frameK run.
  assert (Hrun :
    run = (flat_map (fun k => frameEvents env delay (frameK k) (n + k)%nat)
             (seq 0 total), (n + total)%nat, Some tt))
    by (apply animate_closed; assumption).
  split; [exact Hrun|]. split.
  - rewrite Hrun. simpl. apply runs_frames.
  - split; intros k; [intros e|]; intros He; unfold frameEvents;
      rewrite He; reflexivity.
Qed.

Lemma C9_sink_failure_never_stops_the_loop_witness :
  let h := [[mkRGBA 255 0 0 255; mkRGBA 0 0 255 255]] in
  let s := Slice.mk 0 0 2 2 in
  snd (animate envTwo defaultConfig h s s 2 500000000 3 0%nat) = Some tt
  /\ List.length (runs (fst (fst
       (animate envTwo defaultConfig h s s 2 500000000 3 0%nat)))) = 18%nat.
Proof.
  intros h s.
  assert (Hwf : Slice.wf h s) by (repeat split; simpl; lia).
  destruct (C9_sink_failure_never_stops_the_loop envTwo defaultConfig h s s
              2 500000000 3 0%nat Hwf Hwf eq_refl ltac:(lia))
    as (H1 & H2 & _).
  split.
  - rewrite H1. reflexivity.
  - rewrite H2. reflexivity.
Defined.

(** The two tracks step together: a frame either moves on within its
    transition or starts the next one, cyclically. *)
Lemma schedule_next (n_colors : nat) (steps : Z) (k : nat)
  (active : list RGBA) :
  List.length active = n_colors -> (0 < n_colors)%nat -> 0 <= steps ->
  let i := trackIndex active steps k in
  let j := subStep steps k in
  (i < n_colors)%nat /\ (Z.of_nat j <= steps) /\
  (if Z.of_nat j <? steps
   then trackIndex active steps (S k) = i /\ subStep steps (S k) = S j
   else trackIndex active steps (S k) = ((i + 1) mod n_colors)%nat
        /\ subStep steps (S k) = 0%nat).
Proof.
  intros Hl Hn Hs. unfold trackIndex, subStep, framesPerTransition.
  rewrite Hl. set (w := Z.to_nat (steps + 1)).
  assert (Hw : (0 < w)%nat) by (unfold w; lia).
  assert (Hsw : steps = Z.of_nat w - 1) by (unfold w; lia).
  pose proof (Nat.mod_upper_bound k w ltac:(lia)) as Hj.
  pose proof (Nat.mod_upper_bound (k / w) n_colors ltac:(lia)) as Hi.
  cbv zeta. split; [exact Hi|]. split; [lia|].
  pose proof (Nat.div_mod_eq k w) as Hk.
  destruct (Z.ltb_spec (Z.of_nat (k mod w)) steps) as [Hlt | Hge].
  - assert (Ed : (S k / w = k / w)%nat).
    { symmetry. apply (Nat.div_unique (S k) w (k / w) (S (k mod w))); lia. }
    assert (Em : (S k mod w = S (k mod w))%nat).
    { symmetry. apply (Nat.mod_unique (S k) w (k / w) (S (k mod w))); lia. }
    rewrite Ed, Em. split; reflexivity.
  - assert (Ed : (S k / w = k / w + 1)%nat).
    { symmetry. apply (Nat.div_unique (S k) w (k / w + 1) 0); lia. }
    assert (Em : (S k mod w = 0)%nat).
    { symmetry. apply (Nat.mod_unique (S k) w (k / w + 1) 0); lia. }
    rewrite Ed, Em. split; [|reflexivity].
    now rewrite Nat.Div0.add_mod_idemp_l.
Qed.

(** C1: the animator hands the sink one frame after the other, for ever:
    after [fuel] rounds of the outer loop it has emitted
    [fuel * len * (stepsPerTransition + 1)] frames.  Frame [k] belongs to
    transition [trackIndex = (k / (stepsPerTransition + 1)) mod len] and
    sub-step [subStep = k mod (stepsPerTransition + 1)]; the sub-step runs
    from 0 to [stepsPerTransition] inclusive, and then the next transition
    starts, the one after the last being the first.  The frame shows, for
    both tracks, the colour interpolated between the track's entries
    [trackIndex] and [(trackIndex + 1) mod len] at
    [t = subStep / stepsPerTransition].  With [stepsPerTransition = 2] the
    values of [t] are 0, 0.5, 1, 0, 0.5, 1, ... *)
Theorem C1_animator_emits_the_cyclic_frames (env : Env) (cfg : Config)
  (h : Slice.store) (colors inactiveColors : Slice.t)
  (stepsPerTransition delay : Z) (fuel n : nat) :
  Slice.wf h colors -> Slice.wf h inactiveColors ->
  Slice.length inactiveColors = Slice.length colors ->
  (0 < Slice.length colors)%nat ->
  1 <= stepsPerTransition ->
  let active := Slice.elems h colors in
  let inactive := Slice.elems h inactiveColors in
  let len := Slice.length colors in
  let total := (fuel * (len * Z.to_nat (stepsPerTransition + 1)))%nat in
  let out :=
    runs (fst (fst (animate env cfg h colors inactiveColors
                      stepsPerTransition delay fuel n))) in
  let trackIndexOf := trackIndex active stepsPerTransition in
  let subStepOf := subStep stepsPerTransition in
  List.length out = total
  /\ (forall k, (k < total)%nat ->
        let i := trackIndexOf k in
        let i' := ((i + 1) mod len)%nat in
        let t := F64.div (F64.of_Z (Z.of_nat (subStepOf k)))
                         (F64.of_Z stepsPerTransition) in
        nth_error out k =
        Some (mkArgs
                (glowWrap (Glow (Active cfg))
                   (colorToHex
                      (interpolateColor (colorAt active i)
                         (colorAt active i') t)))
                (glowWrap (Glow (Inactive cfg))
                   (colorToHex
                      (interpolateColor (colorAt inactive i)
                         (colorAt inactive i') t)))
                (Width (Active cfg))))
  /\ (forall k,
        trackIndexOf k = ((k / Z.to_nat (stepsPerTransition + 1)) mod len)%nat
        /\ subStepOf k = (k mod Z.to_nat (stepsPerTransition + 1))%nat
        /\ (trackIndexOf k < len)%nat
        /\ Z.of_nat (subStepOf k) <= stepsPerTransition
        /\ (if Z.of_nat (subStepOf k) <? stepsPerTransition
            then trackIndexOf (S k) = trackIndexOf k
                 /\ subStepOf (S k) = S (subStepOf k)
            else trackIndexOf (S k) = ((trackIndexOf k + 1) mod len)%nat
                 /\ subStepOf (S k) = 0%nat))
  /\ (stepsPerTransition = 2 ->
      forall k,
        t_of stepsPerTransition (Z.of_nat (subStepOf k)) =
        nth (k mod 3)
          [S754_zero false;
           S754_finite false 4503599627370496 (-53);
           S754_finite false 4503599627370496 (-52)] S754_nan).
Proof.
  intros Hc Hi Hl Hn Hs active inactive len total out trackIndexOf subStepOf.
  assert (Hlen : List.length active = len)
    by (apply SliceFacts.elems_length; assumption).
  assert (Hout : out = map (frameAt cfg active inactive stepsPerTransition)
                         (seq 0 total)).
  { unfold out.
    rewrite (animate_closed env cfg h colors inactiveColors
               stepsPerTransition delay Hc Hi Hl ltac:(lia) fuel n).
    cbn [fst]. apply runs_frames. }
  split; [|split; [|split]].
  - now rewrite Hout, length_map, length_seq.
  - intros k Hk. cbv zeta. rewrite Hout, nth_error_map_seq by assumption.
    unfold frameAt, frameArgs, t_of. rewrite Hlen. reflexivity.
  - intros k.
    destruct (schedule_next len stepsPerTransition k active Hlen Hn
                ltac:(lia)) as (H1 & H2 & H3).
    unfold trackIndexOf, subStepOf.
    split; [unfold trackIndex, framesPerTransition; now rewrite Hlen|].
    split; [reflexivity|].
    split; [exact H1|]. split; [exact H2|]. exact H3.
  - intros -> k. unfold subStepOf, subStep, framesPerTransition.
    change (Z.to_nat (2 + 1)) with 3%nat.
    pose proof (Nat.mod_upper_bound k 3 ltac:(lia)) as Hk.
    destruct (k mod 3)%nat as [|[|[|m]]]; try lia; vm_compute; reflexivity.
Qed.

Lemma C1_animator_emits_the_cyclic_frames_witness :
  let h := [[mkRGBA 255 0 0 255; mkRGBA 0 0 255 255]] in
  let s := Slice.mk 0 0 2 2 in
  let out := runs (fst (fst (animate envTwo defaultConfig h s s 2 500000000
                               2 0%nat))) in
  List.length out = 12%nat
  /\ map active_color (firstn 7 out)
     = ["0xFFFF0000"; "0xFF7F007F"; "0xFF0000FF";
        "0xFF0000FF"; "0xFF7F007F"; "0xFFFF0000"; "0xFFFF0000"]%string.
Proof.
  intros h s out.
  assert (Hwf : Slice.wf h s) by (repeat split; simpl; lia).
  destruct (C1_animator_emits_the_cyclic_frames envTwo defaultConfig h s s
              2 500000000 2 0%nat Hwf Hwf eq_refl ltac:(simpl; lia)
              ltac:(lia))
    as (H1 & _).
  split; [exact H1 | reflexivity].
Defined.

(** ** [main] as a whole *)

(** A fresh array leaves the slices of the store as they are. *)
Lemma alloc_keeps (h : Slice.store) (xs : list RGBA) (spare : nat)
  (s : Slice.t) :
  Slice.wf h s ->
  Slice.wf (fst (Slice.alloc h xs spare)) s
  /\ Slice.elems (fst (Slice.alloc h xs spare)) s = Slice.elems h s.
Proof.
  intros (Hb & Hc & Ha).
  unfold Slice.wf, Slice.elems, Slice.alloc, Slice.array in *. cbn [fst].
  rewrite length_app, app_nth1 by assumption. cbn [List.length].
  repeat split; try assumption. lia.
Qed.

(** The tracks [loadTracks] hands over are well formed. *)
Lemma loadTracks_wf env n t n' cfg h colors inactiveColors :
  loadTracks env n = (t, n', Some (cfg, h, colors, inactiveColors)) ->
  Slice.wf h colors /\ Slice.wf h inactiveColors.
Proof.
  unfold loadTracks, bind, ret, Printf, Exit.
  destruct (env_file env) as [fc|e]; cbn; [|discriminate].
  destruct (parseColors (Colors (Active (resolve fc (env_flags env)))))
    as [pa|e]; cbn; [|discriminate].
  pose proof (SliceFacts.alloc_wf [] pa (env_spare env)) as Hwf.
  destruct (0 <? Z.of_nat (List.length (Colors (Inactive
                (resolve fc (env_flags env)))))).
  - destruct (parseColors (Colors (Inactive (resolve fc (env_flags env)))))
      as [pi|e]; cbn; [|discriminate].
    intros H. injection H as _ _ _ <- <- <-.
    split.
    + exact (proj1 (alloc_keeps _ pi (env_spare env) _ Hwf)).
    + exact (SliceFacts.alloc_wf
               (fst (Slice.alloc [] pa (env_spare env))) pi (env_spare env)).
  - cbn.
    pose proof (deriveInactive_rotate _ _ (env_grow env) Hwf)
      as (_ & _ & _ & W1 & W2).
    destruct (deriveInactive _ _ _) as [h2 s2]. cbn in *.
    intros H. injection H as _ _ _ <- <- <-. split; assumption.
Qed.

(** A run of [main] whose start-up succeeds with tracks of one length: the
    process prints nothing at start-up, and its trace is the frames of the
    animation, one after the other. *)
Lemma main_closed (fuel : nat) (env : Env) (t : list event) (n : nat)
  (cfg : Config) (h : Slice.store) (colors inactiveColors : Slice.t) :
  loadTracks env 0%nat = (t, n, Some (cfg, h, colors, inactiveColors)) ->
  Slice.length inactiveColors = Slice.length colors ->
  0 <= stepsOf cfg ->
  trace fuel env =
  flat_map
    (fun k =>
       frameEvents env (delayOf cfg)
         (frameAt cfg (Slice.elems h colors) (Slice.elems h inactiveColors)
            (stepsOf cfg) k) k)
    (seq 0 (fuel * (Slice.length colors
                    * framesPerTransition (stepsOf cfg)))).
Proof.
  intros HL Hlen Hsteps.
  destruct (loadTracks_wf _ _ _ _ _ _ _ _ HL) as [Wc Wi].
  destruct (loadTracks_ok _ _ _ _ _ HL) as [-> ->].
  unfold trace, main. unfold bind at 1. rewrite HL. unfold runTracks.
  unfold slen. rewrite Hlen, Z.eqb_refl. cbn [negb]. rewrite bind_ret.
  rewrite (animate_closed env cfg h colors inactiveColors (stepsOf cfg)
             (delayOf cfg) Wc Wi Hlen Hsteps fuel 0%nat).
  reflexivity.
Qed.

(** ** The model on the examples of the documentation *)

Example parse_default_colors :
  parseColors (Colors (Active defaultConfig))
  = Ok [mkRGBA 255 0 0 255; mkRGBA 255 165 0 255; mkRGBA 255 255 0 255;
        mkRGBA 0 128 0 255; mkRGBA 0 0 255 255; mkRGBA 75 0 130 255].
Proof. reflexivity. Qed.

Example parse_wrong_length :
  parseColors ["#FF0000"] = Err "invalid color format: FF0000".
Proof. reflexivity. Qed.

Example parse_not_hex :
  parseColors ["#GG0000FF"] = Err "invalid color value: GG0000FF".
Proof. reflexivity. Qed.

Example encode_orange :
  colorToHex (mkRGBA 255 165 0 255) = "0xFFFFA500".
Proof. reflexivity. Qed.

(** Half way from red to blue: 127.5 is truncated to 127. *)
Example interpolate_half :
  interpolateColor (mkRGBA 255 0 0 255) (mkRGBA 0 0 255 255)
    (F64.div (F64.of_Z 1) (F64.of_Z 2))
  = mkRGBA 127 0 127 255.
Proof. vm_compute. reflexivity. Qed.

(** Two colours, [secs = 1] and [fps = 2]: two steps per transition, half
    a second per frame, and the sink failing on every other frame. *)
Example two_colours_timing :
  let cfg := resolve (mkConfig emptyBorderConfig emptyBorderConfig)
               (env_flags envTwo) in
  stepsOf cfg = 2 /\ delayOf cfg = 500000000.
Proof. vm_compute. split; reflexivity. Qed.

Example two_colours_trace :
  firstn 5 (trace 1 envTwo)
  = [EvRun "borders"
       (mkArgs "0xFFFF0000" "0xFF0000FF" (F64.of_Z 5));
     EvPrintf ("Error running borders command: exit status 1" ++ newline);
     EvSleep 500000000;
     EvRun "borders"
       (mkArgs "0xFF7F007F" "0xFF7F007F" (F64.of_Z 5));
     EvSleep 500000000].
Proof. vm_compute. reflexivity. Qed.

(** The default configuration: nine steps per transition, six colours,
    sixty frames per round. *)
Example default_frames_per_round :
  List.length (runs (trace 1 envDefault)) = 60%nat.
Proof. vm_compute. reflexivity. Qed.

(** ** Parsing and encoding *)

Lemma isHexDigit_cases (c : ascii) : isHexDigit c = true -> In c hexDigits.
Proof.
  destruct c as [[] [] [] [] [] [] [] []]; intros H;
    solve [discriminate H | vm_compute; tauto].
Qed.

Lemma hex_ind (P : ascii -> Prop) :
  Forall P hexDigits -> forall c, isHexDigit c = true -> P c.
Proof.
  intros HP c Hc. rewrite Forall_forall in HP. apply HP.
  now apply isHexDigit_cases.
Qed.

Ltac each_hex tac :=
  unfold hexDigits; cbn [list_ascii_of_string];
  repeat (apply Forall_cons; [solve [tac] |]); apply Forall_nil.

Lemma hexVal_range (c : ascii) : isHexDigit c = true -> 0 <= hexVal c < 16.
Proof.
  revert c. apply hex_ind.
  each_hex ltac:(vm_compute; split; [discriminate | reflexivity]).
Qed.

Lemma hexDigitUpper_hexVal (c : ascii) :
  isHexDigit c = true -> hexDigitUpper (hexVal c) = toUpperHex c.
Proof. revert c. apply hex_ind. each_hex ltac:(reflexivity). Qed.

Lemma SkipSpace_hex (c : ascii) (rest : string) :
  isHexDigit c = true -> SkipSpace (String c rest) = Ok (String c rest).
Proof.
  revert c. apply hex_ind.
  each_hex ltac:(destruct rest as [|c1 [|c2 s3]]; reflexivity).
Qed.

Lemma TrimPrefix_hex (c : ascii) (rest : string) :
  isHexDigit c = true -> TrimPrefix_hash (String c rest) = String c rest.
Proof.
  intros H. destruct c as [[] [] [] [] [] [] [] []]; try reflexivity.
  discriminate H.
Qed.

Lemma parseColor_hash (b : string) :
  TrimPrefix_hash b = b -> parseColor (String "#" b) = parseColor b.
Proof.
  intros H. unfold parseColor.
  change (TrimPrefix_hash (String "#" b)) with b. now rewrite H.
Qed.

Lemma fmt_02X_pair (a b : Z) :
  0 <= a < 16 -> 0 <= b < 16 ->
  fmt_02X (16 * a + b)
  = String (hexDigitUpper a) (String (hexDigitUpper b) EmptyString).
Proof.
  intros Ha Hb. unfold fmt_02X.
  replace ((16 * a + b) / 16) with a by (Z.div_mod_to_equations; lia).
  replace ((16 * a + b) mod 16) with b by (Z.div_mod_to_equations; lia).
  reflexivity.
Qed.

Section EightDigits.

Variables d0 d1 d2 d3 d4 d5 d6 d7 : ascii.
Hypothesis H0 : isHexDigit d0 = true.
Hypothesis H1 : isHexDigit d1 = true.
Hypothesis H2 : isHexDigit d2 = true.
Hypothesis H3 : isHexDigit d3 = true.
Hypothesis H4 : isHexDigit d4 = true.
Hypothesis H5 : isHexDigit d5 = true.
Hypothesis H6 : isHexDigit d6 = true.
Hypothesis H7 : isHexDigit d7 = true.

Let body : string :=
  String d0 (String d1 (String d2 (String d3
    (String d4 (String d5 (String d6 (String d7 EmptyString))))))).

Lemma Sscanf_hex8 :
  Sscanf_08X body
  = Ok (((((((hexVal d0 * 16 + hexVal d1) * 16 + hexVal d2) * 16 + hexVal d3)
            * 16 + hexVal d4) * 16 + hexVal d5) * 16 + hexVal d6) * 16
        + hexVal d7).
Proof.
  unfold Sscanf_08X, body. rewrite SkipSpace_hex by assumption.
  cbn [scanNumber]. rewrite H0, H1, H2, H3, H4, H5, H6, H7.
  cbn [ParseUint16]. rewrite Z.mul_0_l, Z.add_0_l.
  pose proof (hexVal_range d0 H0). pose proof (hexVal_range d1 H1).
  pose proof (hexVal_range d2 H2). pose proof (hexVal_range d3 H3).
  pose proof (hexVal_range d4 H4). pose proof (hexVal_range d5 H5).
  pose proof (hexVal_range d6 H6). pose proof (hexVal_range d7 H7).
  match goal with |- (if ?v <? ?b then _ else _) = _ =>
    destruct (Z.ltb_spec v b) as [_|Hge]; [reflexivity|]
  end.
  exfalso. change (2 ^ 32) with 4294967296 in Hge. lia.
Qed.

Lemma parseColor_hex8 :
  parseColor body
  = Ok (mkRGBA (16 * hexVal d0 + hexVal d1) (16 * hexVal d2 + hexVal d3)
               (16 * hexVal d4 + hexVal d5) (16 * hexVal d6 + hexVal d7)).
Proof.
  pose proof (hexVal_range d0 H0). pose proof (hexVal_range d1 H1).
  pose proof (hexVal_range d2 H2). pose proof (hexVal_range d3 H3).
  pose proof (hexVal_range d4 H4). pose proof (hexVal_range d5 H5).
  pose proof (hexVal_range d6 H6). pose proof (hexVal_range d7 H7).
  assert (Htrim : TrimPrefix_hash body = body)
    by (apply TrimPrefix_hex; assumption).
  unfold parseColor. rewrite Htrim.
  change (len body =? 8) with true. cbn [negb].
  rewrite Sscanf_hex8. unfold uint8.
  change 255 with (Z.ones 8). rewrite !Z.land_ones, !Z.shiftr_div_pow2 by lia.
  change (2 ^ 24) with 16777216. change (2 ^ 16) with 65536.
  change (2 ^ 8) with 256.
  f_equal. f_equal; Z.div_mod_to_equations; lia.
Qed.

Lemma colorToHex_hex8 :
  colorToHex (mkRGBA (16 * hexVal d0 + hexVal d1) (16 * hexVal d2 + hexVal d3)
                     (16 * hexVal d4 + hexVal d5) (16 * hexVal d6 + hexVal d7))
  = canonicalHex body.
Proof.
  unfold colorToHex. cbn [R G B A].
  rewrite !fmt_02X_pair by (apply hexVal_range; assumption).
  rewrite !hexDigitUpper_hexVal by assumption.
  reflexivity.
Qed.

End EightDigits.

Lemma isHex8_inv (body : string) :
  isHex8 body = true ->
  exists d0 d1 d2 d3 d4 d5 d6 d7,
    body = String d0 (String d1 (String d2 (String d3
             (String d4 (String d5 (String d6 (String d7 EmptyString)))))))
    /\ isHexDigit d0 = true /\ isHexDigit d1 = true /\ isHexDigit d2 = true
    /\ isHexDigit d3 = true /\ isHexDigit d4 = true /\ isHexDigit d5 = true
    /\ isHexDigit d6 = true /\ isHexDigit d7 = true.
Proof.
  unfold isHex8. intros H. apply andb_true_iff in H. destruct H as [Hl Hd].
  destruct body as [|d0 [|d1 [|d2 [|d3 [|d4 [|d5 [|d6 [|d7 [|d8 rest]]]]]]]]];
    try discriminate Hl.
  cbn [list_ascii_of_string forallb] in Hd.
  repeat (apply andb_true_iff in Hd; destruct Hd as [? Hd]).
  exists d0, d1, d2, d3, d4, d5, d6, d7. repeat split; assumption.
Qed.

(** The format error is raised exactly on a wrong length. *)
Lemma parseColor_format_error_iff (c : string) :
  (exists rest, parseColor c = Err ("invalid color format: " ++ rest))
  <-> len (TrimPrefix_hash c) <> 8.
Proof.
  unfold parseColor. split.
  - intros [rest H] Hl. rewrite Hl in H. cbn [Z.eqb Pos.eqb negb] in H.
    destruct (Sscanf_08X (TrimPrefix_hash c)); discriminate H.
  - intros Hl. apply Z.eqb_neq in Hl. rewrite Hl. cbn [negb]. eauto.
Qed.

(** C4: a colour written as eight hexadecimal digits [RRGGBBAA], in
    either case and with or without a leading [#], is parsed, and encoding
    the parsed colour gives [0x], then the alpha digits, then the red, green
    and blue digits, all in upper case; each channel holds the value of its
    two digits. *)
Theorem C4_parse_then_encode_is_canonical (s body : string) :
  isHex8 body = true ->
  s = body \/ s = String "#" body ->
  exists c,
    parseColors [s] = Ok [c]
    /\ R c = hexPair body 0 /\ G c = hexPair body 2
    /\ B c = hexPair body 4 /\ A c = hexPair body 6
    /\ colorToHex c = canonicalHex body.
Proof.
  intros Hb Hs.
  destruct (isHex8_inv body Hb)
    as (d0 & d1 & d2 & d3 & d4 & d5 & d6 & d7 & -> & H0 & H1 & H2 & H3 & H4
        & H5 & H6 & H7).
  pose proof (parseColor_hex8 d0 d1 d2 d3 d4 d5 d6 d7 H0 H1 H2 H3 H4 H5 H6 H7)
    as Hp.
  assert (Hps : parseColor s
                = Ok (mkRGBA (16 * hexVal d0 + hexVal d1)
                        (16 * hexVal d2 + hexVal d3)
                        (16 * hexVal d4 + hexVal d5)
                        (16 * hexVal d6 + hexVal d7))).
  { destruct Hs as [-> | ->]; [exact Hp|].
    rewrite parseColor_hash; [exact Hp|]. now apply TrimPrefix_hex. }
  eexists. split.
  - unfold parseColors. cbn [parseColors_from]. rewrite Hps. reflexivity.
  - cbn [R G B A]. unfold hexPair. cbn [substring ParseUint16].
    repeat split; try lia.
    apply colorToHex_hex8; assumption.
Qed.

Lemma C4_parse_then_encode_is_canonical_witness :
  exists c,
    parseColors ["#ffa500Ff"] = Ok [c]
    /\ R c = 255 /\ G c = 165 /\ B c = 0 /\ A c = 255
    /\ colorToHex c = "0xFFFFA500".
Proof.
  exact (C4_parse_then_encode_is_canonical "#ffa500Ff" "ffa500Ff"
           eq_refl (or_intror eq_refl)).
Defined.

(** C3: [parseColors] accepts a string of eight characters that are not
    all hexadecimal digits: the scan stops at the first character that is
    not a digit and what it has read so far is the value.  No error is
    raised for [FF0000ZZ], which becomes the colour 0x00FF0000. *)
Theorem C3_non_hex_tail_is_accepted :
  len (TrimPrefix_hash "FF0000ZZ") = 8
  /\ isHex8 "FF0000ZZ" = false
  /\ Sscanf_08X "FF0000ZZ" = Ok 16711680
  /\ parseColors ["FF0000ZZ"] = Ok [mkRGBA 0 255 0 0].
Proof. repeat split. Qed.

(** ** Rounding in binary64 *)

Lemma digits2_size (m : positive) : digits2_pos m = Pos.size m.
Proof. induction m; simpl; congruence. Qed.

(** A positive mantissa lies between the powers of two around it. *)
Lemma digits2_bounds (m : positive) :
  2 ^ (Zpos (digits2_pos m) - 1) <= Zpos m < 2 ^ Zpos (digits2_pos m).
Proof.
  induction m as [m IH | m IH |]; cbn [digits2_pos].
  - rewrite Pos2Z.inj_succ, Z.pow_succ_r by lia.
    replace (Z.succ (Zpos (digits2_pos m)) - 1)
      with (Z.succ (Zpos (digits2_pos m) - 1)) by lia.
    rewrite Z.pow_succ_r by lia. lia.
  - rewrite Pos2Z.inj_succ, Z.pow_succ_r by lia.
    replace (Z.succ (Zpos (digits2_pos m)) - 1)
      with (Z.succ (Zpos (digits2_pos m) - 1)) by lia.
    rewrite Z.pow_succ_r by lia. lia.
  - simpl. lia.
Qed.

Lemma shr_1_m (mrs : shr_record) :
  0 <= shr_m mrs -> shr_m (shr_1 mrs) = shr_m mrs / 2.
Proof.
  destruct mrs as [m r s]. cbn [shr_m]. intros Hm. unfold shr_1.
  destruct m as [|[p|p|]|p]; cbn [shr_m]; try lia.
  - reflexivity.
  - rewrite Pos2Z.inj_xI. Z.div_mod_to_equations; lia.
  - rewrite Pos2Z.inj_xO. Z.div_mod_to_equations; lia.
  - reflexivity.
Qed.

Lemma iter_shr_1_m (p : positive) (mrs : shr_record) :
  0 <= shr_m mrs ->
  shr_m (iter_pos shr_1 p mrs) = shr_m mrs / 2 ^ Zpos p.
Proof.
  revert mrs. induction p as [p IH | p IH |]; intros mrs Hm; cbn [iter_pos].
  - assert (H1 : 0 <= shr_m (shr_1 mrs))
      by (rewrite shr_1_m by assumption; apply Z.div_pos; lia).
    assert (H2 : 0 <= shr_m (iter_pos shr_1 p (shr_1 mrs)))
      by (rewrite IH by assumption; apply Z.div_pos; lia).
    rewrite IH, IH, shr_1_m by assumption.
    rewrite !Z.div_div by lia.
    f_equal. rewrite Pos2Z.inj_xI.
    rewrite <- Z.pow_add_r, <- (Z.pow_1_r 2) at 1 by lia.
    rewrite <- Z.pow_add_r by lia. f_equal. lia.
  - assert (H2 : 0 <= shr_m (iter_pos shr_1 p mrs))
      by (rewrite IH by assumption; apply Z.div_pos; lia).
    rewrite IH, IH by assumption.
    rewrite !Z.div_div by lia.
    f_equal. rewrite Pos2Z.inj_xO, <- Z.pow_add_r by lia. f_equal. lia.
  - rewrite shr_1_m by assumption. reflexivity.
Qed.

(** What [shr] leaves of the mantissa: the quotient by the power of two
    it shifts by; the exponent grows by as much. *)
Lemma shr_spec (mrs : shr_record) (e n : Z) :
  0 <= shr_m mrs ->
  let r := shr mrs e n in
  let k := Z.max n 0 in
  shr_m (fst r) = shr_m mrs / 2 ^ k /\ snd r = e + k.
Proof.
  intros Hm r k. subst r k. unfold shr.
  destruct n as [|p|p]; cbn [fst snd].
  - simpl. rewrite Z.div_1_r. lia.
  - rewrite iter_shr_1_m by assumption. split; [f_equal|]; lia.
  - simpl. rewrite Z.div_1_r. lia.
Qed.

Lemma round_nearest_even_range (m : Z) (l : location) :
  m <= round_nearest_even m l <= m + 1.
Proof.
  unfold round_nearest_even.
  destruct l as [|[]]; try destruct (Z.even m); lia.
Qed.

Lemma shr_nonpos (mrs : shr_record) (e n : Z) :
  n <= 0 -> shr mrs e n = (mrs, e).
Proof. destruct n; try reflexivity. lia. Qed.

Lemma fexp64 (x : Z) : fexp 53 1024 x = Z.max (x - 53) (-1074).
Proof. reflexivity. Qed.

Lemma Zdigits2_le (m k : Z) :
  0 <= m -> 0 <= k -> m < 2 ^ k -> Zdigits2 m <= k.
Proof.
  intros Hm Hk Hlt. destruct m as [|p|p]; simpl; try lia.
  pose proof (digits2_bounds p) as [Hlo _].
  assert (H : 2 ^ (Zpos (digits2_pos p) - 1) < 2 ^ k) by lia.
  apply Z.pow_lt_mono_r_iff in H; lia.
Qed.

(** The shift of [shr_fexp]: by the distance to the exponent the format
    wants, when that is positive. *)
Lemma shr_fexp_spec (m e : Z) (l : location) :
  0 <= m ->
  let n := fexp 53 1024 (Zdigits2 m + e) - e in
  let r := shr_fexp 53 1024 m e l in
  shr_m (fst r) = m / 2 ^ Z.max n 0 /\ snd r = e + Z.max n 0
  /\ (n <= 0 -> fst r = shr_record_of_loc m l).
Proof.
  intros Hm n r. subst r. unfold shr_fexp. fold n.
  assert (Hs : shr_m (shr_record_of_loc m l) = m)
    by (destruct l as [|[]]; reflexivity).
  pose proof (shr_spec (shr_record_of_loc m l) e n
                ltac:(rewrite Hs; exact Hm)) as S1.
  cbv zeta in S1. rewrite Hs in S1. destruct S1 as [S1 S2].
  split; [exact S1|]. split; [exact S2|].
  intros Hn. now rewrite shr_nonpos.
Qed.

(** Quotient and remainder of a shift, scaled by a positive unit. *)
Lemma shift_sandwich (a m q : Z) :
  0 < a -> 0 < q -> 0 <= m ->
  (m / a) * (a * q) <= m * q < (m / a) * (a * q) + a * q.
Proof.
  intros Ha Hq Hm.
  pose proof (Z.mul_div_le m a Ha) as H1.
  pose proof (Z.mul_succ_div_gt m a Ha) as H2.
  replace ((m / a) * (a * q)) with ((a * (m / a)) * q) by ring.
  replace ((a * (m / a)) * q + a * q) with ((a * Z.succ (m / a)) * q)
    by ring.
  split.
  - apply Z.mul_le_mono_nonneg_r; lia.
  - apply Z.mul_lt_mono_pos_r; lia.
Qed.

Lemma step_sandwich (x y q : Z) :
  0 <= q -> x <= y <= x + 1 -> x * q <= y * q <= x * q + q.
Proof.
  intros Hq [H1 H2]. split.
  - apply Z.mul_le_mono_nonneg_r; assumption.
  - replace (x * q + q) with ((x + 1) * q) by ring.
    apply Z.mul_le_mono_nonneg_r; assumption.
Qed.

(** From a bound on the scaled value to a bound on the digits. *)
Lemma digits_of_magnitude (m e k : Z) :
  0 < m -> -2200 <= e ->
  m * 2 ^ (e + 2200) < 2 ^ (k + 2200) ->
  e < k /\ Zdigits2 m + e <= k.
Proof.
  intros Hm He Hv.
  assert (HP : 0 < 2 ^ (e + 2200)) by (apply Z.pow_pos_nonneg; lia).
  assert (Hle : 2 ^ (e + 2200) <= m * 2 ^ (e + 2200)).
  { rewrite <- (Z.mul_1_l (2 ^ (e + 2200))) at 1.
    apply Z.mul_le_mono_nonneg_r; lia. }
  assert (Hk : 0 <= k + 2200).
  { destruct (Z.lt_ge_cases (k + 2200) 0) as [Hneg | Hpos]; [|exact Hpos].
    rewrite (Z.pow_neg_r 2 (k + 2200)) in Hv by exact Hneg. lia. }
  assert (Hek : e < k).
  { assert (H : 2 ^ (e + 2200) < 2 ^ (k + 2200)) by lia.
    apply Z.pow_lt_mono_r_iff in H; lia. }
  split; [exact Hek|].
  assert (Hlt : m < 2 ^ (k - e)).
  { replace (k + 2200) with ((k - e) + (e + 2200)) in Hv by lia.
    rewrite (Z.pow_add_r 2 (k - e) (e + 2200)) in Hv by lia.
    apply (Z.mul_lt_mono_pos_r (2 ^ (e + 2200))); assumption. }
  pose proof (Zdigits2_le m (k - e) ltac:(lia) ltac:(lia) Hlt). lia.
Qed.

(** Rounding a positive number below [2 ^ k] to binary64: the result is
    a zero or a finite number of the same sign, and it is off by less than
    [2 ^ (k - 51)]. *)
Lemma round_aux_bound (sx : bool) (m : positive) (e k : Z) :
  - scaleExp <= e -> -1021 <= k <= 971 ->
  Zpos m * 2 ^ (e + scaleExp) < 2 ^ (k + scaleExp) ->
  exists r v,
    binary_round_aux 53 1024 sx (Zpos m) e loc_Exact = r
    /\ magnitude r = Some v /\ signBit r = Some sx /\ expAtLeast e r
    /\ Zpos m * 2 ^ (e + scaleExp) - 2 ^ (k - 51 + scaleExp) < v
       < Zpos m * 2 ^ (e + scaleExp) + 2 ^ (k - 51 + scaleExp).
Proof.
  unfold scaleExp. cbn [Z.opp]. intros He Hk Hv.
  destruct (digits_of_magnitude (Zpos m) e k ltac:(lia) He Hv) as [Hek Hd].
  set (P := 2 ^ (e + 2200)) in *.
  assert (HP : 0 < P) by (apply Z.pow_pos_nonneg; lia).
  set (X := 2 ^ (k - 53 + 2200)).
  assert (HX : 0 < X) by (apply Z.pow_pos_nonneg; lia).
  assert (HX4 : 2 ^ (k - 51 + 2200) = 4 * X).
  { unfold X. replace (k - 51 + 2200) with (2 + (k - 53 + 2200)) by lia.
    now rewrite (Z.pow_add_r 2 2 (k - 53 + 2200)) by lia. }
  assert (HXk : 2 ^ (k + 1 + 2200) = 2 ^ 54 * X).
  { unfold X. replace (k + 1 + 2200) with (54 + (k - 53 + 2200)) by lia.
    now rewrite (Z.pow_add_r 2 54 (k - 53 + 2200)) by lia. }
  assert (HXv : 2 ^ (k + 2200) = 2 ^ 53 * X).
  { unfold X. replace (k + 2200) with (53 + (k - 53 + 2200)) by lia.
    now rewrite (Z.pow_add_r 2 53 (k - 53 + 2200)) by lia. }
  rewrite HX4. rewrite HXv in Hv.
  (* the first shift *)
  unfold binary_round_aux.
  pose proof (shr_fexp_spec (Zpos m) e loc_Exact (Pos2Z.is_nonneg m)) as S1.
  cbv zeta in S1. cbn [Zdigits2] in S1. cbn [Zdigits2] in Hd.
  set (n1 := fexp 53 1024 (Zpos (digits2_pos m) + e) - e) in *.
  destruct (shr_fexp 53 1024 (Zpos m) e loc_Exact) as [mrs1 e1].
  cbn [fst snd] in S1. destruct S1 as (Hm1 & He1 & Hx1).
  set (A := 2 ^ Z.max n1 0) in *.
  assert (HA : 0 < A)
    by (apply Z.pow_pos_nonneg; [reflexivity | apply Z.le_max_r]).
  set (Q := A * P).
  assert (HQ : 0 < Q) by (apply Z.mul_pos_pos; assumption).
  assert (HQe : 2 ^ (e1 + 2200) = Q).
  { rewrite He1. replace (e + Z.max n1 0 + 2200)
      with (Z.max n1 0 + (e + 2200)) by ring.
    apply Z.pow_add_r; [apply Z.le_max_r | clear - He; lia]. }
  assert (Hn1 : n1 = Z.max (Zpos (digits2_pos m) + e - 53) (-1074) - e)
    by reflexivity.
  assert (Hs1 : shr_m mrs1 * Q <= Zpos m * P < shr_m mrs1 * Q + Q)
    by (rewrite Hm1; apply shift_sandwich;
        [exact HA | exact HP | apply Pos2Z.is_nonneg]).
  assert (Hm1pos : 0 <= shr_m mrs1)
    by (rewrite Hm1; apply Z.div_pos; [apply Pos2Z.is_nonneg | exact HA]).
  set (mr := round_nearest_even (shr_m mrs1) (loc_of_shr_record mrs1)).
  pose proof (step_sandwich (shr_m mrs1) mr Q (Z.lt_le_incl _ _ HQ)
                (round_nearest_even_range _ _)) as Hr.
  assert (Hmrpos : 0 <= mr)
    by (pose proof (round_nearest_even_range (shr_m mrs1)
                      (loc_of_shr_record mrs1)) as Hrr; unfold mr;
        clear - Hrr Hm1pos; lia).
  (* the first shift is exact, or it costs at most X *)
  assert (HE1 : (mr * Q = Zpos m * P /\ e1 = e) \/ (Q <= X /\ e1 <= k - 53)).
  { destruct (Z.le_gt_cases n1 0) as [Hn | Hn].
    - left.
      assert (Hmr : mr = Zpos m) by (unfold mr; now rewrite (Hx1 Hn)).
      rewrite Hmr. unfold Q, A.
      replace (Z.max n1 0) with 0 by (clear - Hn; lia).
      rewrite Z.pow_0_r, Z.mul_1_l.
      split; [reflexivity | clear - He1 Hn; lia].
    - right. assert (H : e1 <= k - 53) by (clear - He1 Hn1 Hn Hd Hk; lia).
      split; [|exact H]. rewrite <- HQe.
      apply Z.pow_le_mono_r; clear - H; lia. }
  assert (He1k : e <= e1 < k) by (clear - HE1 Hek Hk He1; lia).
  assert (Hmrv : Zpos m * P - X < mr * Q <= Zpos m * P + X)
    by (clear - HE1 Hs1 Hr HX; lia).
  (* the second shift *)
  pose proof (shr_fexp_spec mr e1 loc_Exact Hmrpos) as S2.
  cbv zeta in S2.
  set (n2 := fexp 53 1024 (Zdigits2 mr + e1) - e1) in *.
  destruct (shr_fexp 53 1024 mr e1 loc_Exact) as [mrs2 e2].
  cbn [fst snd] in S2. destruct S2 as (Hm2 & He2 & Hx2).
  set (B := 2 ^ Z.max n2 0) in *.
  assert (HB : 0 < B)
    by (apply Z.pow_pos_nonneg; [reflexivity | apply Z.le_max_r]).
  set (T := B * Q).
  assert (HT : 0 < T) by (apply Z.mul_pos_pos; assumption).
  assert (HTe : 2 ^ (e2 + 2200) = T).
  { rewrite He2. replace (e1 + Z.max n2 0 + 2200)
      with (Z.max n2 0 + (e1 + 2200)) by ring.
    rewrite (Z.pow_add_r 2 (Z.max n2 0) (e1 + 2200)), HQe
      by (clear - He1k He; lia).
    reflexivity. }
  assert (Hn2 : n2 = Z.max (Zdigits2 mr + e1 - 53) (-1074) - e1)
    by reflexivity.
  assert (Hs2 : shr_m mrs2 * T <= mr * Q < shr_m mrs2 * T + T)
    by (rewrite Hm2; apply shift_sandwich;
        [exact HB | exact HQ | exact Hmrpos]).
  assert (Hm2pos : 0 <= shr_m mrs2)
    by (rewrite Hm2; apply Z.div_pos; [exact Hmrpos | exact HB]).
  (* the rounded mantissa is below 2^(k+1) *)
  assert (Hmrd : 0 < mr -> Zdigits2 mr + e1 <= k + 1).
  { intros Hpos.
    apply (digits_of_magnitude mr e1 (k + 1) Hpos
             ltac:(clear - He1k He; lia)).
    rewrite HQe, HXk. clear - Hmrv Hv HX. lia. }
  (* the second shift is exact, or it costs at most 2 X *)
  assert (HE2 : (shr_m mrs2 * T = mr * Q /\ (mr = 0 \/ e2 = e1))
                \/ (T <= 2 * X /\ e2 <= k - 52 /\ 0 < mr)).
  { destruct (Z.eq_dec mr 0) as [Hz | Hnz].
    - left. rewrite Hm2, Hz, Z.div_0_l by (clear - HB; lia).
      split; [ring | now left].
    - destruct (Z.le_gt_cases n2 0) as [Hn | Hn].
      + left. rewrite Hm2. unfold T, B.
        replace (Z.max n2 0) with 0 by (clear - Hn; lia).
        rewrite Z.pow_0_r, Z.div_1_r.
        split; [ring | right; clear - He2 Hn; lia].
      + right. specialize (Hmrd ltac:(clear - Hnz Hmrpos; lia)).
        assert (H : e2 <= k - 52) by (clear - He2 Hn2 Hn Hmrd Hk; lia).
        split; [|split; [exact H | clear - Hnz Hmrpos; lia]].
        rewrite <- HTe.
        replace (2 * X) with (2 ^ (k - 52 + 2200)).
        * apply Z.pow_le_mono_r; clear - H; lia.
        * unfold X.
          replace (k - 52 + 2200) with (1 + (k - 53 + 2200)) by ring.
          now rewrite (Z.pow_add_r 2 1 (k - 53 + 2200)) by (clear - Hk; lia). }
  assert (Hfin : Zpos m * P - 4 * X < shr_m mrs2 * T < Zpos m * P + 4 * X)
    by (clear - HE2 Hs2 Hmrv HX; lia).
  assert (He2k : e <= e2 \/ shr_m mrs2 = 0).
  { destruct HE2 as [[_ [Hz | Hz]] | (_ & _ & _)].
    - right. rewrite Hm2, Hz. apply Z.div_0_l. clear - HB. lia.
    - left. clear - Hz He1k. lia.
    - left. clear - He2 He1k. lia. }
  assert (He2hi : shr_m mrs2 = 0 \/ e2 <= 971).
  { destruct HE2 as [[_ [Hz | Hz]] | (_ & Hz & _)].
    - left. rewrite Hm2, Hz. apply Z.div_0_l. clear - HB. lia.
    - right. clear - Hz He1k Hk. lia.
    - right. clear - Hz Hk. lia. }
  cbn [shr_m].
  destruct (shr_m mrs2) as [|m2|m2] eqn:Em2; [| |clear - Hm2pos; lia].
  - exists (S754_zero sx), 0.
    split; [reflexivity|]. split; [reflexivity|]. split; [reflexivity|].
    split; [exact I|]. clear - Hfin HX. lia.
  - assert (Hle : (e2 <=? 1024 - 53) = true)
      by (apply Z.leb_le; clear - He2hi; lia).
    rewrite Hle.
    exists (S754_finite sx m2 e2), (Zpos m2 * T).
    assert (Hge : (-2200 <=? e2) = true)
      by (apply Z.leb_le; clear - He2k He; lia).
    split; [reflexivity|]. split.
    { cbn [magnitude]. unfold scaleExp. cbn [Z.opp].
      now rewrite Hge, HTe. }
    split; [reflexivity|]. split.
    { cbn [expAtLeast]. clear - He2k. lia. }
    exact Hfin.
Qed.

Lemma iter_xO (m d : positive) : Zpos (Pos.iter xO m d) = Zpos m * 2 ^ Zpos d.
Proof.
  induction d as [|d IH] using Pos.peano_ind.
  - simpl. lia.
  - rewrite Pos.iter_succ, Pos2Z.inj_xO, IH, Pos2Z.inj_succ.
    rewrite Z.pow_succ_r by lia. lia.
Qed.

(** [shl_align] moves a mantissa to the smaller of two exponents and
    keeps the value. *)
Lemma shl_align_spec (m : positive) (e e' : Z) :
  snd (shl_align m e e') = Z.min e e'
  /\ Zpos (fst (shl_align m e e')) = Zpos m * 2 ^ (e - Z.min e e').
Proof.
  unfold shl_align. destruct (e' - e) as [|d|d] eqn:Ed; cbn [fst snd].
  - replace (Z.min e e') with e by lia. rewrite Z.sub_diag. simpl. lia.
  - replace (Z.min e e') with e by lia. rewrite Z.sub_diag. simpl. lia.
  - replace (Z.min e e') with e' by lia. split; [reflexivity|].
    rewrite iter_xO. f_equal. f_equal. lia.
Qed.

Lemma shl_align_magnitude (m : positive) (e e' : Z) :
  - scaleExp <= Z.min e e' ->
  Zpos (fst (shl_align m e e')) * 2 ^ (snd (shl_align m e e') + scaleExp)
  = Zpos m * 2 ^ (e + scaleExp).
Proof.
  intros H. destruct (shl_align_spec m e e') as [-> ->].
  rewrite <- Z.mul_assoc. f_equal.
  rewrite <- Z.pow_add_r by lia. f_equal. lia.
Qed.

(** The same bound for [binary_round], which first aligns the mantissa. *)
Lemma round_bound (sx : bool) (m : positive) (e k : Z) :
  -1200 <= e -> -1021 <= k <= 971 ->
  Zpos m * 2 ^ (e + scaleExp) < 2 ^ (k + scaleExp) ->
  exists r v,
    binary_round 53 1024 sx m e = r
    /\ magnitude r = Some v /\ signBit r = Some sx
    /\ expAtLeast (Z.min e (-1074)) r
    /\ Zpos m * 2 ^ (e + scaleExp) - 2 ^ (k - 51 + scaleExp) < v
       < Zpos m * 2 ^ (e + scaleExp) + 2 ^ (k - 51 + scaleExp).
Proof.
  intros He Hk Hv. unfold binary_round.
  set (e' := fexp 53 1024 (Zpos (digits2_pos m) + e)).
  assert (He' : -1074 <= e') by (unfold e'; rewrite fexp64; lia).
  pose proof (shl_align_magnitude m e e' ltac:(unfold scaleExp; lia)) as Hmag.
  destruct (shl_align_spec m e e') as [Hs _].
  destruct (shl_align m e e') as [mz ez]. cbn [fst snd] in *.
  destruct (round_aux_bound sx mz ez k ltac:(unfold scaleExp; lia) Hk
              ltac:(rewrite Hmag; exact Hv))
    as (r & v & Hr & Hm & Hsg & Hex & Hb).
  exists r, v. rewrite Hmag in Hb. repeat split; try assumption; try lia.
  destruct r; cbn [expAtLeast] in *; lia.
Qed.

(** ** The operations of [interpolateColor], with their error *)

Lemma one_is : F64.one = S754_finite false 4503599627370496 (-52).
Proof. reflexivity. Qed.

Lemma pow2_pos (k : Z) : 0 <= k -> 0 < 2 ^ k.
Proof. intros. apply Z.pow_pos_nonneg; lia. Qed.

(** The product of a small integer, held exactly, and a non-negative
    float. *)
Lemma mul_bound (mx : positive) (ex x : Z) (u : float64) (Uv k : Z) :
  -60 <= ex <= 0 -> Zpos mx = x * 2 ^ (- ex) ->
  magnitude u = Some Uv -> signBit u = Some false -> expAtLeast (-1100) u ->
  -1021 <= k <= 971 -> x * Uv < 2 ^ (k + scaleExp) ->
  exists Pv,
    magnitude (F64.mul (S754_finite false mx ex) u) = Some Pv
    /\ signBit (F64.mul (S754_finite false mx ex) u) = Some false
    /\ expAtLeast (-1200) (F64.mul (S754_finite false mx ex) u)
    /\ x * Uv - 2 ^ (k - 51 + scaleExp) < Pv
       < x * Uv + 2 ^ (k - 51 + scaleExp).
Proof.
  intros Hex Hmx Hmag Hsg Hexp Hk Hlt.
  pose proof (pow2_pos (k - 51 + scaleExp) ltac:(unfold scaleExp; lia)) as Hp.
  destruct u as [su | su | | su mu eu]; unfold magnitude, signBit in *;
    try discriminate.
  - inversion Hsg; subst su. inversion Hmag; subst Uv.
    exists 0. cbn. repeat split; lia.
  - inversion Hsg; subst su. cbn [expAtLeast] in Hexp.
    destruct (Z.leb_spec (- scaleExp) eu) as [Hge|]; [|discriminate].
    assert (HU : Uv = Zpos mu * 2 ^ (eu + scaleExp)) by congruence.
    clear Hmag. subst Uv.
    assert (Hexact : Zpos (mx * mu) * 2 ^ (ex + eu + scaleExp)
                     = x * (Zpos mu * 2 ^ (eu + scaleExp))).
    { rewrite Pos2Z.inj_mul, Hmx.
      replace (eu + scaleExp) with (- ex + (ex + eu + scaleExp)) by lia.
      rewrite (Z.pow_add_r 2 (- ex) (ex + eu + scaleExp))
        by (unfold scaleExp; lia).
      ring. }
    unfold F64.mul, SFmul. cbn [xorb].
    destruct (round_aux_bound false (mx * mu) (ex + eu) k
                ltac:(unfold scaleExp; lia) Hk
                ltac:(rewrite Hexact; exact Hlt))
      as (r & v & Hr & Hm & Hs & He & Hb).
    change F64.prec with 53. change F64.emax with 1024.
    rewrite Hr. exists v. rewrite Hexact in Hb.
    repeat split; try assumption; try lia.
    destruct r; cbn [expAtLeast] in *; lia.
Qed.

(** The sum of two non-negative floats. *)
Lemma add_bound (p q : float64) (Pv Qv k : Z) :
  magnitude p = Some Pv -> signBit p = Some false -> expAtLeast (-1200) p ->
  magnitude q = Some Qv -> signBit q = Some false -> expAtLeast (-1200) q ->
  -1021 <= k <= 971 -> Pv + Qv < 2 ^ (k + scaleExp) ->
  exists Sv,
    magnitude (F64.add p q) = Some Sv
    /\ signBit (F64.add p q) = Some false
    /\ Pv + Qv - 2 ^ (k - 51 + scaleExp) < Sv
       < Pv + Qv + 2 ^ (k - 51 + scaleExp).
Proof.
  intros Hmp Hsp Hep Hmq Hsq Heq Hk Hlt.
  pose proof (pow2_pos (k - 51 + scaleExp) ltac:(unfold scaleExp; lia)) as Hp.
  destruct p as [sp | sp | | sp mp ep]; unfold magnitude, signBit in Hmp, Hsp;
    try discriminate;
    destruct q as [sq | sq | | sq mq eq]; unfold magnitude, signBit in Hmq, Hsq;
    try discriminate;
    inversion Hsp; subst sp; inversion Hsq; subst sq.
  - inversion Hmp; inversion Hmq; subst. exists 0. cbn. repeat split; lia.
  - assert (Pv = 0) by congruence. subst Pv. exists Qv.
    unfold F64.add; cbn [SFadd magnitude signBit].
    repeat split; try assumption; lia.
  - assert (Qv = 0) by congruence. subst Qv. exists Pv.
    unfold F64.add; cbn [SFadd magnitude signBit].
    repeat split; try assumption; lia.
  - cbn [expAtLeast] in Hep, Heq.
    destruct (Z.leb_spec (- scaleExp) ep) as [Hgp|]; [|discriminate].
    destruct (Z.leb_spec (- scaleExp) eq) as [Hgq|]; [|discriminate].
    assert (HP : Pv = Zpos mp * 2 ^ (ep + scaleExp)) by congruence.
    assert (HQ : Qv = Zpos mq * 2 ^ (eq + scaleExp)) by congruence.
    clear Hmp Hmq. subst Pv Qv.
    unfold F64.add, SFadd. cbn [cond_Zopp].
    set (ez := Z.min ep eq).
    pose proof (shl_align_magnitude mp ep ez ltac:(unfold scaleExp, ez; lia))
      as H1.
    pose proof (shl_align_magnitude mq eq ez ltac:(unfold scaleExp, ez; lia))
      as H2.
    destruct (shl_align_spec mp ep ez) as [S1 _].
    destruct (shl_align_spec mq eq ez) as [S2 _].
    replace (Z.min ep ez) with ez in S1 by (unfold ez; lia).
    replace (Z.min eq ez) with ez in S2 by (unfold ez; lia).
    rewrite S1 in H1. rewrite S2 in H2.
    set (a := fst (shl_align mp ep ez)) in *.
    set (b := fst (shl_align mq eq ez)) in *.
    change (Zpos a + Zpos b) with (Zpos (a + b)).
    cbn [binary_normalize].
    assert (Hexact : Zpos (a + b) * 2 ^ (ez + scaleExp)
                     = Zpos mp * 2 ^ (ep + scaleExp)
                       + Zpos mq * 2 ^ (eq + scaleExp)).
    { rewrite Pos2Z.inj_add, Z.mul_add_distr_r, H1, H2. reflexivity. }
    destruct (round_bound false (a + b) ez k ltac:(unfold ez; lia) Hk
                ltac:(rewrite Hexact; exact Hlt))
      as (r & v & Hr & Hm & Hs & He & Hb).
    change F64.prec with 53. change F64.emax with 1024.
    rewrite Hr. exists v. rewrite Hexact in Hb.
    repeat split; try assumption; lia.
Qed.

(** [1 - t] for a float [t] strictly between 0 and 1. *)
Lemma sub_one_bound (mt : positive) (et : Z) :
  -1074 <= et <= -53 -> Zpos mt < 2 ^ 53 ->
  let t := S754_finite false mt et in
  exists Uv,
    magnitude (F64.sub F64.one t) = Some Uv
    /\ signBit (F64.sub F64.one t) = Some false
    /\ expAtLeast (-1100) (F64.sub F64.one t)
    /\ 2 ^ scaleExp - Zpos mt * 2 ^ (et + scaleExp) - 2 ^ (scaleExp - 51) < Uv
       < 2 ^ scaleExp - Zpos mt * 2 ^ (et + scaleExp) + 2 ^ (scaleExp - 51).
Proof.
  intros Het Hmt t. subst t. rewrite one_is.
  unfold F64.sub, SFsub. cbn [cond_Zopp].
  replace (Z.min (-52) et) with et by lia.
  destruct (shl_align_spec 4503599627370496 (-52) et) as [S1 V1].
  destruct (shl_align_spec mt et et) as [S2 V2].
  replace (Z.min (-52) et) with et in * by lia.
  rewrite Z.min_id in *.
  set (a := fst (shl_align 4503599627370496 (-52) et)) in *.
  set (b := fst (shl_align mt et et)) in *.
  rewrite Z.sub_diag, Z.pow_0_r, Z.mul_1_r in V2.
  assert (Ha : Zpos a = 2 ^ (- et)).
  { rewrite V1. change 4503599627370496 with (2 ^ 52).
    rewrite <- Z.pow_add_r by lia. f_equal. lia. }
  assert (Hlt : Zpos b < Zpos a).
  { rewrite V2, Ha.
    assert (2 ^ 53 <= 2 ^ (- et)) by (apply Z.pow_le_mono_r; lia). lia. }
  assert (Hd : Zpos a - Zpos b = Zpos (a - b)) by (rewrite Pos2Z.inj_sub; lia).
  rewrite Hd. cbn [binary_normalize].
  assert (Hexact : Zpos (a - b) * 2 ^ (et + scaleExp)
                   = 2 ^ scaleExp - Zpos mt * 2 ^ (et + scaleExp)).
  { rewrite <- Hd, Z.mul_sub_distr_r, Ha, V2.
    rewrite <- Z.pow_add_r by (unfold scaleExp; lia).
    f_equal. f_equal. lia. }
  pose proof (pow2_pos (et + scaleExp) ltac:(unfold scaleExp; lia)) as Hpp.
  destruct (round_bound false (a - b) et 0 ltac:(lia) ltac:(lia)
              ltac:(rewrite Hexact; simpl Z.add; nia))
    as (r & v & Hr & Hm & Hs & He & Hb).
  change F64.prec with 53. change F64.emax with 1024.
  rewrite Hr. exists v. rewrite Hexact in Hb.
  replace (0 - 51 + scaleExp) with (scaleExp - 51) in Hb by lia.
  repeat split; try assumption; try lia.
  destruct r; cbn [expAtLeast] in *; lia.
Qed.

(** Truncation reads the integer part off the magnitude. *)
Lemma trunc_magnitude (f : float64) (v : Z) :
  magnitude f = Some v -> signBit f = Some false ->
  F64.trunc f = Some (v / 2 ^ scaleExp).
Proof.
  intros Hm Hs.
  destruct f as [s | s | | s m e]; unfold magnitude, signBit in *;
    try discriminate.
  - inversion Hm; subst. reflexivity.
  - inversion Hs; subst s.
    destruct (Z.leb_spec (- scaleExp) e) as [Hge|]; [|discriminate].
    assert (Hv : v = Zpos m * 2 ^ (e + scaleExp)) by congruence.
    clear Hm. subst v. cbn [F64.trunc cond_Zopp]. f_equal.
    unfold scaleExp in *.
    destruct (Z.le_gt_cases 0 e) as [Hpos | Hneg].
    + rewrite Z.shiftl_mul_pow2 by lia.
      rewrite Z.pow_add_r by (unfold scaleExp; lia).
      rewrite Z.mul_assoc, Z.div_mul; [reflexivity|].
      apply Z.pow_nonzero; unfold scaleExp; lia.
    + rewrite Z.shiftl_div_pow2 by lia.
      replace 2200 with (- e + (e + 2200)) at 2 by lia.
      rewrite (Z.pow_add_r 2 (- e)) by (unfold scaleExp; lia).
      rewrite Z.div_mul_cancel_r; [reflexivity| |];
        apply Z.pow_nonzero; unfold scaleExp; lia.
Qed.

(** ** Interpolation *)

Lemma in_channels (x : Z) : is_uint8 x -> In x channels.
Proof.
  unfold is_uint8, channels. intros Hx.
  rewrite <- (Z2Nat.id x) by lia. apply in_map, in_seq. lia.
Qed.

Lemma exactByte_all (x : Z) : is_uint8 x -> exactByte x = true.
Proof.
  intros Hx. apply in_channels in Hx. revert x Hx. apply forallb_forall.
  vm_compute. reflexivity.
Qed.

Lemma endpointsExact_all (x : Z) : is_uint8 x -> endpointsExact x = true.
Proof.
  intros Hx. apply in_channels in Hx. revert x Hx. apply forallb_forall.
  vm_compute. reflexivity.
Qed.

Lemma isZero_eq (s : bool) (f : float64) : isZero s f = true -> f = S754_zero s.
Proof.
  destruct f as [s' | | |]; try discriminate. simpl. intros H.
  apply Bool.eqb_prop in H. now subst.
Qed.

(** The two ends of an interpolation, channel by channel. *)
Lemma interpolateChannel_ends (x y : Z) :
  is_uint8 x -> is_uint8 y ->
  (forall s, interpolateChannel x y (S754_zero s) = x)
  /\ interpolateChannel x y F64.one = y.
Proof.
  intros Hx Hy.
  pose proof (endpointsExact_all x Hx) as Ex.
  pose proof (endpointsExact_all y Hy) as Ey.
  unfold endpointsExact in Ex, Ey. cbv zeta in Ex, Ey.
  repeat (apply andb_true_iff in Ex; destruct Ex as [Ex ?]).
  repeat (apply andb_true_iff in Ey; destruct Ey as [Ey ?]).
  repeat match goal with
         | H : isZero _ _ = true |- _ => apply isZero_eq in H
         | H : (_ =? _) = true |- _ => apply Z.eqb_eq in H
         end.
  unfold interpolateChannel, lerp. split.
  - intros [|].
    + change (F64.sub F64.one (S754_zero true)) with F64.one.
      congruence.
    + change (F64.sub F64.one (S754_zero false)) with F64.one.
      congruence.
  - change (F64.sub F64.one F64.one) with (S754_zero false). congruence.
Qed.

(** A valid float that is at least 0 and at most 1 is a zero, the number
    one, or a positive number with an exponent below -52. *)
Lemma unit_interval_cases (t : float64) :
  F64.valid t = true -> SFleb F64.zero t = true -> SFleb t F64.one = true ->
  (exists s, t = S754_zero s) \/ t = F64.one
  \/ exists mt et,
       t = S754_finite false mt et /\ -1074 <= et <= -53 /\ Zpos mt < 2 ^ 53.
Proof.
  intros Hv H0 H1.
  destruct t as [s | s | | s mt et].
  - left. now exists s.
  - destruct s; discriminate.
  - discriminate.
  - right. destruct s; [discriminate|].
    unfold F64.valid, valid_binary, bounded, canonical_mantissa in Hv.
    apply andb_true_iff in Hv. destruct Hv as [Hc _].
    apply Z.eqb_eq in Hc. rewrite fexp64 in Hc.
    pose proof (digits2_bounds mt) as [Hlo Hhi].
    rewrite one_is in H1 |- *. unfold SFleb, SFcompare in H1.
    destruct (Z.compare_spec et (-52)) as [He | He | He]; try discriminate.
    + (* the exponent of one: the mantissa is that of one *)
      left. subst et.
      assert (Hd : Zpos (digits2_pos mt) = 53) by lia.
      rewrite Hd in Hlo. change (2 ^ (53 - 1)) with 4503599627370496 in Hlo.
      assert (Hle : (mt <= 4503599627370496)%positive).
      { unfold Pos.le. rewrite Pos.compare_cont_spec in H1.
        destruct (mt ?= 4503599627370496)%positive; simpl in H1;
          congruence. }
      assert (HleZ : Zpos mt <= 4503599627370496) by exact Hle.
      assert (mt = 4503599627370496%positive)
        by (apply Pos2Z.inj; clear - Hlo HleZ; lia).
      now subst mt.
    + right. exists mt, et. split; [reflexivity|].
      assert (Hd : Zpos (digits2_pos mt) <= 53) by lia.
      split; [lia|].
      assert (2 ^ Zpos (digits2_pos mt) <= 2 ^ 53)
        by (apply Z.pow_le_mono_r; lia).
      lia.
Qed.

(** Interpolating a channel value with itself, strictly inside the
    interval: the result is the value or one less. *)
Lemma interpolateChannel_self_inside (x : Z) (mt : positive) (et : Z) :
  is_uint8 x -> -1074 <= et <= -53 -> Zpos mt < 2 ^ 53 ->
  interpolateChannel x x (S754_finite false mt et) = x
  \/ interpolateChannel x x (S754_finite false mt et) = x - 1.
Proof.
  intros Hx Het Hmt. set (t := S754_finite false mt et).
  destruct (sub_one_bound mt et Het Hmt) as (Uv & HU & HUs & HUe & HUb).
  fold t in HU, HUs, HUe.
  pose proof (exactByte_all x Hx) as HX. unfold exactByte in HX.
  unfold interpolateChannel, lerp. unfold is_uint8 in Hx.
  set (D := 2 ^ scaleExp) in *.
  set (E := 2 ^ (scaleExp - 51)) in *.
  assert (HE : 0 < E) by (apply pow2_pos; unfold scaleExp; lia).
  assert (HD : D = 2251799813685248 * E).
  { unfold D, E. replace scaleExp with (51 + (scaleExp - 51)) at 1 by lia.
    rewrite Z.pow_add_r by (unfold scaleExp; lia). reflexivity. }
  set (Tv := Zpos mt * 2 ^ (et + scaleExp)) in *.
  assert (HT : 0 < Tv < D).
  { unfold Tv, D. split.
    - apply Z.mul_pos_pos; [lia|]. apply pow2_pos. unfold scaleExp; lia.
    - replace scaleExp with (- et + (et + scaleExp)) at 2 by lia.
      rewrite (Z.pow_add_r 2 (- et)) by (unfold scaleExp; lia).
      apply Z.mul_lt_mono_pos_r; [apply pow2_pos; unfold scaleExp; lia|].
      assert (2 ^ 53 <= 2 ^ (- et)) by (apply Z.pow_le_mono_r; lia). lia. }
  assert (Htm : magnitude t = Some Tv).
  { unfold t, magnitude.
    destruct (Z.leb_spec (- scaleExp) et); [reflexivity|].
    unfold scaleExp in *. lia. }
  assert (P9 : 2 ^ (9 - 51 + scaleExp) = 512 * E /\ 2 ^ (9 + scaleExp) = 512 * D
               /\ 2 ^ (10 - 51 + scaleExp) = 1024 * E
               /\ 2 ^ (10 + scaleExp) = 1024 * D).
  { unfold D, E. split; [|split; [|split]].
    - replace (9 - 51 + scaleExp) with (9 + (scaleExp - 51)) by lia.
      rewrite Z.pow_add_r by (unfold scaleExp; lia). reflexivity.
    - rewrite Z.pow_add_r by (unfold scaleExp; lia). reflexivity.
    - replace (10 - 51 + scaleExp) with (10 + (scaleExp - 51)) by lia.
      rewrite Z.pow_add_r by (unfold scaleExp; lia). reflexivity.
    - rewrite Z.pow_add_r by (unfold scaleExp; lia). reflexivity. }
  destruct P9 as (P9e & P9d & P10e & P10d).
  destruct (F64.of_Z x) as [[|] | | | [|] mx ex] eqn:EX; try discriminate HX.
  - (* x = 0 *)
    apply Z.eqb_eq in HX. subst x. left.
    destruct (F64.sub F64.one t) as [su | | | su mu eu];
      unfold magnitude, signBit in HU, HUs; try discriminate HU;
      injection HUs as ->; reflexivity.
  - apply andb_true_iff in HX. destruct HX as [HX HXm].
    apply andb_true_iff in HX. destruct HX as [HXl HXh].
    apply Z.leb_le in HXl, HXh. apply Z.eqb_eq in HXm.
    assert (Hx1 : 1 <= x).
    { destruct (Z.eq_dec x 0) as [-> |]; [|lia].
      rewrite Z.mul_0_l in HXm. lia. }
    (* the products by x, as linear facts *)
    assert (HDpos : 0 < D) by (clear - HD HE; lia).
    assert (HxE : E <= x * E <= 255 * E)
      by (split; [rewrite <- (Z.mul_1_l E) at 1|];
          apply Z.mul_le_mono_nonneg_r; clear - HE Hx Hx1; lia).
    assert (HxD : x * D <= 255 * D)
      by (apply Z.mul_le_mono_nonneg_r; clear - HDpos Hx; lia).
    assert (HxT : 0 < x * Tv < x * D)
      by (split; [apply Z.mul_pos_pos | apply Z.mul_lt_mono_pos_l];
          clear - HT Hx1; lia).
    assert (HxU : x * D - x * Tv - x * E < x * Uv < x * D - x * Tv + x * E).
    { split.
      - replace (x * D - x * Tv - x * E) with (x * (D - Tv - E)) by ring.
        apply Z.mul_lt_mono_pos_l; clear - HUb Hx1; lia.
      - replace (x * D - x * Tv + x * E) with (x * (D - Tv + E)) by ring.
        apply Z.mul_lt_mono_pos_l; clear - HUb Hx1; lia. }
    (* x * (1 - t) *)
    destruct (mul_bound mx ex x (F64.sub F64.one t) Uv 9
                ltac:(clear - HXl HXh; lia) HXm HU HUs HUe ltac:(clear; lia)
                ltac:(rewrite P9d; clear - HxU HxT HxE HxD HD HE; lia))
      as (P1 & HP1 & HP1s & HP1e & HP1b).
    (* x * t *)
    destruct (mul_bound mx ex x t Tv 9
                ltac:(clear - HXl HXh; lia) HXm Htm eq_refl
                ltac:(unfold t; cbn [expAtLeast]; clear - Het; lia)
                ltac:(clear; lia)
                ltac:(rewrite P9d; clear - HxT HxD HDpos; lia))
      as (P2 & HP2 & HP2s & HP2e & HP2b).
    rewrite P9e in HP1b, HP2b.
    (* their sum *)
    destruct (add_bound _ _ P1 P2 10 HP1 HP1s HP1e HP2 HP2s HP2e
                ltac:(clear; lia)
                ltac:(rewrite P10d;
                      clear - HP1b HP2b HxU HxT HxE HxD HD HE; lia))
      as (Sv & HS & HSs & HSb).
    rewrite P10e in HSb.
    unfold F64.to_uint8. rewrite (trunc_magnitude _ Sv HS HSs). fold D.
    assert (Hq : Sv / D = x \/ Sv / D = x - 1).
    { assert (Hlo : x - 1 <= Sv / D)
        by (apply Z.div_le_lower_bound; [exact HDpos|];
            replace (D * (x - 1)) with (x * D - D) by ring;
            clear - HSb HP1b HP2b HxU HxE HD HE; lia).
      assert (Hhi : Sv / D < x + 1)
        by (apply Z.div_lt_upper_bound; [exact HDpos|];
            replace (D * (x + 1)) with (x * D + D) by ring;
            clear - HSb HP1b HP2b HxU HxE HD HE; lia).
      clear - Hlo Hhi. lia. }
    assert (Hr : 0 <= Sv / D < 256) by (clear - Hq Hx Hx1; lia).
    replace ((- 2 ^ 31 <=? Sv / D) && (Sv / D <? 2 ^ 31)) with true
      by (symmetry; apply andb_true_iff; split;
          [apply Z.leb_le | apply Z.ltb_lt]; clear - Hr; lia).
    rewrite Z.mod_small by exact Hr. exact Hq.
Qed.

Lemma interpolateChannel_self (x : Z) (t : float64) :
  is_uint8 x -> inUnitInterval t ->
  sameOrOneLess x (interpolateChannel x x t).
Proof.
  intros Hx (Hv & H0 & H1).
  destruct (unit_interval_cases t Hv H0 H1)
    as [[s ->] | [-> | (mt & et & -> & Het & Hmt)]].
  - left. now apply interpolateChannel_ends.
  - left. now apply interpolateChannel_ends.
  - now apply interpolateChannel_self_inside.
Qed.

(** C2, as it holds: interpolating a colour with itself at a [t] between
    0 and 1 gives, on each channel, the channel's value or one less. *)
Theorem C2_self_interpolation_is_within_one (c : RGBA) (t : float64) :
  wf_color c -> inUnitInterval t ->
  sameOrOneLess (R c) (R (interpolateColor c c t))
  /\ sameOrOneLess (G c) (G (interpolateColor c c t))
  /\ sameOrOneLess (B c) (B (interpolateColor c c t))
  /\ sameOrOneLess (A c) (A (interpolateColor c c t)).
Proof.
  intros (Hr & Hg & Hb & Ha) Ht. cbn [interpolateColor R G B A].
  repeat split; apply interpolateChannel_self; assumption.
Qed.

Lemma C2_self_interpolation_is_within_one_witness :
  let c := mkRGBA 255 128 0 75 in
  let t := F64.div (F64.of_Z 1) (F64.of_Z 9) in
  sameOrOneLess (R c) (R (interpolateColor c c t))
  /\ sameOrOneLess (G c) (G (interpolateColor c c t))
  /\ sameOrOneLess (B c) (B (interpolateColor c c t))
  /\ sameOrOneLess (A c) (A (interpolateColor c c t)).
Proof.
  apply C2_self_interpolation_is_within_one.
  - unfold wf_color, is_uint8. simpl. lia.
  - unfold inUnitInterval. repeat split; reflexivity.
Defined.

(** C2 as the specification states it fails: at [t = 1/9], the second
    frame of every transition of the default configuration, the colour
    (121, 125, 233, 241) comes out one less on every channel. *)
Lemma C2_self_interpolation_counterexample :
  let c := mkRGBA 121 125 233 241 in
  let t := F64.div (F64.of_Z 1) (F64.of_Z 9) in
  wf_color c /\ inUnitInterval t
  /\ interpolateColor c c t = mkRGBA 120 124 232 240
  /\ ~ (forall (c : RGBA) (t : float64),
          wf_color c -> inUnitInterval t -> interpolateColor c c t = c).
Proof.
  intros c t.
  assert (Hc : wf_color c) by (unfold wf_color, is_uint8; simpl; lia).
  assert (Ht : inUnitInterval t) by (repeat split; reflexivity).
  assert (He : interpolateColor c c t = mkRGBA 120 124 232 240)
    by (vm_compute; reflexivity).
  split; [exact Hc|]. split; [exact Ht|]. split; [exact He|].
  intros H. specialize (H c t Hc Ht). rewrite He in H. discriminate H.
Qed.

(** [uint8(f)] is the truncation when the truncation is a [uint8]. *)
Lemma to_uint8_trunc (f : float64) (z : Z) :
  F64.trunc f = Some z -> is_uint8 z -> F64.to_uint8 f = z.
Proof.
  intros Ht Hz. unfold F64.to_uint8, is_uint8 in *. rewrite Ht.
  replace ((- 2 ^ 31 <=? z) && (z <? 2 ^ 31)) with true
    by (symmetry; apply andb_true_iff; split;
        [apply Z.leb_le | apply Z.ltb_lt]; lia).
  apply Z.mod_small. lia.
Qed.

Lemma trunc_truncationOf (f : float64) (z : Z) :
  F64.trunc f = Some z -> truncationOf f z.
Proof.
  destruct f as [s | s | | s m e]; cbn [F64.trunc truncationOf];
    try discriminate.
  - intros H. injection H as <-. reflexivity.
  - intros H. assert (Hz : z = cond_Zopp s (Z.shiftl (Zpos m) e)) by congruence.
    clear H. exists (Z.shiftl (Zpos m) e). split; [exact Hz|].
    split; [apply Z.shiftl_nonneg; lia|].
    destruct (Z.leb_spec 0 e) as [Hpos | Hneg].
    + apply Z.shiftl_mul_pow2. lia.
    + rewrite Z.shiftl_div_pow2 by lia.
      assert (Hp : 0 < 2 ^ (- e)) by (apply Z.pow_pos_nonneg; lia).
      split.
      * rewrite Z.mul_comm. apply Z.mul_div_le. lia.
      * pose proof (Z.mul_succ_div_gt (Zpos m) (2 ^ (- e)) Hp). lia.
Qed.

(** C5: at [t = 0] the interpolated colour is the first colour and at
    [t = 1] it is the second, exactly, on all four channels; and for every
    [t] each channel is the conversion to [uint8] of
    [c1.channel * (1 - t) + c2.channel * t], a conversion that drops the
    fractional part. *)
Theorem C5_interpolation_ends_are_exact (c1 c2 : RGBA) :
  wf_color c1 -> wf_color c2 ->
  interpolateColor c1 c2 F64.zero = c1
  /\ interpolateColor c1 c2 (S754_zero true) = c1
  /\ interpolateColor c1 c2 F64.one = c2
  /\ (forall t,
        interpolateColor c1 c2 t
        = mkRGBA
            (F64.to_uint8
               (F64.add (F64.mul (F64.of_Z (R c1)) (F64.sub F64.one t))
                        (F64.mul (F64.of_Z (R c2)) t)))
            (F64.to_uint8
               (F64.add (F64.mul (F64.of_Z (G c1)) (F64.sub F64.one t))
                        (F64.mul (F64.of_Z (G c2)) t)))
            (F64.to_uint8
               (F64.add (F64.mul (F64.of_Z (B c1)) (F64.sub F64.one t))
                        (F64.mul (F64.of_Z (B c2)) t)))
            (F64.to_uint8
               (F64.add (F64.mul (F64.of_Z (A c1)) (F64.sub F64.one t))
                        (F64.mul (F64.of_Z (A c2)) t))))
  /\ (forall f z,
        F64.trunc f = Some z -> is_uint8 z ->
        F64.to_uint8 f = z /\ truncationOf f z).
Proof.
  intros (Hr1 & Hg1 & Hb1 & Ha1) (Hr2 & Hg2 & Hb2 & Ha2).
  destruct (interpolateChannel_ends (R c1) (R c2) Hr1 Hr2) as [Zr Or].
  destruct (interpolateChannel_ends (G c1) (G c2) Hg1 Hg2) as [Zg Og].
  destruct (interpolateChannel_ends (B c1) (B c2) Hb1 Hb2) as [Zb Ob].
  destruct (interpolateChannel_ends (A c1) (A c2) Ha1 Ha2) as [Za Oa].
  unfold interpolateColor. cbv zeta. unfold F64.zero.
  rewrite !Zr, !Zg, !Zb, !Za, Or, Og, Ob, Oa.
  destruct c1 as [r1 g1 b1 a1], c2 as [r2 g2 b2 a2]. cbn [R G B A].
  repeat split.
  - now apply to_uint8_trunc.
  - now apply trunc_truncationOf.
Qed.

Lemma C5_interpolation_ends_are_exact_witness :
  interpolateColor (mkRGBA 255 0 0 255) (mkRGBA 0 0 255 255) F64.zero
  = mkRGBA 255 0 0 255
  /\ interpolateColor (mkRGBA 255 0 0 255) (mkRGBA 0 0 255 255) F64.one
     = mkRGBA 0 0 255 255.
Proof.
  assert (H1 : wf_color (mkRGBA 255 0 0 255))
    by (unfold wf_color, is_uint8; simpl; lia).
  assert (H2 : wf_color (mkRGBA 0 0 255 255))
    by (unfold wf_color, is_uint8; simpl; lia).
  destruct (C5_interpolation_ends_are_exact _ _ H1 H2) as (E0 & _ & E1 & _).
  split; [exact E0 | exact E1].
Defined.

(** ** The derived timing *)

Lemma shr_record_of_loc_m (m : Z) (l : location) :
  shr_m (shr_record_of_loc m l) = m.
Proof. destruct l as [|[]]; reflexivity. Qed.

(** Rounding keeps the sign: a non-negative mantissa never rounds to a
    NaN. *)
Lemma round_aux_sign (sx : bool) (m e : Z) (l : location) :
  0 <= m -> signBit (binary_round_aux 53 1024 sx m e l) = Some sx.
Proof.
  intros Hm. unfold binary_round_aux, shr_fexp.
  pose proof (shr_spec (shr_record_of_loc m l) e
                (fexp 53 1024 (Zdigits2 m + e) - e)
                ltac:(rewrite shr_record_of_loc_m; exact Hm)) as S1.
  cbv zeta in S1. rewrite shr_record_of_loc_m in S1.
  destruct (shr (shr_record_of_loc m l) e _) as [mrs1 e1].
  cbn [fst snd] in S1. destruct S1 as [Hm1 _].
  assert (H1 : 0 <= shr_m mrs1).
  { rewrite Hm1. apply Z.div_pos; [lia|]. apply Z.pow_pos_nonneg; lia. }
  set (mr := round_nearest_even (shr_m mrs1) (loc_of_shr_record mrs1)).
  assert (Hr : 0 <= mr)
    by (pose proof (round_nearest_even_range (shr_m mrs1)
                      (loc_of_shr_record mrs1)); unfold mr; lia).
  pose proof (shr_spec (shr_record_of_loc mr loc_Exact) e1
                (fexp 53 1024 (Zdigits2 mr + e1) - e1)
                ltac:(cbn; exact Hr)) as S2.
  cbv zeta in S2. cbn [shr_record_of_loc shr_m] in S2.
  cbn [shr_record_of_loc].
  destruct (shr (Build_shr_record mr false false) e1 _) as [mrs2 e2].
  cbn [fst snd] in S2. destruct S2 as [Hm2 _].
  assert (H2 : 0 <= shr_m mrs2).
  { rewrite Hm2. apply Z.div_pos; [lia|]. apply Z.pow_pos_nonneg; lia. }
  destruct (shr_m mrs2) as [|p|p]; try lia; try reflexivity.
  destruct (e2 <=? 1024 - 53); reflexivity.
Qed.

(** A product of two floats with a cleared sign bit, when it has an
    integer part, has a non-negative one. *)
Lemma mul_trunc_nonneg (a b : float64) (z : Z) :
  signBit a = Some false -> signBit b = Some false ->
  F64.trunc (F64.mul a b) = Some z -> 0 <= z.
Proof.
  intros Ha Hb Hz.
  assert (Hs : signBit (F64.mul a b) = Some false \/ F64.mul a b = S754_nan).
  { destruct a as [sa | sa | | sa ma ea], b as [sb | sb | | sb mb eb];
      cbn [signBit] in Ha, Hb; try discriminate;
      injection Ha as ->; injection Hb as ->;
      try (left; reflexivity); try (right; reflexivity).
    left. unfold F64.mul, SFmul. cbn [xorb].
    apply round_aux_sign. lia. }
  destruct Hs as [Hs | Hs]; [|rewrite Hs in Hz; discriminate Hz].
  destruct (F64.mul a b) as [s | s | | s m e]; cbn [F64.trunc signBit] in *;
    try discriminate.
  - injection Hz as <-. lia.
  - injection Hs as ->. cbn [cond_Zopp] in Hz. injection Hz as <-.
    apply Z.shiftl_nonneg. lia.
Qed.

Lemma gt0_sign (x : float64) : gt0 x = true -> signBit x = Some false.
Proof.
  destruct x as [s | [|] | | [|] m e]; try discriminate; reflexivity.
Qed.

Lemma div_one_sign (x : float64) :
  gt0 x = true -> signBit (F64.div F64.one x) = Some false.
Proof.
  destruct x as [s | [|] | | [|] m e]; try discriminate; intros _.
  - reflexivity.
  - rewrite one_is. unfold F64.div, SFdiv. cbn [xorb].
    change F64.prec with 53. change F64.emax with 1024.
    destruct (SFdiv_core_binary 53 1024 4503599627370496 (-52) (Zpos m) e)
      as [[q e'] l] eqn:Ed.
    apply round_aux_sign.
    unfold SFdiv_core_binary in Ed. cbv zeta in Ed.
    repeat match type of Ed with
           | context [Z.div_eucl ?a ?b] =>
             pose proof (Z_div_mod a b ltac:(lia)) as Hdm;
             destruct (Z.div_eucl a b) as [q0 r0]
           end.
    injection Ed as <- _ _.
    destruct Hdm as [Heq Hr].
    match type of Heq with
    | ?a = _ => assert (Ha : 0 <= a)
    end.
    { destruct (_ - _ - _); try lia. apply Z.shiftl_nonneg. lia. }
    nia.
Qed.

Lemma to_int64_trunc (f : float64) (z : Z) :
  F64.trunc f = Some z -> 0 <= z < 2 ^ 63 -> F64.to_int64 f = z.
Proof.
  intros Ht Hz. unfold F64.to_int64. rewrite Ht.
  replace ((- 2 ^ 63 <=? z) && (z <? 2 ^ 63)) with true; [reflexivity|].
  symmetry. apply andb_true_iff. split; [apply Z.leb_le | apply Z.ltb_lt]; lia.
Qed.

Lemma to_int64_beyond (f : float64) :
  (forall z, F64.trunc f = Some z -> 2 ^ 63 <= z) ->
  F64.to_int64 f = - 2 ^ 63.
Proof.
  intros H. unfold F64.to_int64.
  destruct (F64.trunc f) as [z|]; [|reflexivity].
  specialize (H z eq_refl).
  replace (z <? 2 ^ 63) with false by (symmetry; apply Z.ltb_ge; exact H).
  now rewrite andb_false_r.
Qed.

Lemma in_wholeRates (k : Z) : 1 <= k <= 1000 -> In k wholeRates.
Proof.
  intros Hk. unfold wholeRates.
  rewrite <- (Z2Nat.id k) by lia. apply in_map, in_seq. lia.
Qed.

Lemma delayIsFloor_all (k : Z) : 1 <= k <= 1000 -> delayIsFloor k = true.
Proof.
  intros Hk. apply in_wholeRates in Hk. revert k Hk. apply forallb_forall.
  vm_compute. reflexivity.
Qed.

(** C7, as it holds: for positive [secs] and [fps],
    [stepsPerTransition] is the binary64 product [secs * fps] with its
    fractional part dropped, a non-negative integer, when that product is
    finite and below 2^63, and [-2^63] otherwise; [frameDelay] is the
    binary64 value [(1 / fps) * 1e9] with its fractional part dropped, a
    non-negative number of nanoseconds, when that value is finite and below
    2^63, and [-2^63] otherwise; for a whole [fps] from 1 to 1000 the delay
    is [1 / fps] seconds rounded down to the nanosecond. *)
Theorem C7_steps_and_delay_are_truncations (cfg : Config) :
  gt0 (Secs (Active cfg)) = true -> gt0 (FPS (Active cfg)) = true ->
  let product := F64.mul (Secs (Active cfg)) (FPS (Active cfg)) in
  let period := F64.mul (F64.div F64.one (FPS (Active cfg))) second in
  (forall z, F64.trunc product = Some z -> z < 2 ^ 63 ->
     stepsOf cfg = z /\ 0 <= z /\ truncationOf product z)
  /\ ((forall z, F64.trunc product = Some z -> 2 ^ 63 <= z) ->
      stepsOf cfg = - 2 ^ 63)
  /\ (forall d, F64.trunc period = Some d -> d < 2 ^ 63 ->
        delayOf cfg = d /\ 0 <= d /\ truncationOf period d)
  /\ ((forall d, F64.trunc period = Some d -> 2 ^ 63 <= d) ->
      delayOf cfg = - 2 ^ 63)
  /\ (forall k, 1 <= k <= 1000 -> FPS (Active cfg) = F64.of_Z k ->
        delayOf cfg = 10 ^ 9 / k).
Proof.
  intros Hs Hf product period.
  split; [|split; [|split; [|split]]].
  - intros z Hz Hlt.
    assert (H0 : 0 <= z)
      by (apply (mul_trunc_nonneg _ _ z (gt0_sign _ Hs) (gt0_sign _ Hf) Hz)).
    split; [|split; [exact H0 | now apply trunc_truncationOf]].
    unfold stepsOf. apply to_int64_trunc; [exact Hz | lia].
  - intros H. unfold stepsOf. now apply to_int64_beyond.
  - intros d Hd Hlt.
    assert (H0 : 0 <= d)
      by (apply (mul_trunc_nonneg (F64.div F64.one (FPS (Active cfg))) second
                   d (div_one_sign _ Hf) eq_refl Hd)).
    split; [|split; [exact H0 | now apply trunc_truncationOf]].
    unfold delayOf. apply to_int64_trunc; [exact Hd | lia].
  - intros H. unfold delayOf. now apply to_int64_beyond.
  - intros k Hk Hfps. unfold delayOf. rewrite Hfps.
    pose proof (delayIsFloor_all k Hk) as H. unfold delayIsFloor in H.
    now apply Z.eqb_eq in H.
Qed.

Lemma C7_steps_and_delay_are_truncations_witness :
  stepsOf defaultConfig = 9 /\ delayOf defaultConfig = 333333333.
Proof.
  destruct (C7_steps_and_delay_are_truncations defaultConfig eq_refl eq_refl)
    as (Hsteps & _ & _ & _ & Hdelay).
  assert (T1 : F64.trunc (F64.mul (Secs (Active defaultConfig))
                             (FPS (Active defaultConfig))) = Some 9)
    by (vm_compute; reflexivity).
  destruct (Hsteps 9 T1 eq_refl) as [E1 _].
  split; [exact E1|].
  exact (Hdelay 3 ltac:(lia) eq_refl).
Defined.

Lemma not_truncationOf (s : bool) (m : positive) (e z z' : Z) :
  truncationOf (S754_finite s m e) z -> z' <> z ->
  ~ truncationOf (S754_finite s m e) z'.
Proof.
  cbn [truncationOf]. intros (q & Hz & Hq & Hb) Hne (q' & Hz' & Hq' & Hb').
  apply Hne. subst z z'. f_equal.
  destruct (0 <=? e).
  - congruence.
  - assert (Hp : 0 < 2 ^ (- e)).
    { destruct (Z.le_gt_cases 0 (- e)) as [H | H].
      - apply Z.pow_pos_nonneg; lia.
      - destruct Hb as [Hb1 Hb2]. rewrite (Z.pow_neg_r 2 (- e)) in Hb1, Hb2
          by lia. lia. }
    set (P := 2 ^ (- e)) in *.
    destruct (Z.lt_trichotomy q' q) as [H | [H | H]]; [|exact H|]; exfalso.
    + assert ((q' + 1) * P <= q * P)
        by (apply Z.mul_le_mono_nonneg_r; lia).
      lia.
    + assert ((q + 1) * P <= q' * P)
        by (apply Z.mul_le_mono_nonneg_r; lia).
      lia.
Qed.

(** C7 as the specification states it fails in both halves, for
    configurations with positive [secs] and [fps].  With [secs = 2^62] and
    [fps = 4] the product is 2^64 and [stepsPerTransition] is [-2^63]:
    negative, and not the integer part of the product, rounded or not.
    With [secs] the binary64 number nearest to 0.7 and [fps = 10] the
    product is below 7 and its integer part is 6, but the rounded product
    is 7 and so is [stepsPerTransition].  With [fps = 2^-1074], the
    smallest positive binary64 number, [1 / fps] is infinite and the delay
    is [-2^63] nanoseconds, which is not [1 / fps] seconds to the
    nanosecond. *)
Lemma C7_derived_values_counterexample :
  let overflow := timed (F64.of_Z (2 ^ 62)) (F64.of_Z 4) in
  let rounded := timed (F64.div (F64.of_Z 7) (F64.of_Z 10)) (F64.of_Z 10) in
  let slow := timed (F64.of_Z 3) (S754_finite false 1 (-1074)) in
  (gt0 (Secs (Active overflow)) = true /\ gt0 (FPS (Active overflow)) = true
   /\ truncationOf
        (exactProduct (Secs (Active overflow)) (FPS (Active overflow)))
        (2 ^ 64)
   /\ truncationOf
        (F64.mul (Secs (Active overflow)) (FPS (Active overflow))) (2 ^ 64)
   /\ stepsOf overflow = - 2 ^ 63)
  /\ (gt0 (Secs (Active rounded)) = true /\ gt0 (FPS (Active rounded)) = true
      /\ truncationOf
           (exactProduct (Secs (Active rounded)) (FPS (Active rounded))) 6
      /\ stepsOf rounded = 7)
  /\ (gt0 (Secs (Active slow)) = true /\ gt0 (FPS (Active slow)) = true
      /\ F64.valid (FPS (Active slow)) = true
      /\ delayOf slow = - 2 ^ 63
      /\ ~ withinOneNanosecond (delayOf slow) (FPS (Active slow)))
  /\ ~ (forall cfg : Config,
          gt0 (Secs (Active cfg)) = true -> gt0 (FPS (Active cfg)) = true ->
          0 <= stepsOf cfg)
  /\ ~ (forall cfg : Config,
          gt0 (Secs (Active cfg)) = true -> gt0 (FPS (Active cfg)) = true ->
          truncationOf (F64.mul (Secs (Active cfg)) (FPS (Active cfg)))
            (stepsOf cfg))
  /\ ~ (forall cfg : Config,
          gt0 (Secs (Active cfg)) = true -> gt0 (FPS (Active cfg)) = true ->
          0 <= stepsOf cfg ->
          truncationOf
            (exactProduct (Secs (Active cfg)) (FPS (Active cfg)))
            (stepsOf cfg))
  /\ ~ (forall cfg : Config,
          gt0 (Secs (Active cfg)) = true -> gt0 (FPS (Active cfg)) = true ->
          withinOneNanosecond (delayOf cfg) (FPS (Active cfg))).
Proof.
  intros overflow rounded slow.
  assert (O1 : stepsOf overflow = - 2 ^ 63) by (vm_compute; reflexivity).
  assert (O2 : truncationOf
                 (exactProduct (Secs (Active overflow))
                    (FPS (Active overflow))) (2 ^ 64)).
  { change (exactProduct (Secs (Active overflow)) (FPS (Active overflow)))
      with (S754_finite false 20282409603651670423947251286016 (-40)).
    cbn [truncationOf]. exists (2 ^ 64). cbn [cond_Zopp].
    split; [reflexivity|]. split; [vm_compute; discriminate|].
    change (0 <=? -40) with false. cbv iota.
    split; [apply Z.leb_le | apply Z.ltb_lt]; vm_compute; reflexivity. }
  assert (O3 : truncationOf
                 (F64.mul (Secs (Active overflow)) (FPS (Active overflow)))
                 (2 ^ 64)).
  { change (F64.mul (Secs (Active overflow)) (FPS (Active overflow)))
      with (S754_finite false 4503599627370496 12).
    cbn [truncationOf]. exists (2 ^ 64). cbn [cond_Zopp].
    split; [reflexivity|]. split; [vm_compute; discriminate|].
    change (0 <=? 12) with true. cbv iota. vm_compute. reflexivity. }
  assert (R1 : stepsOf rounded = 7) by (vm_compute; reflexivity).
  assert (R2 : truncationOf
                 (exactProduct (Secs (Active rounded)) (FPS (Active rounded)))
                 6).
  { change (exactProduct (Secs (Active rounded)) (FPS (Active rounded)))
      with (S754_finite false 35494216806390420990107876065280 (-102)).
    cbn [truncationOf]. exists 6. cbn [cond_Zopp].
    split; [reflexivity|]. split; [vm_compute; discriminate|].
    change (0 <=? -102) with false. cbv iota.
    split; [apply Z.leb_le | apply Z.ltb_lt]; vm_compute; reflexivity. }
  assert (S1 : delayOf slow = - 2 ^ 63) by (vm_compute; reflexivity).
  assert (S2 : ~ withinOneNanosecond (delayOf slow) (FPS (Active slow))).
  { rewrite S1. change (FPS (Active slow)) with (S754_finite false 1 (-1074)).
    cbn [withinOneNanosecond]. change (0 <=? -1074) with false. cbv iota.
    intros H. apply Z.ltb_lt in H. vm_compute in H. discriminate H. }
  split; [|split; [|split; [|split; [|split; [|split]]]]].
  - split; [reflexivity|]. split; [reflexivity|].
    split; [exact O2|]. split; [exact O3 | exact O1].
  - split; [reflexivity|]. split; [reflexivity|].
    split; [exact R2 | exact R1].
  - split; [reflexivity|]. split; [reflexivity|]. split; [reflexivity|].
    split; [exact S1 | exact S2].
  - intros H. specialize (H overflow eq_refl eq_refl).
    rewrite O1 in H. vm_compute in H. now apply H.
  - intros H. specialize (H overflow eq_refl eq_refl). rewrite O1 in H.
    change (F64.mul (Secs (Active overflow)) (FPS (Active overflow)))
      with (S754_finite false 4503599627370496 12) in H, O3.
    revert H. apply (not_truncationOf _ _ _ _ _ O3).
    vm_compute. discriminate.
  - intros H. specialize (H rounded eq_refl eq_refl). rewrite R1 in H.
    specialize (H ltac:(vm_compute; discriminate)).
    change (exactProduct (Secs (Active rounded)) (FPS (Active rounded)))
      with (S754_finite false 35494216806390420990107876065280 (-102))
      in H, R2.
    revert H. apply (not_truncationOf _ _ _ _ _ R2). discriminate.
  - intros H. exact (S2 (H slow eq_refl eq_refl)).
Qed.

(** ** What [parseColors] accepts *)

Lemma Ok_inj {T : Type} (x y : T) : Ok x = Ok y -> x = y.
Proof. intros H. now injection H. Qed.

Lemma hexVal_bound (c : ascii) : 0 <= hexVal c < 16.
Proof.
  unfold hexVal.
  repeat match goal with
         | |- context [if ?b then _ else _] => destruct b eqn:?
         end;
    repeat match goal with
           | H : (_ && _) = true |- _ =>
             apply andb_true_iff in H; destruct H
           | H : (_ <=? _) = true |- _ => apply Z.leb_le in H
           end; lia.
Qed.

Lemma scanNumber_length (w : nat) (s : string) :
  (String.length (scanNumber w s) <= w)%nat.
Proof.
  revert s. induction w as [|w IH]; intros [|c rest]; cbn; try lia.
  destruct (isHexDigit c); cbn; [|lia]. specialize (IH rest). lia.
Qed.

Lemma ParseUint16_bound (tok : string) (acc : Z) :
  0 <= acc ->
  0 <= ParseUint16 acc tok
  /\ ParseUint16 acc tok + 1 <= (acc + 1) * 16 ^ Z.of_nat (String.length tok).
Proof.
  revert acc. induction tok as [|c rest IH]; intros acc Hacc.
  - cbn [ParseUint16 String.length Z.of_nat]. rewrite Z.pow_0_r. lia.
  - cbn [ParseUint16 String.length].
    pose proof (hexVal_bound c) as Hc.
    destruct (IH (acc * 16 + hexVal c) ltac:(lia)) as [Hlo Hhi].
    split; [exact Hlo|].
    rewrite Nat2Z.inj_succ, Z.pow_succ_r by lia.
    eapply Z.le_trans; [exact Hhi|].
    replace ((acc + 1) * (16 * 16 ^ Z.of_nat (String.length rest)))
      with ((acc + 1) * 16 * 16 ^ Z.of_nat (String.length rest)) by ring.
    apply Z.mul_le_mono_nonneg_r; [apply Z.pow_nonneg|]; lia.
Qed.

(** A token of at most eight digits never overflows 32 bits. *)
Lemma scanned_fits (s : string) :
  0 <= ParseUint16 0 (scanNumber 8 s) < 2 ^ 32.
Proof.
  destruct (ParseUint16_bound (scanNumber 8 s) 0 ltac:(lia)) as [Hlo Hhi].
  split; [exact Hlo|].
  pose proof (scanNumber_length 8 s) as Hl.
  assert (16 ^ Z.of_nat (String.length (scanNumber 8 s)) <= 16 ^ 8)
    by (apply Z.pow_le_mono_r; lia).
  change (16 ^ 8) with (2 ^ 32) in *. lia.
Qed.

Lemma scanNumber_step (w : nat) (c : ascii) (rest : string) :
  scanNumber (S w) (String c rest)
  = if isHexDigit c then String c (scanNumber w rest) else EmptyString.
Proof. reflexivity. Qed.

(** [Sscanf] by cases on what follows the leading space. *)
Lemma Sscanf_08X_cases (c : string) :
  Sscanf_08X c =
  match SkipSpace c with
  | Err e => Err e
  | Ok EmptyString => Err "EOF"
  | Ok (String d rest) =>
    if isHexDigit d then Ok (ParseUint16 0 (scanNumber 8 (String d rest)))
    else Err "expected integer"
  end.
Proof.
  unfold Sscanf_08X. destruct (SkipSpace c) as [[|d rest]|e]; try reflexivity.
  pose proof (scanned_fits (String d rest)) as Hfit.
  rewrite (scanNumber_step 7 d rest) in *.
  destruct (isHexDigit d); [|reflexivity].
  destruct (Z.ltb_spec (ParseUint16 0 (String d (scanNumber 7 rest))) (2 ^ 32));
    [reflexivity | lia].
Qed.

Lemma unpack_wf (val : Z) : wf_color (unpack val).
Proof.
  unfold wf_color, unpack, is_uint8, uint8. cbn [R G B A].
  repeat split; apply Z.mod_pos_bound; lia.
Qed.

Lemma parseColor_wf (c : string) (col : RGBA) :
  parseColor c = Ok col -> wf_color col.
Proof.
  unfold parseColor.
  destruct (negb (len (TrimPrefix_hash c) =? 8)); [discriminate|].
  destruct (Sscanf_08X (TrimPrefix_hash c)) as [val|e]; [|discriminate].
  intros H. apply Ok_inj in H. subst col. apply (unpack_wf val).
Qed.

(** X1: [parseColors] accepts a colour string exactly when, with one
    leading [#] removed, it is eight bytes long and its first byte after
    leading blanks (a newline is not one) is a hexadecimal digit; the
    colour is then unpacked from the value of the hexadecimal digits that
    start there, up to the first byte that is not one. *)
Theorem parseColor_accepts_iff (c : string) (col : RGBA) :
  parseColor c = Ok col <->
  len (TrimPrefix_hash c) = 8 /\
  exists d rest,
    SkipSpace (TrimPrefix_hash c) = Ok (String d rest)
    /\ isHexDigit d = true
    /\ col = unpack (ParseUint16 0 (scanNumber 8 (String d rest))).
Proof.
  unfold parseColor. rewrite Sscanf_08X_cases.
  destruct (Z.eqb_spec (len (TrimPrefix_hash c)) 8) as [Hl | Hl]; cbn [negb].
  - destruct (SkipSpace (TrimPrefix_hash c)) as [[|d rest]|e].
    + split; [discriminate|]. intros (_ & d & rest & H & _). discriminate H.
    + destruct (isHexDigit d) eqn:Hd.
      * split.
        -- intros H. apply Ok_inj in H. split; [exact Hl|].
           exists d, rest. split; [reflexivity|]. split; [exact Hd|].
           symmetry. exact H.
        -- intros (_ & d' & rest' & H & _ & ->).
           injection H as <- <-. reflexivity.
      * split; [discriminate|].
        intros (_ & d' & rest' & H & Hd' & _).
        injection H as <- <-. congruence.
    + split; [discriminate|]. intros (_ & d & rest & H & _). discriminate H.
  - split; [discriminate|]. intros [H _]. contradiction.
Qed.

Lemma Err_inj {T : Type} (x y : string) : @Err T x = Err y -> x = y.
Proof. intros H. now injection H. Qed.

(** X2: [parseColors] rejects a colour string with one of two messages,
    both of which quote the string without its leading [#]: a format
    error exactly when the string is not eight bytes long, a value error
    exactly when it is eight bytes long and no hexadecimal digit follows
    its leading blanks. *)
Theorem parseColor_rejects_iff (c e : string) :
  parseColor c = Err e <->
  (len (TrimPrefix_hash c) <> 8
   /\ e = "invalid color format: " ++ TrimPrefix_hash c)
  \/ (len (TrimPrefix_hash c) = 8
      /\ e = "invalid color value: " ++ TrimPrefix_hash c
      /\ forall d rest,
           SkipSpace (TrimPrefix_hash c) = Ok (String d rest) ->
           isHexDigit d = false).
Proof.
  unfold parseColor. rewrite Sscanf_08X_cases.
  destruct (Z.eqb_spec (len (TrimPrefix_hash c)) 8) as [Hl | Hl]; cbn [negb].
  - destruct (SkipSpace (TrimPrefix_hash c)) as [[|d rest]|e0].
    + split.
      * intros H. apply Err_inj in H. right.
        split; [exact Hl|]. split; [now symmetry|]. intros d rest H'.
        discriminate H'.
      * intros [[H _] | (_ & -> & _)]; [contradiction | reflexivity].
    + destruct (isHexDigit d) eqn:Hd.
      * split; [discriminate|].
        intros [[H _] | (_ & _ & H)]; [contradiction|].
        specialize (H d rest eq_refl). congruence.
      * split.
        -- intros H. apply Err_inj in H. right.
           split; [exact Hl|]. split; [now symmetry|]. intros d' rest' H'.
           apply Ok_inj in H'.
           assert (d' = d) by congruence. now subst d'.
        -- intros [[H _] | (_ & -> & _)]; [contradiction | reflexivity].
    + split.
      * intros H. apply Err_inj in H. right.
        split; [exact Hl|]. split; [now symmetry|]. intros d rest H'.
        discriminate H'.
      * intros [[H _] | (_ & -> & _)]; [contradiction | reflexivity].
  - split.
    + intros H. apply Err_inj in H. left. split; [exact Hl | now symmetry].
    + intros [[_ ->] | [H _]]; [reflexivity | contradiction].
Qed.

Lemma parseColors_from_app (l : list string) (acc : list RGBA) :
  parseColors_from acc l =
  match parseColors_from [] l with
  | Ok cs => Ok (acc ++ cs)%list
  | Err e => Err e
  end.
Proof.
  revert acc. induction l as [|s l IH]; intros acc; cbn [parseColors_from].
  - now rewrite app_nil_r.
  - destruct (parseColor s) as [col|e]; [|reflexivity].
    rewrite (IH (acc ++ [col])%list), (IH ([] ++ [col])%list).
    destruct (parseColors_from [] l) as [cs|e]; [|reflexivity].
    now rewrite <- app_assoc.
Qed.

Lemma parseColors_cons (s : string) (l : list string) :
  parseColors (s :: l) =
  match parseColor s with
  | Err e => Err e
  | Ok col =>
    match parseColors l with
    | Ok cs => Ok (col :: cs)
    | Err e => Err e
    end
  end.
Proof.
  unfold parseColors. cbn [parseColors_from].
  destruct (parseColor s) as [col|e]; [|reflexivity].
  apply (parseColors_from_app l ([] ++ [col])%list).
Qed.

Lemma parseColors_wf (l : list string) (cs : list RGBA) :
  parseColors l = Ok cs -> Forall wf_color cs.
Proof.
  revert cs. induction l as [|s l IH]; intros cs.
  - intros H. apply Ok_inj in H. subst cs. constructor.
  - rewrite parseColors_cons.
    destruct (parseColor s) as [col|e] eqn:Hs; [|discriminate].
    destruct (parseColors l) as [cs'|e] eqn:Hl; [|discriminate].
    intros H. apply Ok_inj in H. subst cs. constructor.
    + exact (parseColor_wf s col Hs).
    + now apply IH.
Qed.

(** X3: [parseColors] returns a list exactly when every string of its
    argument is accepted: the list then holds the colour of each string,
    in the order of the strings, and every channel of it is a byte. *)
Theorem parseColors_ok_iff (l : list string) (cs : list RGBA) :
  parseColors l = Ok cs <->
  Forall2 (fun s col => parseColor s = Ok col /\ wf_color col) l cs.
Proof.
  revert cs. induction l as [|s l IH]; intros cs.
  - split.
    + intros H. injection H as <-. constructor.
    + intros H. inversion H. reflexivity.
  - rewrite parseColors_cons. split.
    + destruct (parseColor s) as [col|e] eqn:Hs; [|discriminate].
      destruct (parseColors l) as [cs'|e] eqn:Hl; [|discriminate].
      intros H. injection H as <-. constructor.
      * split; [exact Hs|]. exact (parseColor_wf s col Hs).
      * apply IH. reflexivity.
    + intros H. inversion H as [|s' col l' cs' [Hs _] Hrest]; subst.
      rewrite Hs. apply IH in Hrest. now rewrite Hrest.
Qed.

(** X4: when a string of the list is rejected and all the strings before
    it are accepted, [parseColors] returns the error of that string,
    whatever follows it. *)
Theorem parseColors_first_error (before after : list string) (bad e : string) :
  Forall (fun s => exists col, parseColor s = Ok col) before ->
  parseColor bad = Err e ->
  parseColors (before ++ bad :: after) = Err e.
Proof.
  intros Hb Hbad. induction Hb as [|s l [col Hs] _ IH]; cbn [app].
  - rewrite parseColors_cons, Hbad. reflexivity.
  - rewrite parseColors_cons, Hs, IH. reflexivity.
Qed.

Lemma parseColors_first_error_witness :
  parseColors (["#FF0000FF"; "00FF00FF"] ++ "#12345" :: ["zz"])
  = Err "invalid color format: 12345".
Proof.
  apply (parseColors_first_error ["#FF0000FF"; "00FF00FF"] ["zz"] "#12345").
  - repeat constructor; eexists; reflexivity.
  - reflexivity.
Defined.

(** ** Encoding, then parsing *)

Lemma hexDigitUpper_digit (d : Z) :
  0 <= d < 16 ->
  isHexDigit (hexDigitUpper d) = true /\ hexVal (hexDigitUpper d) = d.
Proof.
  intros Hd.
  assert (H : In d [0; 1; 2; 3; 4; 5; 6; 7; 8; 9; 10; 11; 12; 13; 14; 15])
    by (cbn [In]; lia).
  cbn [In] in H.
  repeat (destruct H as [<- | H]; [split; reflexivity|]).
  contradiction.
Qed.

(** X5: the string [colorToHex] gives for a colour, with its alpha digits
    moved behind the others and written as in the configuration, is
    accepted by [parseColors] and gives the colour back. *)
Theorem encode_then_parse (c : RGBA) :
  wf_color c ->
  String.length (colorToHex c) = 10%nat
  /\ parseColors [configString (colorToHex c)] = Ok [c].
Proof.
  intros (Hr & Hg & Hb & Ha). destruct c as [r g b a].
  unfold is_uint8 in *. cbn [R G B A] in *.
  split; [reflexivity|].
  assert (Hd : forall x, 0 <= x < 256 -> 0 <= x / 16 < 16 /\ 0 <= x mod 16 < 16)
    by (intros x Hx; split; Z.div_mod_to_equations; lia).
  destruct (hexDigitUpper_digit _ (proj1 (Hd r Hr))) as [R1 R1v].
  destruct (hexDigitUpper_digit _ (proj2 (Hd r Hr))) as [R2 R2v].
  destruct (hexDigitUpper_digit _ (proj1 (Hd g Hg))) as [G1 G1v].
  destruct (hexDigitUpper_digit _ (proj2 (Hd g Hg))) as [G2 G2v].
  destruct (hexDigitUpper_digit _ (proj1 (Hd b Hb))) as [B1 B1v].
  destruct (hexDigitUpper_digit _ (proj2 (Hd b Hb))) as [B2 B2v].
  destruct (hexDigitUpper_digit _ (proj1 (Hd a Ha))) as [A1 A1v].
  destruct (hexDigitUpper_digit _ (proj2 (Hd a Ha))) as [A2 A2v].
  rewrite parseColors_cons.
  unfold configString, colorToHex, fmt_02X. cbn [R G B A].
  cbn [append substring].
  rewrite parseColor_hash by (apply TrimPrefix_hex; exact R1).
  rewrite (parseColor_hex8 _ _ _ _ _ _ _ _ R1 R2 G1 G2 B1 B2 A1 A2).
  rewrite R1v, R2v, G1v, G2v, B1v, B2v, A1v, A2v.
  change (parseColors []) with (@Ok (list RGBA) []).
  assert (Hj : forall x, 16 * (x / 16) + x mod 16 = x)
    by (intros x; Z.div_mod_to_equations; lia).
  now rewrite !Hj.
Qed.

Lemma encode_then_parse_witness :
  String.length (colorToHex (mkRGBA 255 165 0 128)) = 10%nat
  /\ parseColors [configString (colorToHex (mkRGBA 255 165 0 128))]
     = Ok [mkRGBA 255 165 0 128].
Proof.
  apply (encode_then_parse (mkRGBA 255 165 0 128)).
  unfold wf_color, is_uint8. cbn [R G B A]. lia.
Defined.

(** ** The configuration [main] works with *)

Lemma Split_comma_nonempty (s : string) : Split_comma s <> [].
Proof.
  induction s as [|c rest IH]; cbn [Split_comma]; [discriminate|].
  destruct (Split_comma rest) as [|hd tl]; [discriminate|].
  destruct (Ascii.eqb c ","); discriminate.
Qed.

(** The fields after the pass of the flags. *)
Lemma overrideWithFlags_fields (cfg : Config) (fl : Flags) :
  let out := overrideWithFlags cfg fl in
  Colors (Active out)
  = (if negb (String.eqb (colorsFlag fl) "")
     then Split_comma (colorsFlag fl) else Colors (Active cfg))
  /\ Colors (Inactive out)
     = (if negb (String.eqb (inactiveColorsFlag fl) "")
        then Split_comma (inactiveColorsFlag fl) else Colors (Inactive cfg))
  /\ Secs (Active out)
     = (if gt0 (secsFlag fl) then secsFlag fl else Secs (Active cfg))
  /\ FPS (Active out)
     = (if gt0 (fpsFlag fl) then fpsFlag fl else FPS (Active cfg))
  /\ Width (Active out)
     = (if gt0 (widthFlag fl) then widthFlag fl else Width (Active cfg))
  /\ Glow (Active out) = Glow (Active cfg)
  /\ Glow (Inactive out) = Glow (Inactive cfg).
Proof.
  unfold overrideWithFlags.
  destruct (negb (String.eqb (colorsFlag fl) ""));
    destruct (negb (String.eqb (inactiveColorsFlag fl) ""));
    destruct (gt0 (secsFlag fl)); destruct (gt0 (fpsFlag fl));
    destruct (gt0 (widthFlag fl)); repeat split.
Qed.

(** The fields after the pass of the configuration file. *)
Lemma overrideWithFile_fields (cfg fc : Config) :
  let out := overrideWithFile cfg fc in
  Colors (Active out)
  = (if 0 <? Z.of_nat (List.length (Colors (Active fc)))
     then Colors (Active fc) else Colors (Active cfg))
  /\ Colors (Inactive out)
     = (if 0 <? Z.of_nat (List.length (Colors (Inactive fc)))
        then Colors (Inactive fc) else Colors (Inactive cfg))
  /\ Secs (Active out)
     = (if gt0 (Secs (Active fc)) then Secs (Active fc) else Secs (Active cfg))
  /\ FPS (Active out)
     = (if gt0 (FPS (Active fc)) then FPS (Active fc) else FPS (Active cfg))
  /\ Width (Active out)
     = (if gt0 (Width (Active fc)) then Width (Active fc)
        else Width (Active cfg))
  /\ Glow (Active out) = Glow (Active fc) || Glow (Active cfg)
  /\ Glow (Inactive out) = Glow (Inactive cfg).
Proof.
  unfold overrideWithFile.
  destruct (0 <? Z.of_nat (List.length (Colors (Active fc))));
    destruct (0 <? Z.of_nat (List.length (Colors (Inactive fc))));
    destruct (gt0 (Secs (Active fc))); destruct (gt0 (FPS (Active fc)));
    destruct (gt0 (Width (Active fc)));
    destruct (Glow (Active fc)) eqn:Hg; cbn [orb]; repeat split.
Qed.

(** The glow of the active border is the file's; nothing sets the glow of
    the inactive one. *)
Lemma resolve_glow (fc : Config) (fl : Flags) :
  Glow (Active (resolve fc fl)) = Glow (Active fc)
  /\ Glow (Inactive (resolve fc fl)) = false.
Proof.
  unfold resolve.
  destruct (overrideWithFlags_fields (overrideWithFile defaultConfig fc) fl)
    as (_ & _ & _ & _ & _ & -> & ->).
  destruct (overrideWithFile_fields defaultConfig fc)
    as (_ & _ & _ & _ & _ & -> & ->).
  cbn [defaultConfig Active Inactive Glow emptyBorderConfig].
  now rewrite orb_false_r.
Qed.

Lemma gt0_of_small : gt0 (F64.of_Z 3) = true /\ gt0 (F64.of_Z 5) = true.
Proof. split; reflexivity. Qed.

(** The numbers [main] works with are above zero. *)
Lemma resolve_positive (fc : Config) (fl : Flags) :
  gt0 (Secs (Active (resolve fc fl))) = true
  /\ gt0 (FPS (Active (resolve fc fl))) = true
  /\ gt0 (Width (Active (resolve fc fl))) = true.
Proof.
  unfold resolve.
  destruct (overrideWithFlags_fields (overrideWithFile defaultConfig fc) fl)
    as (_ & _ & -> & -> & -> & _ & _).
  destruct (overrideWithFile_fields defaultConfig fc)
    as (_ & _ & -> & -> & -> & _ & _).
  cbn [defaultConfig Active Secs FPS Width].
  destruct gt0_of_small as [H3 H5].
  split; [|split].
  - destruct (gt0 (secsFlag fl)) eqn:H1; [exact H1|].
    destruct (gt0 (Secs (Active fc))) eqn:H2; [exact H2 | exact H3].
  - destruct (gt0 (fpsFlag fl)) eqn:H1; [exact H1|].
    destruct (gt0 (FPS (Active fc))) eqn:H2; [exact H2 | exact H3].
  - destruct (gt0 (widthFlag fl)) eqn:H1; [exact H1|].
    destruct (gt0 (Width (Active fc))) eqn:H2; [exact H2 | exact H5].
Qed.

(** X6: every setting [main] works with comes from the flag when the
    flag is given (a non-empty string, a number above zero), else from the
    configuration file when the file gives it (a non-empty list, a number
    above zero), else from the defaults: six colours, three seconds,
    three frames per second, width five, and no inactive colours.  The
    glow of the active border comes from the file alone. *)
Theorem resolve_precedence (fc : Config) (fl : Flags) :
  let cfg := resolve fc fl in
  Colors (Active cfg)
  = (if negb (String.eqb (colorsFlag fl) "")
     then Split_comma (colorsFlag fl)
     else if 0 <? Z.of_nat (List.length (Colors (Active fc)))
          then Colors (Active fc)
          else ["#FF0000FF"; "#FFA500FF"; "#FFFF00FF"; "#008000FF";
                "#0000FFFF"; "#4B0082FF"])
  /\ Colors (Inactive cfg)
     = (if negb (String.eqb (inactiveColorsFlag fl) "")
        then Split_comma (inactiveColorsFlag fl)
        else if 0 <? Z.of_nat (List.length (Colors (Inactive fc)))
             then Colors (Inactive fc)
             else [])
  /\ Secs (Active cfg)
     = (if gt0 (secsFlag fl) then secsFlag fl
        else if gt0 (Secs (Active fc)) then Secs (Active fc)
             else F64.of_Z 3)
  /\ FPS (Active cfg)
     = (if gt0 (fpsFlag fl) then fpsFlag fl
        else if gt0 (FPS (Active fc)) then FPS (Active fc)
             else F64.of_Z 3)
  /\ Width (Active cfg)
     = (if gt0 (widthFlag fl) then widthFlag fl
        else if gt0 (Width (Active fc)) then Width (Active fc)
             else F64.of_Z 5)
  /\ Glow (Active cfg) = Glow (Active fc).
Proof.
  intros cfg. subst cfg. unfold resolve.
  destruct (overrideWithFlags_fields (overrideWithFile defaultConfig fc) fl)
    as (-> & -> & -> & -> & -> & -> & _).
  destruct (overrideWithFile_fields defaultConfig fc)
    as (-> & -> & -> & -> & -> & -> & _).
  cbn [defaultConfig Active Inactive Colors Secs FPS Width Glow
       emptyBorderConfig].
  rewrite orb_false_r. repeat split.
Qed.

(** X7: whatever the file and the flags hold, [main] works with at least
    one active colour string and with a number of seconds, a frame rate
    and a width above zero (so never with a NaN or a negative number), and
    the glow of the inactive border is off: nothing sets it. *)
Theorem resolve_invariants (fc : Config) (fl : Flags) :
  let cfg := resolve fc fl in
  Colors (Active cfg) <> []
  /\ gt0 (Secs (Active cfg)) = true
  /\ gt0 (FPS (Active cfg)) = true
  /\ gt0 (Width (Active cfg)) = true
  /\ Glow (Inactive cfg) = false.
Proof.
  intros cfg. subst cfg.
  destruct (resolve_positive fc fl) as (Hs & Hf & Hw).
  destruct (resolve_glow fc fl) as [_ Hg].
  split; [|split; [exact Hs | split; [exact Hf | split; [exact Hw | exact Hg]]]].
  unfold resolve.
  destruct (overrideWithFlags_fields (overrideWithFile defaultConfig fc) fl)
    as (-> & _).
  destruct (overrideWithFile_fields defaultConfig fc) as (-> & _).
  cbn [defaultConfig Active Colors].
  destruct (negb (String.eqb (colorsFlag fl) ""));
    [apply Split_comma_nonempty|].
  destruct (Colors (Active fc)) as [|c l] eqn:Hc; cbn; discriminate.
Qed.

(** ** Finding and reading the configuration file *)

(** Where [getConfigFilePath] looks, when it can tell. *)
Lemma getConfigFilePath_cases (w : Host) (n : nat) :
  getConfigFilePath w n =
  if String.eqb (XDG_CONFIG_HOME w) "" then
    match UserHomeDir w with
    | Ok home =>
      ([], n,
       Some (Join w [Join w [home; ".config"]; "border-shimmer";
                     "config.toml"]))
    | Err e =>
      ([EvPrintf ("Error getting user home directory: " ++ e ++ newline);
        EvExit 1], n, None)
    end
  else
    ([], n, Some (Join w [XDG_CONFIG_HOME w; "border-shimmer"; "config.toml"])).
Proof.
  unfold getConfigFilePath, bind, ret, Printf, Exit.
  destruct (String.eqb (XDG_CONFIG_HOME w) ""); [|reflexivity].
  destruct (UserHomeDir w); reflexivity.
Qed.

(** X8: with [XDG_CONFIG_HOME] unset or empty and no home directory to
    be had, the process prints the failure and exits with status 1: no
    file is read, whatever the flags are, and nothing is drawn. *)
Theorem no_home_directory_is_fatal (w : Host) (fuel : nat) (env : Env)
  (e : string) :
  XDG_CONFIG_HOME w = "" ->
  UserHomeDir w = Err e ->
  traceOn w fuel env =
  [EvPrintf ("Error getting user home directory: " ++ e ++ newline);
   EvExit 1].
Proof.
  intros Hx Hh. unfold traceOn, mainOn, loadConfigFile.
  unfold bind at 1. unfold bind at 1.
  rewrite getConfigFilePath_cases, Hx, Hh. reflexivity.
Qed.

Lemma no_home_directory_is_fatal_witness :
  traceOn (hostWith "" (Err "$HOME is not defined") "" (defaultConfig, None))
    3 envDefault =
  [EvPrintf ("Error getting user home directory: $HOME is not defined"
             ++ newline);
   EvExit 1].
Proof.
  apply (no_home_directory_is_fatal
           (hostWith "" (Err "$HOME is not defined") "" (defaultConfig, None))
           3 envDefault "$HOME is not defined"); reflexivity.
Defined.

(** X9: when the configuration file cannot be read, for whatever reason
    ([os.ReadFile] fails), the process says nothing about it and goes on
    as with a file that sets nothing: on the defaults and the flags. *)
Theorem unreadable_file_is_ignored (w : Host) (fuel : nat) (env : Env)
  (path e : string) (n : nat) :
  getConfigFilePath w n = ([], n, Some path) ->
  ReadFile w path = Err e ->
  mainOn w fuel env n = main fuel (withFile env noFile) n.
Proof.
  intros Hp Hr. unfold mainOn, loadConfigFile.
  unfold bind at 1. unfold bind at 1. rewrite Hp, Hr.
  unfold ret. cbn [app asResult fst snd]. fold noFile.
  destruct (main fuel (withFile env noFile) n) as [[t k] r]. reflexivity.
Qed.

Lemma unreadable_file_is_ignored_witness :
  mainOn (hostWith "/etc/xdg" (Err "") "" (defaultConfig, None))
    1 envTwo 0%nat
  = main 1 (withFile envTwo noFile) 0%nat.
Proof.
  apply (unreadable_file_is_ignored
           (hostWith "/etc/xdg" (Err "") "" (defaultConfig, None)) 1 envTwo
           "/etc/xdg/border-shimmer/config.toml" "no such file or directory");
    reflexivity.
Defined.

(** X10: a configuration file that is read but that [toml.Unmarshal]
    rejects is fatal: the process prints one line that holds the path of
    the file and the error of the decoder, and exits with status 1; what
    the decoder had filled in by then is dropped. *)
Theorem undecodable_file_is_fatal (w : Host) (fuel : nat) (env : Env)
  (path data e : string) (partial : Config) :
  getConfigFilePath w 0%nat = ([], 0%nat, Some path) ->
  ReadFile w path = Ok data ->
  Unmarshal w data = (partial, Some e) ->
  traceOn w fuel env =
  [EvPrintf ("Error loading config file: "
             ++ ("error parsing config file " ++ path ++ ": " ++ e)
             ++ newline);
   EvExit 1].
Proof.
  intros Hp Hr Hu. unfold traceOn, mainOn, loadConfigFile.
  unfold bind at 1. unfold bind at 1. rewrite Hp, Hr, Hu.
  unfold ret. cbn [app asResult fst snd].
  unfold main, loadTracks, withFile. cbn [env_file].
  reflexivity.
Qed.

Lemma undecodable_file_is_fatal_witness :
  traceOn (hostWith "" (Ok "/home/u") "[active"
             (defaultConfig, Some "toml: expected ]"))
    2 envDefault =
  [EvPrintf ("Error loading config file: "
             ++ ("error parsing config file "
                 ++ "/home/u/.config/border-shimmer/config.toml" ++ ": "
                 ++ "toml: expected ]")
             ++ newline);
   EvExit 1].
Proof.
  apply (undecodable_file_is_fatal
           (hostWith "" (Ok "/home/u") "[active"
              (defaultConfig, Some "toml: expected ]"))
           2 envDefault "/home/u/.config/border-shimmer/config.toml"
           "[active" "toml: expected ]" defaultConfig); reflexivity.
Defined.

(** X11: when [XDG_CONFIG_HOME] is set, the file looked for is
    [border-shimmer/config.toml] under it, and the home directory plays no
    part: the run is the same whatever [os.UserHomeDir()] would answer,
    also when it would fail. *)
Theorem xdg_config_home_wins (w : Host) (home : result string) (fuel : nat)
  (env : Env) (n : nat) :
  XDG_CONFIG_HOME w <> "" ->
  getConfigFilePath w n
  = ([], n, Some (Join w [XDG_CONFIG_HOME w; "border-shimmer"; "config.toml"]))
  /\ mainOn (withHome w home) fuel env n = mainOn w fuel env n.
Proof.
  intros Hx. apply String.eqb_neq in Hx.
  split.
  - now rewrite getConfigFilePath_cases, Hx.
  - unfold mainOn, loadConfigFile.
    unfold bind at 1 3. unfold bind at 1 2.
    rewrite !getConfigFilePath_cases.
    cbn [withHome XDG_CONFIG_HOME Join ReadFile Unmarshal].
    rewrite Hx. reflexivity.
Qed.

Lemma xdg_config_home_wins_witness :
  getConfigFilePath (hostWith "/etc/xdg" (Ok "/home/u") "" (defaultConfig, None))
    0%nat
  = ([], 0%nat, Some "/etc/xdg/border-shimmer/config.toml")
  /\ mainOn (withHome
               (hostWith "/etc/xdg" (Ok "/home/u") "" (defaultConfig, None))
               (Err "$HOME is not defined")) 1 envTwo 0%nat
     = mainOn (hostWith "/etc/xdg" (Ok "/home/u") "" (defaultConfig, None))
         1 envTwo 0%nat.
Proof.
  apply (xdg_config_home_wins
           (hostWith "/etc/xdg" (Ok "/home/u") "" (defaultConfig, None))
           (Err "$HOME is not defined") 1 envTwo 0%nat).
  discriminate.
Defined.

(** ** Every run of [main] *)

Ltac take_trace H :=
  apply (f_equal (fun x => fst (fst x))) in H; cbn [fst] in H;
  symmetry in H.

(** A failed start-up has printed one line and exited with status 1. *)
Lemma loadTracks_fail env n t n' :
  loadTracks env n = (t, n', None) ->
  exists e,
    (t = [EvPrintf ("Error loading config file: " ++ e ++ newline); EvExit 1]
     /\ env_file env = Err e)
    \/ t = [EvPrintf ("Error parsing colors: " ++ e ++ newline); EvExit 1]
    \/ t = [EvPrintf ("Error parsing inactive colors: " ++ e ++ newline);
            EvExit 1].
Proof.
  unfold loadTracks, bind, ret, Printf, Exit.
  destruct (env_file env) as [fc|e]; cbn [app].
  2:{ intros H. take_trace H. exists e. left. split; [exact H | reflexivity]. }
  destruct (parseColors (Colors (Active (resolve fc (env_flags env)))))
    as [pa|e]; cbn [app].
  2:{ intros H. take_trace H. exists e. right. left. exact H. }
  destruct (0 <? Z.of_nat (List.length (Colors (Inactive
                (resolve fc (env_flags env)))))).
  - destruct (parseColors (Colors (Inactive (resolve fc (env_flags env)))))
      as [pi|e]; cbn [app].
    + intros H. discriminate H.
    + intros H. take_trace H. exists e. right. right. exact H.
  - simpl. destruct (deriveInactive _ _ _) as [h2 s2]. simpl.
    intros H. discriminate H.
Qed.

(** The configuration of a successful start-up is the resolved one. *)
Lemma loadTracks_cfg env n t n' cfg h colors inactiveColors :
  loadTracks env n = (t, n', Some (cfg, h, colors, inactiveColors)) ->
  exists fc, env_file env = Ok fc /\ cfg = resolve fc (env_flags env).
Proof.
  unfold loadTracks, bind, ret, Printf, Exit.
  destruct (env_file env) as [fc|e]; cbn [app]; [|discriminate].
  destruct (parseColors (Colors (Active (resolve fc (env_flags env)))))
    as [pa|e]; cbn [app]; [|discriminate].
  destruct (0 <? Z.of_nat (List.length (Colors (Inactive
                (resolve fc (env_flags env)))))).
  - destruct (parseColors (Colors (Inactive (resolve fc (env_flags env)))))
      as [pi|e]; cbn [app]; [|discriminate].
    intros H. injection H as _ _ <- _ _ _. exists fc. split; reflexivity.
  - simpl. destruct (deriveInactive _ _ _) as [h2 s2]. simpl.
    intros H. injection H as _ _ <- _ _ _. exists fc. split; reflexivity.
Qed.

(** The trace of [main], by the outcome of the start-up. *)
Lemma trace_cases (fuel : nat) (env : Env) :
  trace fuel env =
  match loadTracks env 0%nat with
  | (t, _, None) => t
  | (_, _, Some (cfg, h, colors, inactiveColors)) =>
    if negb (slen inactiveColors =? slen colors)
    then [EvPrintf mismatchMessage; EvExit 1]
    else fst (fst (animate env cfg h colors inactiveColors (stepsOf cfg)
                     (delayOf cfg) fuel 0%nat))
  end.
Proof.
  unfold trace, main. unfold bind at 1.
  destruct (loadTracks env 0%nat) as [[t n] [[[[cfg h] colors] inactive]|]]
    eqn:HL; [|reflexivity].
  destruct (loadTracks_ok _ _ _ _ _ HL) as [-> ->].
  unfold runTracks.
  destruct (negb (slen inactive =? slen colors)).
  - reflexivity.
  - rewrite bind_ret.
    destruct (animate env cfg h colors inactive (stepsOf cfg) (delayOf cfg)
                fuel 0%nat) as [[t2 n2] r]. reflexivity.
Qed.

(** Once the configuration file is dealt with, [main] either never exits
    or fails at start-up with one line and status 1. *)
Lemma trace_exits (fuel : nat) (env : Env) :
  (forall code, ~ In (EvExit code) (trace fuel env))
  \/ exists msg,
       trace fuel env = [EvPrintf msg; EvExit 1]
       /\ ((exists e, msg = "Error loading config file: " ++ e ++ newline)
           \/ (exists e, msg = "Error parsing colors: " ++ e ++ newline)
           \/ (exists e,
                 msg = "Error parsing inactive colors: " ++ e ++ newline)
           \/ msg = mismatchMessage).
Proof.
  rewrite trace_cases.
  destruct (loadTracks env 0%nat) as [[t n] [[[[cfg h] colors] inactive]|]]
    eqn:HL.
  - destruct (negb (slen inactive =? slen colors)).
    + right. exists mismatchMessage. split; [reflexivity|].
      now right; right; right.
    + left. intros code Hin.
      pose proof (animate_emits env cfg h colors inactive (stepsOf cfg)
                    (delayOf cfg) fuel 0%nat) as Hall.
      rewrite Forall_forall in Hall. exact (Hall _ Hin).
  - right. destruct (loadTracks_fail _ _ _ _ HL) as [e [[-> _] | [-> | ->]]];
      eexists; (split; [reflexivity|]).
    + left. now exists e.
    + right. left. now exists e.
    + right. right. left. now exists e.
Qed.

(** With the flags parsed, the process fails on the home directory or
    goes on as [main] does on the outcome of [loadConfigFile()]. *)
Lemma traceOn_cases (w : Host) (fuel : nat) (env : Env) :
  (exists e,
     traceOn w fuel env
     = [EvPrintf ("Error getting user home directory: " ++ e ++ newline);
        EvExit 1])
  \/ exists file, traceOn w fuel env = trace fuel (withFile env file).
Proof.
  unfold traceOn, mainOn, loadConfigFile, trace.
  assert (Hgo : forall r : Config * option string,
             exists file,
               fst (fst (let '(t2, n2, r0) :=
                           main fuel (withFile env (asResult r)) 0%nat in
                         (([] ++ t2)%list, n2, r0)))
               = fst (fst (main fuel (withFile env file) 0%nat))).
  { intros r. exists (asResult r).
    now destruct (main fuel (withFile env (asResult r)) 0%nat) as [[t k] o]. }
  pose proof (getConfigFilePath_cases w 0%nat) as Hp.
  assert (Hpath : forall path,
             getConfigFilePath w 0%nat = ([], 0%nat, Some path) ->
             exists file,
               fst (fst (bind (loadConfigFile w)
                           (fun r => main fuel (withFile env (asResult r)))
                           0%nat))
               = fst (fst (main fuel (withFile env file) 0%nat))).
  { intros path Hpath. unfold loadConfigFile.
    unfold bind at 1. unfold bind at 1. rewrite Hpath. cbv beta iota.
    destruct (ReadFile w path) as [data|e];
      [|unfold ret; cbv beta iota; apply Hgo].
    destruct (Unmarshal w data) as [config [e|]];
      unfold ret; cbv beta iota; apply Hgo. }
  destruct (String.eqb (XDG_CONFIG_HOME w) "").
  - destruct (UserHomeDir w) as [home|e].
    + right. exact (Hpath _ Hp).
    + left. exists e. unfold bind at 1. unfold bind at 1. now rewrite Hp.
  - right. exact (Hpath _ Hp).
Qed.

(** X12: the process exits only at start-up.  A run of the program
    either never exits, however long it goes on, or it is one text and
    the exit, with no frame drawn: the text of package [flag] on the
    standard error and status 0 (help) or 2 (a rejected command line), or
    one line printed by [main] and status 1.  That line is one of five:
    the home directory, the configuration file, the active colours, the
    inactive colours, or the lengths of the two tracks. *)
Theorem main_exits_only_at_startup (cl : CommandLine) (w : Host)
  (fuel : nat) (env : Env) :
  (forall code, ~ In (Event (EvExit code)) (process cl w fuel env))
  \/ (exists text code,
        process cl w fuel env = [Stderr text; Event (EvExit code)]
        /\ (code = 0 \/ code = 2))
  \/ (exists msg,
        process cl w fuel env = [Event (EvPrintf msg); Event (EvExit 1)]
        /\ startupMessage msg).
Proof.
  destruct cl as [fl | usage | message]; cbn [process].
  - destruct (traceOn_cases w fuel (withFlags env fl)) as [[e ->] | [file ->]].
    + right. right. eexists. split; [reflexivity|]. left. now exists e.
    + destruct (trace_exits fuel (withFile (withFlags env fl) file))
        as [Hno | (msg & -> & Hmsg)].
      * left. intros code Hin. apply in_map_iff in Hin.
        destruct Hin as (ev & Hev & Hin). injection Hev as ->.
        exact (Hno code Hin).
      * right. right. exists msg. split; [reflexivity|].
        unfold startupMessage. tauto.
  - right. left. exists usage, 0. split; [reflexivity | now left].
  - right. left. exists message, 2. split; [reflexivity | now right].
Qed.

(** ** No index is ever out of range *)

Lemma emits_for_range_bounded {P : event -> Prop} (body : Z -> IO unit)
  (m : nat) (lo : Z) :
  (forall j, (j < m)%nat -> emits P (body (lo + Z.of_nat j))) ->
  emits P (for_range m lo body).
Proof.
  revert lo. induction m as [|m IH]; intros lo Hb; cbn [for_range].
  - apply emits_ret.
  - apply emits_bind.
    + specialize (Hb 0%nat ltac:(lia)). now rewrite Z.add_0_r in Hb.
    + intros _. apply IH. intros j Hj.
      specialize (Hb (S j) ltac:(lia)).
      now replace (lo + 1 + Z.of_nat j) with (lo + Z.of_nat (S j)) by lia.
Qed.

Lemma at_index_ok (h : Slice.store) (s : Slice.t) (i : nat) :
  Slice.wf h s -> (i < Slice.length s)%nat ->
  at_index h s (Z.of_nat i) = ret (colorAt (Slice.elems h s) i).
Proof.
  intros Hwf Hi. unfold at_index. now rewrite index_elems.
Qed.

Lemma frame_notPanic env cfg steps delay c1 c2 c3 c4 step :
  emits notPanic (frame env cfg steps delay c1 c2 c3 c4 step).
Proof.
  intros n. unfold frame, bind, Run, Sleep, Printf, ret.
  destruct (env_sink env n); cbn; repeat constructor.
Qed.

Lemma animate_notPanic env cfg h colors inactiveColors steps delay fuel :
  Slice.wf h colors -> Slice.wf h inactiveColors ->
  Slice.length inactiveColors = Slice.length colors ->
  emits notPanic (animate env cfg h colors inactiveColors steps delay fuel).
Proof.
  intros Wc Wi Hlen. apply emits_forever. apply emits_for_range_bounded.
  intros j Hj n. rewrite Z.add_0_l. unfold transition, slen. rewrite Hlen.
  assert (Hrem : Z.rem (Z.of_nat j + 1) (Z.of_nat (Slice.length colors))
                 = Z.of_nat ((j + 1) mod Slice.length colors)).
  { rewrite Z.rem_mod_nonneg by lia. rewrite Nat2Z.inj_mod. f_equal. lia. }
  rewrite Hrem.
  assert (Hm : ((j + 1) mod Slice.length colors < Slice.length colors)%nat)
    by (apply Nat.mod_upper_bound; lia).
  rewrite !at_index_ok by (try assumption; lia).
  rewrite !bind_ret.
  apply emits_for_range. intros step. apply frame_notPanic.
Qed.

(** X13: no run of [main] panics on an index: [i] and [(i+1) % len]
    lie within both tracks on every round, whatever the configuration,
    also when the inactive track is the one [main] derives by appending to
    a slice of the active one. *)
Theorem main_never_panics (fuel : nat) (env : Env) (msg : string) :
  ~ In (EvPanic msg) (trace fuel env).
Proof.
  rewrite trace_cases.
  destruct (loadTracks env 0%nat) as [[t n] [[[[cfg h] colors] inactive]|]]
    eqn:HL.
  - destruct (Z.eqb_spec (slen inactive) (slen colors)) as [Hl | Hl];
      cbn [negb].
    + destruct (loadTracks_wf _ _ _ _ _ _ _ _ HL) as [Wc Wi].
      assert (Hlen : Slice.length inactive = Slice.length colors)
        by (unfold slen in Hl; lia).
      pose proof (animate_notPanic env cfg h colors inactive (stepsOf cfg)
                    (delayOf cfg) fuel Wc Wi Hlen 0%nat) as Hall.
      rewrite Forall_forall in Hall. intros Hin. exact (Hall _ Hin).
    + intros [H | [H | []]]; discriminate H.
  - destruct (loadTracks_fail _ _ _ _ HL) as [e [[-> _] | [-> | ->]]];
      intros [H | [H | []]]; discriminate H.
Qed.

(** ** What the sink is handed *)

Lemma to_uint8_range (f : float64) : is_uint8 (F64.to_uint8 f).
Proof.
  unfold is_uint8, F64.to_uint8.
  destruct (F64.trunc f) as [z|]; [|lia].
  destruct ((- 2 ^ 31 <=? z) && (z <? 2 ^ 31)); [|lia].
  apply Z.mod_pos_bound. lia.
Qed.

Lemma interpolateColor_wf (c1 c2 : RGBA) (t : float64) :
  wf_color (interpolateColor c1 c2 t).
Proof.
  unfold wf_color, interpolateColor, interpolateChannel. cbn [R G B A].
  repeat split; apply to_uint8_range.
Qed.

Lemma animate_plain env cfg h colors inactiveColors steps delay fuel :
  Glow (Inactive cfg) = false ->
  emits (plainFrame (Glow (Active cfg)) (Width (Active cfg)))
    (animate env cfg h colors inactiveColors steps delay fuel).
Proof.
  intros Hg. apply emits_forever. apply emits_for_range. intros i.
  unfold transition.
  assert (Hat : forall s j,
             emits (plainFrame (Glow (Active cfg)) (Width (Active cfg)))
               (at_index h s j)).
  { intros s j n. unfold at_index. destruct (Slice.index h s j); cbn.
    - constructor.
    - repeat constructor. }
  repeat (apply emits_bind; [apply Hat | intros ?]).
  apply emits_for_range. intros step n.
  unfold frame, bind, Run, Sleep, Printf, ret. rewrite Hg.
  assert (HR : plainFrame (Glow (Active cfg)) (Width (Active cfg))
                 (EvRun "borders"
                    (mkArgs
                       (glowWrap (Glow (Active cfg))
                          (colorToHex
                             (interpolateColor x x0 (t_of steps step))))
                       (glowWrap false
                          (colorToHex
                             (interpolateColor x1 x2 (t_of steps step))))
                       (Width (Active cfg))))).
  { split; [reflexivity|].
    exists (interpolateColor x x0 (t_of steps step)),
           (interpolateColor x1 x2 (t_of steps step)).
    split; [apply interpolateColor_wf|].
    split; [apply interpolateColor_wf|]. reflexivity. }
  destruct (env_sink env n) as [e|]; cbn [app fst];
    repeat (constructor; try exact HR); exact I.
Qed.

(** X14: every invocation of a run of [main] is of [borders], with the
    width of the configuration and two colours of the form [0xAARRGGBB]
    whose channels are bytes.  The active colour is wrapped in [glow(..)]
    when the configuration file says so, on every frame or on none; the
    inactive colour is never wrapped, whatever the file says. *)
Theorem frames_are_well_formed (fuel : nat) (env : Env) (fc : Config) :
  env_file env = Ok fc ->
  Forall (plainFrame (Glow (Active fc))
            (Width (Active (resolve fc (env_flags env)))))
    (trace fuel env).
Proof.
  intros Hf. rewrite trace_cases.
  destruct (loadTracks env 0%nat) as [[t n] [[[[cfg h] colors] inactive]|]]
    eqn:HL.
  - destruct (negb (slen inactive =? slen colors)).
    + repeat constructor.
    + destruct (loadTracks_cfg _ _ _ _ _ _ _ _ HL) as (fc' & Hf' & ->).
      assert (fc' = fc) by congruence. subst fc'.
      destruct (resolve_glow fc (env_flags env)) as [Hga Hgi].
      rewrite <- Hga.
      exact (animate_plain env _ h colors inactive _ _ fuel Hgi 0%nat).
  - destruct (loadTracks_fail _ _ _ _ HL) as [e [[-> _] | [-> | ->]]];
      repeat constructor.
Qed.

Lemma frames_are_well_formed_witness :
  Forall (plainFrame false (F64.of_Z 5)) (trace 1 envTwo).
Proof.
  apply (frames_are_well_formed 1 envTwo
           (mkConfig emptyBorderConfig emptyBorderConfig)).
  reflexivity.
Defined.

(** ** The rounds of the loop *)

Lemma runs_notRun (t : list event) : Forall notRun t -> runs t = [].
Proof.
  induction 1 as [|e t He _ IH]; [reflexivity|].
  destruct e; cbn [runs notRun] in *; try exact IH. contradiction.
Qed.

Lemma concat_repeat_nil {X : Type} (m : nat) :
  List.concat (repeat (@nil X) m) = [].
Proof. induction m as [|m IH]; cbn; auto. Qed.

(** With a negative number of steps the innermost loop never runs. *)
Lemma animate_no_runs env cfg h colors inactiveColors steps delay fuel :
  steps < 0 ->
  emits notRun (animate env cfg h colors inactiveColors steps delay fuel).
Proof.
  intros Hs. apply emits_forever. apply emits_for_range. intros i.
  unfold transition.
  assert (Hat : forall s j, emits notRun (at_index h s j)).
  { intros s j n. unfold at_index. destruct (Slice.index h s j); cbn.
    - constructor.
    - repeat constructor. }
  repeat (apply emits_bind; [apply Hat | intros ?]).
  replace (Z.to_nat (steps + 1)) with 0%nat by lia.
  apply emits_ret.
Qed.

(** The frames by number repeat after one round. *)
Lemma frameAt_period cfg (active inactive : list RGBA) (steps : Z) (k : nat) :
  frameAt cfg active inactive steps
    (List.length active * framesPerTransition steps + k)
  = frameAt cfg active inactive steps k.
Proof.
  unfold frameAt, trackIndex, subStep.
  set (f := framesPerTransition steps). set (n := List.length active).
  destruct (Nat.eq_dec f 0) as [Hf | Hf].
  - rewrite Hf, Nat.mul_0_r. reflexivity.
  - destruct (Nat.eq_dec n 0) as [Hn | Hn].
    + rewrite Hn. reflexivity.
    + rewrite Nat.div_add_l by exact Hf.
      rewrite (Nat.add_comm (n * f) k), Nat.Div0.mod_add.
      replace ((n + k / f) mod n)%nat with ((k / f) mod n)%nat; [reflexivity|].
      replace (n + k / f)%nat with (k / f + 1 * n)%nat by lia.
      now rewrite Nat.Div0.mod_add.
Qed.

Lemma seq_from (a m : nat) :
  seq a m = map (fun k => (a + k)%nat) (seq 0 m).
Proof.
  revert a. induction m as [|m IH]; intros a; [reflexivity|].
  cbn [seq map]. f_equal; [lia|].
  rewrite (IH (S a)), <- seq_shift, map_map.
  apply map_ext. intros k. lia.
Qed.

Lemma map_frames_rounds {X : Type} (F : nat -> X) (P fuel : nat) :
  (forall k, F (P + k)%nat = F k) ->
  map F (seq 0 (fuel * P)) = List.concat (repeat (map F (seq 0 P)) fuel).
Proof.
  intros HF. induction fuel as [|m IH]; [reflexivity|].
  cbn [Nat.mul repeat List.concat]. rewrite seq_app, map_app. f_equal.
  rewrite <- IH. cbn [Nat.add].
  rewrite (seq_from P), map_map. apply map_ext. exact HF.
Qed.

(** X15: every round of the outer loop hands the sink the same frames in
    the same order, whatever the sink answered in the rounds before: the
    frames of a run of [fuel] rounds are those of its first round, [fuel]
    times over. *)
Theorem every_round_draws_the_same (fuel : nat) (env : Env) :
  runs (trace fuel env) = List.concat (repeat (runs (trace 1 env)) fuel).
Proof.
  destruct (loadTracks env 0%nat) as [[t n] [[[[cfg h] colors] inactive]|]]
    eqn:HL.
  - destruct (Z.eqb_spec (slen inactive) (slen colors)) as [Hl | Hl].
    + assert (Hlen : Slice.length inactive = Slice.length colors)
        by (unfold slen in Hl; lia).
      destruct (Z.le_gt_cases 0 (stepsOf cfg)) as [Hs | Hs].
      * rewrite !(main_closed _ env t n cfg h colors inactive HL Hlen Hs).
        rewrite !runs_frames. rewrite Nat.mul_1_l.
        apply map_frames_rounds. intros k.
        destruct (loadTracks_wf _ _ _ _ _ _ _ _ HL) as [Wc _].
        rewrite <- (SliceFacts.elems_length h colors Wc).
        apply frameAt_period.
      * rewrite !trace_cases, HL. apply Z.eqb_eq in Hl. rewrite Hl.
        cbn [negb].
        rewrite !runs_notRun
          by (apply animate_no_runs; lia).
        now rewrite concat_repeat_nil.
    + rewrite !trace_cases, HL. apply Z.eqb_neq in Hl. rewrite Hl.
      cbn [negb runs]. now rewrite concat_repeat_nil.
  - rewrite !trace_cases, HL.
    destruct (loadTracks_fail _ _ _ _ HL) as [e [[-> _] | [-> | ->]]];
      cbn [runs]; now rewrite concat_repeat_nil.
Qed.

(** ** The derived inactive track *)

Lemma rotate_nth {X : Type} (l : list X) (off i : nat) (d : X) :
  (off <= List.length l)%nat -> (i < List.length l)%nat ->
  nth i (skipn off l ++ firstn off l) d
  = nth ((i + off) mod List.length l) l d.
Proof.
  intros Hoff Hi. set (n := List.length l) in *.
  destruct (Nat.lt_ge_cases i (n - off)) as [Hlt | Hge].
  - rewrite app_nth1 by (rewrite length_skipn; fold n; lia).
    rewrite nth_skipn, Nat.mod_small by lia. f_equal. lia.
  - rewrite app_nth2 by (rewrite length_skipn; fold n; lia).
    rewrite length_skipn. fold n. rewrite nth_firstn.
    replace (i - (n - off) <? off)%nat with true
      by (symmetry; apply Nat.ltb_lt; lia).
    f_equal.
    replace (i + off)%nat with ((i - (n - off)) + 1 * n)%nat by lia.
    rewrite Nat.Div0.mod_add, Nat.mod_small by lia. reflexivity.
Qed.

(** The frame [off] transitions later. *)
Lemma frame_position_shift (active : list RGBA) (steps : Z) (off k : nat) :
  0 <= steps ->
  let f := framesPerTransition steps in
  trackIndex active steps (k + off * f)
  = ((trackIndex active steps k + off) mod List.length active)%nat
  /\ subStep steps (k + off * f) = subStep steps k.
Proof.
  intros Hs f. unfold trackIndex, subStep. fold f.
  assert (Hf : f <> 0%nat) by (unfold f, framesPerTransition; lia).
  rewrite Nat.div_add, Nat.Div0.mod_add by exact Hf.
  split; [|reflexivity].
  now rewrite Nat.Div0.add_mod_idemp_l.
Qed.

(** X16: with no inactive colours configured, the inactive border runs
    half a cycle ahead of the active one: the inactive colour of a frame,
    wrapped in [glow(..)] when the active border glows, is the active
    colour of the frame that comes [len / 2] transitions later, where
    [len] is the number of colours. *)
Theorem inactive_runs_half_a_cycle_ahead (fuel : nat) (env : Env)
  (fc : Config) (parsed : list RGBA) (k : nat) (a b : borderArgs) :
  env_file env = Ok fc ->
  Colors (Inactive (resolve fc (env_flags env))) = [] ->
  parseColors (Colors (Active (resolve fc (env_flags env)))) = Ok parsed ->
  nth_error (runs (trace fuel env)) k = Some a ->
  nth_error (runs (trace fuel env))
    (k + List.length parsed / 2
         * framesPerTransition (stepsOf (resolve fc (env_flags env))))
  = Some b ->
  glowWrap (Glow (Active fc)) (inactive_color a) = active_color b.
Proof.
  intros Hf Hi Hp Ha Hb.
  set (cfg := resolve fc (env_flags env)) in *.
  pose proof (loadTracks_derived env fc parsed 0%nat Hf Hi Hp) as HL.
  cbv zeta in HL. fold cfg in HL.
  set (hc := Slice.alloc [] parsed (env_spare env)) in *.
  pose proof (SliceFacts.alloc_wf [] parsed (env_spare env)) as Hwf.
  pose proof (SliceFacts.alloc_elems [] parsed (env_spare env)) as Hel.
  fold hc in Hwf, Hel.
  destruct (deriveInactive_rotate (fst hc) (snd hc) (env_grow env) Hwf)
    as (Hrot & Hkeep & Hlen & Wi & Wc).
  set (hi := deriveInactive (fst hc) (snd hc) (env_grow env)) in *.
  rewrite Hel in Hrot. rewrite Hel in Hkeep.
  assert (Hn : Slice.length (snd hc) = List.length parsed) by reflexivity.
  rewrite Hn in Hrot.
  destruct (Z.le_gt_cases 0 (stepsOf cfg)) as [Hs | Hs].
  - rewrite (main_closed _ env _ _ _ _ _ _ HL Hlen Hs) in Ha, Hb.
    rewrite runs_frames in Ha, Hb. rewrite Hkeep, Hrot, Hn in Ha, Hb.
    set (off := (List.length parsed / 2)%nat) in *.
    set (f := framesPerTransition (stepsOf cfg)) in *.
    set (N := (fuel * (List.length parsed * f))%nat) in *.
    assert (Hk : (k + off * f < N)%nat).
    { destruct (Nat.lt_ge_cases (k + off * f) N) as [H | H]; [exact H|].
      rewrite (proj2 (nth_error_None _ _)) in Hb
        by (rewrite length_map, length_seq; exact H).
      discriminate Hb. }
    rewrite nth_error_map_seq in Ha, Hb by lia.
    assert (Hpos : (0 < List.length parsed)%nat).
    { destruct (List.length parsed); [|lia]. unfold N in Hk. lia. }
    assert (Hoff : (off <= List.length parsed)%nat)
      by (apply Nat.Div0.div_le_upper_bound; lia).
    injection Ha as <-. injection Hb as <-.
    unfold frameAt, frameArgs. cbn [inactive_color active_color].
    destruct (frame_position_shift parsed (stepsOf cfg) off k Hs)
      as [Hti Hss].
    fold f in Hti, Hss. rewrite Hti, Hss.
    destruct (resolve_glow fc (env_flags env)) as [Hga Hgi].
    fold cfg in Hga, Hgi. rewrite Hga, Hgi. cbn [glowWrap].
    set (i := trackIndex parsed (stepsOf cfg) k).
    assert (Hi' : (i < List.length parsed)%nat)
      by (apply Nat.mod_upper_bound; lia).
    assert (Hi1 : ((i + 1) mod List.length parsed < List.length parsed)%nat)
      by (apply Nat.mod_upper_bound; lia).
    unfold colorAt. rewrite !rotate_nth by assumption.
    rewrite Nat.Div0.add_mod_idemp_l.
    replace (((i + off) mod List.length parsed + 1) mod List.length parsed)%nat
      with ((i + 1 + off) mod List.length parsed)%nat; [reflexivity|].
    rewrite Nat.Div0.add_mod_idemp_l. f_equal. lia.
  - rewrite trace_cases, HL in Ha.
    replace (slen (snd hi) =? slen (snd hc)) with true in Ha
      by (symmetry; apply Z.eqb_eq; unfold slen; now rewrite Hlen).
    cbn [negb] in Ha.
    rewrite runs_notRun in Ha by (apply animate_no_runs; lia).
    destruct k; discriminate Ha.
Qed.

Lemma inactive_runs_half_a_cycle_ahead_witness :
  glowWrap false "0x33333333" = "0x33333333".
Proof.
  apply (inactive_runs_half_a_cycle_ahead 1 envFour
           (mkConfig emptyBorderConfig emptyBorderConfig)
           [mkRGBA 17 17 17 17; mkRGBA 34 34 34 34; mkRGBA 51 51 51 51;
            mkRGBA 68 68 68 68]
           0%nat
           (mkArgs "0x11111111" "0x33333333" (F64.of_Z 5))
           (mkArgs "0x33333333" "0x11111111" (F64.of_Z 5)));
    vm_compute; reflexivity.
Defined.

(** ** A transition without a whole step *)

Lemma lerp_nan (x y : Z) : lerp x y S754_nan = S754_nan.
Proof.
  unfold lerp. rewrite one_is.
  change (F64.sub (S754_finite false 4503599627370496 (-52)) S754_nan)
    with S754_nan.
  unfold F64.mul, F64.add.
  destruct (F64.of_Z x) as [s | s | | s m e]; reflexivity.
Qed.

Lemma interpolateColor_nan (c1 c2 : RGBA) :
  interpolateColor c1 c2 S754_nan = mkRGBA 0 0 0 0.
Proof.
  unfold interpolateColor, interpolateChannel. now rewrite !lerp_nan.
Qed.

Lemma map_const {X Y : Type} (c : Y) (f : X -> Y) (l : list X) :
  (forall x, f x = c) -> map f l = repeat c (List.length l).
Proof.
  intros H. induction l as [|x l IH]; cbn; [reflexivity|].
  now rewrite H, IH.
Qed.

(** X17: when [stepsPerTransition] comes out as 0 (the seconds per
    transition times the frames per second is below one), [t] is 0/0, not
    a number: each transition is one frame, and every frame of the run
    has all four channels at zero on both borders, whatever colours are
    configured. *)
Theorem zero_steps_blank_every_frame (fuel : nat) (env : Env)
  (t : list event) (n : nat) (cfg : Config) (h : Slice.store)
  (colors inactiveColors : Slice.t) :
  loadTracks env 0%nat = (t, n, Some (cfg, h, colors, inactiveColors)) ->
  Slice.length inactiveColors = Slice.length colors ->
  stepsOf cfg = 0 ->
  runs (trace fuel env)
  = repeat (mkArgs (glowWrap (Glow (Active cfg)) "0x00000000") "0x00000000"
              (Width (Active cfg)))
      (fuel * Slice.length colors).
Proof.
  intros HL Hlen Hs.
  rewrite (main_closed _ env t n cfg h colors inactiveColors HL Hlen
             ltac:(rewrite Hs; lia)).
  rewrite runs_frames, Hs.
  change (framesPerTransition 0) with 1%nat. rewrite Nat.mul_1_r.
  erewrite map_const; [rewrite length_seq; reflexivity|]. intros k.
  unfold frameAt, frameArgs, subStep.
  change (framesPerTransition 0) with 1%nat. rewrite Nat.mod_1_r.
  change (t_of 0 (Z.of_nat 0)) with S754_nan.
  rewrite !interpolateColor_nan.
  destruct (loadTracks_cfg _ _ _ _ _ _ _ _ HL) as (fc & _ & ->).
  destruct (resolve_glow fc (env_flags env)) as [_ ->].
  reflexivity.
Qed.

Lemma zero_steps_blank_every_frame_witness :
  runs (trace 2 envSlow)
  = repeat (mkArgs "0x00000000" "0x00000000" (F64.of_Z 5)) (2 * 2).
Proof.
  eapply (zero_steps_blank_every_frame 2 envSlow [] 0%nat
            (resolve (mkConfig emptyBorderConfig emptyBorderConfig)
               (env_flags envSlow))
            _ (Slice.mk 0 0 2 2) (Slice.mk 1 0 2 2)).
  - vm_compute. reflexivity.
  - reflexivity.
  - vm_compute. reflexivity.
Defined.

(** ** The two ends of a transition *)

Lemma magnitude_nonneg (f : float64) (v : Z) : magnitude f = Some v -> 0 <= v.
Proof.
  destruct f as [s | s | | s m e]; unfold magnitude; try discriminate.
  - intros H. assert (v = 0) by congruence. lia.
  - destruct (- scaleExp <=? e) eqn:He; [|discriminate].
    intros H. assert (Hv : v = Zpos m * 2 ^ (e + scaleExp)) by congruence.
    rewrite Hv. apply Z.mul_nonneg_nonneg; [lia|]. apply Z.pow_nonneg. lia.
Qed.

(** [float64(s)] of a positive [int] is a positive finite number. *)
Lemma of_Z_finite (s : Z) :
  1 <= s < 2 ^ 63 -> exists m e, F64.of_Z s = S754_finite false m e.
Proof.
  intros Hs. destruct s as [|p|p]; try lia.
  unfold F64.of_Z, binary_normalize.
  pose proof (digits2_bounds p) as [Hlo Hhi].
  set (k := Zpos (digits2_pos p)) in *.
  assert (Hk : 1 <= k <= 63).
  { split; [unfold k; lia|].
    destruct (Z.le_gt_cases k 63) as [H | H]; [exact H|].
    assert (2 ^ 63 <= 2 ^ (k - 1)) by (apply Z.pow_le_mono_r; lia). lia. }
  assert (Hup : Zpos p * 2 ^ (0 + scaleExp) < 2 ^ (k + scaleExp)).
  { rewrite (Z.pow_add_r 2 k scaleExp) by (unfold scaleExp; lia).
    apply Z.mul_lt_mono_pos_r; [apply pow2_pos; unfold scaleExp; lia|].
    exact Hhi. }
  destruct (round_bound false p 0 k ltac:(lia) ltac:(lia) Hup)
    as (r & v & Hr & Hm & Hsg & _ & Hv & _).
  fold F64.prec F64.emax in Hr. rewrite Hr.
  assert (Hpos : 0 < v).
  { assert (H1 : 2 ^ (k - 51 + scaleExp) <= 2 ^ (k - 1 + scaleExp))
      by (apply Z.pow_le_mono_r; unfold scaleExp; lia).
    assert (H2 : 2 ^ (k - 1 + scaleExp) <= Zpos p * 2 ^ (0 + scaleExp)).
    { rewrite (Z.pow_add_r 2 (k - 1) scaleExp) by (unfold scaleExp; lia).
      apply Z.mul_le_mono_nonneg_r;
        [apply Z.pow_nonneg; lia | exact Hlo]. }
    clear - H1 H2 Hv. lia. }
  destruct r as [sr | sr | | sr m e]; unfold magnitude, signBit in Hm, Hsg;
    try discriminate Hm.
  - assert (v = 0) by congruence. lia.
  - assert (sr = false) by congruence. subst sr. now exists m, e.
Qed.

Lemma div_eucl_exact (a b : Z) :
  b <> 0 -> Z.div_eucl (a * b) b = (a, 0).
Proof.
  intros Hb.
  assert (H : Z.div_eucl (a * b) b = ((a * b) / b, (a * b) mod b))
    by (unfold Z.div, Z.modulo; now destruct (Z.div_eucl (a * b) b)).
  now rewrite H, Z.div_mul, Z.mod_mul.
Qed.

(** A finite number divided by itself is one. *)
Lemma div_self (m : positive) (e : Z) :
  F64.div (S754_finite false m e) (S754_finite false m e) = F64.one.
Proof.
  unfold F64.div, SFdiv, SFdiv_core_binary.
  rewrite !Z.sub_diag.
  change (Z.min (fexp F64.prec F64.emax 0) 0) with (-53).
  change (0 - -53) with 53.
  rewrite Z.shiftl_mul_pow2 by lia.
  rewrite (Z.mul_comm (Zpos m)), div_eucl_exact by discriminate.
  replace (new_location (Zpos m) 0) with loc_Exact
    by (unfold new_location; destruct (Z.even (Zpos m)); reflexivity).
  reflexivity.
Qed.

(** The first and the last [t] of a transition are 0 and 1. *)
Lemma t_of_ends (steps : Z) :
  1 <= steps < 2 ^ 63 ->
  t_of steps 0 = F64.zero /\ t_of steps steps = F64.one.
Proof.
  intros Hs. destruct (of_Z_finite steps Hs) as (m & e & Hf).
  unfold t_of. rewrite Hf. split; [reflexivity | apply div_self].
Qed.

(** With at least one step per transition, the first [t] gives the
    colour the transition starts from and the last [t] the colour it ends
    on, both exactly. *)
Lemma interpolateColor_at_ends (steps : Z) (c1 c2 : RGBA) :
  1 <= steps < 2 ^ 63 -> wf_color c1 -> wf_color c2 ->
  interpolateColor c1 c2 (t_of steps 0) = c1
  /\ interpolateColor c1 c2 (t_of steps steps) = c2.
Proof.
  intros Hs (Hr1 & Hg1 & Hb1 & Ha1) (Hr2 & Hg2 & Hb2 & Ha2).
  destruct (t_of_ends steps Hs) as [-> ->].
  destruct c1 as [r1 g1 b1 a1], c2 as [r2 g2 b2 a2].
  cbn [R G B A] in *.
  unfold interpolateColor. cbn [R G B A].
  destruct (interpolateChannel_ends r1 r2 Hr1 Hr2) as [R0 R1].
  destruct (interpolateChannel_ends g1 g2 Hg1 Hg2) as [G0 G1].
  destruct (interpolateChannel_ends b1 b2 Hb1 Hb2) as [B0 B1].
  destruct (interpolateChannel_ends a1 a2 Ha1 Ha2) as [A0 A1].
  unfold F64.zero.
  now rewrite R0, G0, B0, A0, R1, G1, B1, A1.
Qed.

(** ** Interpolation does not overshoot *)

(** The product of a channel value and a non-negative float below 2. *)
Lemma byte_mul_bound (x : Z) (u : float64) (Uv : Z) :
  is_uint8 x ->
  magnitude u = Some Uv -> signBit u = Some false -> expAtLeast (-1100) u ->
  Uv < 2 * 2 ^ scaleExp ->
  exists Pv,
    magnitude (F64.mul (F64.of_Z x) u) = Some Pv
    /\ signBit (F64.mul (F64.of_Z x) u) = Some false
    /\ expAtLeast (-1200) (F64.mul (F64.of_Z x) u)
    /\ x * Uv - 512 * 2 ^ (scaleExp - 51) < Pv
       < x * Uv + 512 * 2 ^ (scaleExp - 51).
Proof.
  intros Hx HU HUs HUe HUlt.
  pose proof (exactByte_all x Hx) as HX. unfold exactByte in HX.
  unfold is_uint8 in Hx.
  set (D := 2 ^ scaleExp) in *. set (E := 2 ^ (scaleExp - 51)) in *.
  assert (HE : 0 < E) by (apply pow2_pos; unfold scaleExp; lia).
  assert (P9e : 2 ^ (9 - 51 + scaleExp) = 512 * E).
  { unfold E. replace (9 - 51 + scaleExp) with (9 + (scaleExp - 51)) by lia.
    rewrite Z.pow_add_r by (unfold scaleExp; lia). reflexivity. }
  assert (P9d : 2 ^ (9 + scaleExp) = 512 * D).
  { unfold D. rewrite Z.pow_add_r by (unfold scaleExp; lia). reflexivity. }
  pose proof (magnitude_nonneg u Uv HU) as HU0.
  destruct (F64.of_Z x) as [[|] | | | [|] mx ex] eqn:EX; try discriminate HX.
  - (* x = 0 *)
    apply Z.eqb_eq in HX. subst x. exists 0.
    destruct u as [su | su | | su mu eu];
      unfold magnitude, signBit in HU, HUs; try discriminate HU;
      assert (su = false) by congruence; subst su;
      (split; [reflexivity|]); (split; [reflexivity|]);
      (split; [exact I|]); clear - HE; lia.
  - apply andb_true_iff in HX. destruct HX as [HX HXm].
    apply andb_true_iff in HX. destruct HX as [HXl HXh].
    apply Z.leb_le in HXl, HXh. apply Z.eqb_eq in HXm.
    assert (HxU : x * Uv < 512 * D).
    { assert (x * Uv <= 255 * Uv)
        by (apply Z.mul_le_mono_nonneg_r; clear - Hx HU0; lia).
      clear - H HUlt. lia. }
    destruct (mul_bound mx ex x u Uv 9
                ltac:(clear - HXl HXh; lia) HXm HU HUs HUe ltac:(clear; lia)
                ltac:(rewrite P9d; exact HxU))
      as (Pv & HP & HPs & HPe & HPb).
    rewrite P9e in HPb. exists Pv. repeat split; try assumption; apply HPb.
Qed.

(** Interpolating between two channel values, strictly inside the
    interval: the result is between the two, or one below the smaller. *)
Lemma interpolateChannel_inside (x y : Z) (mt : positive) (et : Z) :
  is_uint8 x -> is_uint8 y -> -1074 <= et <= -53 -> Zpos mt < 2 ^ 53 ->
  between x y (interpolateChannel x y (S754_finite false mt et)).
Proof.
  intros Hx Hy Het Hmt. set (t := S754_finite false mt et).
  destruct (sub_one_bound mt et Het Hmt) as (Uv & HU & HUs & HUe & HUb).
  fold t in HU, HUs, HUe.
  unfold interpolateChannel, lerp.
  set (D := 2 ^ scaleExp) in *.
  set (E := 2 ^ (scaleExp - 51)) in *.
  assert (HE : 0 < E) by (apply pow2_pos; unfold scaleExp; lia).
  assert (HD : D = 2251799813685248 * E).
  { unfold D, E. replace scaleExp with (51 + (scaleExp - 51)) at 1 by lia.
    rewrite Z.pow_add_r by (unfold scaleExp; lia). reflexivity. }
  assert (HDpos : 0 < D) by (clear - HD HE; lia).
  set (Tv := Zpos mt * 2 ^ (et + scaleExp)) in *.
  assert (HT : 0 < Tv < D).
  { unfold Tv, D. split.
    - apply Z.mul_pos_pos; [lia|]. apply pow2_pos. unfold scaleExp; lia.
    - replace scaleExp with (- et + (et + scaleExp)) at 2 by lia.
      rewrite (Z.pow_add_r 2 (- et)) by (unfold scaleExp; lia).
      apply Z.mul_lt_mono_pos_r; [apply pow2_pos; unfold scaleExp; lia|].
      assert (2 ^ 53 <= 2 ^ (- et)) by (apply Z.pow_le_mono_r; lia). lia. }
  assert (Htm : magnitude t = Some Tv).
  { unfold t, magnitude.
    destruct (Z.leb_spec (- scaleExp) et); [reflexivity|].
    unfold scaleExp in *. lia. }
  assert (P10 : 2 ^ (10 - 51 + scaleExp) = 1024 * E
                /\ 2 ^ (10 + scaleExp) = 1024 * D).
  { unfold D, E. split.
    - replace (10 - 51 + scaleExp) with (10 + (scaleExp - 51)) by lia.
      rewrite Z.pow_add_r by (unfold scaleExp; lia). reflexivity.
    - rewrite Z.pow_add_r by (unfold scaleExp; lia). reflexivity. }
  destruct P10 as (P10e & P10d).
  (* x * (1 - t) and y * t *)
  destruct (byte_mul_bound x (F64.sub F64.one t) Uv Hx HU HUs HUe
              ltac:(fold D; clear - HUb HT HD HE; lia))
    as (P1 & HP1 & HP1s & HP1e & HP1b).
  destruct (byte_mul_bound y t Tv Hy Htm eq_refl
              ltac:(unfold t; cbn [expAtLeast]; clear - Het; lia)
              ltac:(fold D; clear - HT; lia))
    as (P2 & HP2 & HP2s & HP2e & HP2b).
  fold E in HP1b, HP2b.
  unfold is_uint8 in Hx, Hy.
  (* the products, as linear facts *)
  assert (HxU : x * (D - Tv - E) <= x * Uv <= x * (D - Tv + E))
    by (split; apply Z.mul_le_mono_nonneg_l; clear - HUb Hx; lia).
  assert (HxE : 0 <= x * E <= 255 * E)
    by (split; [apply Z.mul_nonneg_nonneg
               | apply Z.mul_le_mono_nonneg_r]; clear - HE Hx; lia).
  assert (HxT : 0 <= x * Tv) by (apply Z.mul_nonneg_nonneg; clear - HT Hx; lia).
  assert (HyT : 0 <= y * Tv) by (apply Z.mul_nonneg_nonneg; clear - HT Hy; lia).
  assert (HxD : x * Tv <= x * D)
    by (apply Z.mul_le_mono_nonneg_l; clear - HT Hx; lia).
  assert (HyD : y * Tv <= y * D)
    by (apply Z.mul_le_mono_nonneg_l; clear - HT Hy; lia).
  assert (HyD' : y * D <= 255 * D)
    by (apply Z.mul_le_mono_nonneg_r; clear - HDpos Hy; lia).
  assert (HxD' : x * D <= 255 * D)
    by (apply Z.mul_le_mono_nonneg_r; clear - HDpos Hx; lia).
  (* their sum *)
  destruct (add_bound _ _ P1 P2 10 HP1 HP1s HP1e HP2 HP2s HP2e
              ltac:(clear; lia)
              ltac:(rewrite P10d;
                    clear - HP1b HP2b HxU HxE HxT HyT HxD HyD HxD' HyD'
                              HD HE;
                    lia))
    as (Sv & HS & HSs & HSb).
  rewrite P10e in HSb.
  pose proof (magnitude_nonneg _ Sv HS) as HS0.
  unfold F64.to_uint8. rewrite (trunc_magnitude _ Sv HS HSs). fold D.
  (* the sum lies between the two values, scaled *)
  assert (Hmid : Z.min x y * D <= x * D - x * Tv + y * Tv <= Z.max x y * D).
  { destruct (Z.le_gt_cases x y) as [Hxy | Hxy].
    - rewrite Z.min_l, Z.max_r by exact Hxy.
      assert (x * Tv <= y * Tv)
        by (apply Z.mul_le_mono_nonneg_r; clear - HT Hxy; lia).
      assert (0 <= (y - x) * (D - Tv))
        by (apply Z.mul_nonneg_nonneg; clear - HT Hxy; lia).
      clear - H H0. lia.
    - rewrite Z.min_r, Z.max_l by (clear - Hxy; lia).
      assert (y * Tv <= x * Tv)
        by (apply Z.mul_le_mono_nonneg_r; clear - HT Hxy; lia).
      assert (0 <= (x - y) * (D - Tv))
        by (apply Z.mul_nonneg_nonneg; clear - HT Hxy; lia).
      clear - H H0. lia. }
  set (lo := Z.min x y) in *. set (hi := Z.max x y) in *.
  assert (Hlohi : 0 <= lo /\ hi <= 255) by (unfold lo, hi; clear - Hx Hy; lia).
  assert (Hlo : lo - 1 <= Sv / D)
    by (apply Z.div_le_lower_bound; [exact HDpos|];
        replace (D * (lo - 1)) with (lo * D - D) by ring;
        clear - HSb HP1b HP2b HxU HxE Hmid HD HE; lia).
  assert (Hhi : Sv / D < hi + 1)
    by (apply Z.div_lt_upper_bound; [exact HDpos|];
        replace (D * (hi + 1)) with (hi * D + D) by ring;
        clear - HSb HP1b HP2b HxU HxE Hmid HD HE; lia).
  assert (H0 : 0 <= Sv / D) by (apply Z.div_pos; [exact HS0 | exact HDpos]).
  assert (Hr : 0 <= Sv / D < 256) by (clear - Hhi H0 Hlohi; lia).
  replace ((- 2 ^ 31 <=? Sv / D) && (Sv / D <? 2 ^ 31)) with true
    by (symmetry; apply andb_true_iff; split;
        [apply Z.leb_le | apply Z.ltb_lt]; clear - Hr; lia).
  rewrite Z.mod_small by exact Hr.
  unfold between. fold lo hi. clear - Hlo Hhi H0. lia.
Qed.

Lemma between_left (x y : Z) : is_uint8 x -> between x y x.
Proof. unfold between, is_uint8. lia. Qed.

Lemma between_right (x y : Z) : is_uint8 y -> between x y y.
Proof. unfold between, is_uint8. lia. Qed.

Lemma interpolateChannel_between (x y : Z) (t : float64) :
  is_uint8 x -> is_uint8 y -> inUnitInterval t ->
  between x y (interpolateChannel x y t).
Proof.
  intros Hx Hy (Hv & H0 & H1).
  destruct (interpolateChannel_ends x y Hx Hy) as [E0 E1].
  destruct (unit_interval_cases t Hv H0 H1)
    as [[s ->] | [-> | (mt & et & -> & Het & Hmt)]].
  - rewrite E0. now apply between_left.
  - rewrite E1. now apply between_right.
  - now apply interpolateChannel_inside.
Qed.

(** X18: interpolation never overshoots: for every [t] between 0 and
    1, each channel of the interpolated colour lies between the channels
    of the two colours, or one below the smaller of them (the sum is
    rounded, then truncated), and is never negative.  So a channel that
    both colours hold at 255, as the alpha of an opaque colour, never wraps
    around, and it never drops below 254. *)
Theorem interpolation_stays_between (c1 c2 : RGBA) (t : float64) :
  wf_color c1 -> wf_color c2 -> inUnitInterval t ->
  betweenColors c1 c2 (interpolateColor c1 c2 t).
Proof.
  intros (Hr1 & Hg1 & Hb1 & Ha1) (Hr2 & Hg2 & Hb2 & Ha2) Ht.
  unfold betweenColors, interpolateColor. cbn [R G B A].
  split; [|split; [|split]]; apply interpolateChannel_between; assumption.
Qed.

Lemma interpolation_stays_between_witness :
  betweenColors (mkRGBA 255 165 0 255) (mkRGBA 0 128 0 255)
    (interpolateColor (mkRGBA 255 165 0 255) (mkRGBA 0 128 0 255)
       (F64.div (F64.of_Z 4) (F64.of_Z 9))).
Proof.
  apply (interpolation_stays_between (mkRGBA 255 165 0 255)
           (mkRGBA 0 128 0 255) (F64.div (F64.of_Z 4) (F64.of_Z 9))).
  - unfold wf_color, is_uint8. simpl. lia.
  - unfold wf_color, is_uint8. simpl. lia.
  - unfold inUnitInterval. repeat split; reflexivity.
Defined.

(** ** The timing of every configuration *)

Lemma to_int64_cases (f : float64) :
  (exists z, F64.trunc f = Some z /\ - 2 ^ 63 <= z < 2 ^ 63
             /\ F64.to_int64 f = z)
  \/ F64.to_int64 f = - 2 ^ 63.
Proof.
  unfold F64.to_int64. destruct (F64.trunc f) as [z|]; [|now right].
  destruct ((- 2 ^ 63 <=? z) && (z <? 2 ^ 63)) eqn:Hr; [|now right].
  left. exists z. apply andb_true_iff in Hr. destruct Hr as [H1 H2].
  apply Z.leb_le in H1. apply Z.ltb_lt in H2. repeat split; assumption.
Qed.

(** X19: whatever the file and the flags hold, the number of steps per
    transition and the delay between frames that [main] derives are never
    negative, but for the one value, [-2^63], that the conversion to an
    integer gives on amd64 when the product does not fit 64 bits. *)
Theorem timing_is_never_negative (fc : Config) (fl : Flags) :
  let cfg := resolve fc fl in
  (0 <= stepsOf cfg \/ stepsOf cfg = - 2 ^ 63)
  /\ (0 <= delayOf cfg \/ delayOf cfg = - 2 ^ 63).
Proof.
  intros cfg. destruct (resolve_positive fc fl) as (Hs & Hf & _).
  fold cfg in Hs, Hf. split.
  - unfold stepsOf.
    destruct (to_int64_cases (F64.mul (Secs (Active cfg)) (FPS (Active cfg))))
      as [(z & Hz & _ & ->) | ->]; [left | now right].
    exact (mul_trunc_nonneg _ _ z (gt0_sign _ Hs) (gt0_sign _ Hf) Hz).
  - unfold delayOf.
    destruct (to_int64_cases
                (F64.mul (F64.div F64.one (FPS (Active cfg))) second))
      as [(z & Hz & _ & ->) | ->]; [left | now right].
    exact (mul_trunc_nonneg (F64.div F64.one (FPS (Active cfg))) second z
             (div_one_sign _ Hf) eq_refl Hz).
Qed.

(** ** The [t] of every step of a transition *)

Lemma Zdigits2_eq (q k : Z) :
  0 < k -> 2 ^ (k - 1) <= q < 2 ^ k -> Zdigits2 q = k.
Proof.
  intros Hk [Hlo Hhi].
  assert (Hp : 0 < 2 ^ (k - 1)) by (apply Z.pow_pos_nonneg; lia).
  destruct q as [|p|p]; try lia. cbn [Zdigits2].
  pose proof (digits2_bounds p) as [Dlo Dhi].
  set (d := Zpos (digits2_pos p)) in *.
  assert (H1 : 2 ^ (k - 1) < 2 ^ d) by lia.
  assert (H2 : 2 ^ (d - 1) < 2 ^ k) by lia.
  apply Z.pow_lt_mono_r_iff in H1; [|lia|unfold d; lia].
  apply Z.pow_lt_mono_r_iff in H2; lia.
Qed.

(** A mantissa of 53 digits at an exponent of the format is left as it
    is. *)
Lemma shr_fexp_id (m e : Z) :
  2 ^ 52 <= m < 2 ^ 53 -> -1074 <= e ->
  shr_fexp 53 1024 m e loc_Exact = (Build_shr_record m false false, e).
Proof.
  intros Hm He. unfold shr_fexp.
  rewrite (Zdigits2_eq m 53) by (try exact Hm; lia).
  rewrite fexp64. replace (Z.max (53 + e - 53) (-1074) - e) with 0 by lia.
  reflexivity.
Qed.

Lemma round_aux_exact (sx : bool) (m : positive) (e : Z) :
  2 ^ 52 <= Zpos m < 2 ^ 53 -> -1074 <= e <= 971 ->
  binary_round_aux 53 1024 sx (Zpos m) e loc_Exact = S754_finite sx m e.
Proof.
  intros Hm He. unfold binary_round_aux.
  rewrite (shr_fexp_id (Zpos m) e Hm) by lia.
  cbn [shr_m loc_of_shr_record round_nearest_even].
  rewrite (shr_fexp_id (Zpos m) e Hm) by lia.
  cbn [shr_m].
  replace (e <=? 1024 - 53) with true by (symmetry; apply Z.leb_le; lia).
  reflexivity.
Qed.

(** [float64(s)] holds an [s] below 2^53 exactly, on 53 digits. *)
Lemma of_Z_normal (s : Z) :
  1 <= s < 2 ^ 53 ->
  exists m e,
    F64.of_Z s = S754_finite false m e
    /\ 2 ^ 52 <= Zpos m < 2 ^ 53 /\ -52 <= e <= 0
    /\ Zpos m * 2 ^ (52 + e) = s * 2 ^ 52.
Proof.
  intros Hs. destruct s as [|p|p]; try lia.
  unfold F64.of_Z, binary_normalize, binary_round.
  change F64.prec with 53. change F64.emax with 1024.
  pose proof (digits2_bounds p) as [Dlo Dhi].
  set (d := Zpos (digits2_pos p)) in *.
  assert (Hd : 1 <= d <= 53).
  { split; [unfold d; lia|].
    destruct (Z.le_gt_cases d 53) as [H | H]; [exact H|].
    assert (2 ^ 53 <= 2 ^ (d - 1)) by (apply Z.pow_le_mono_r; lia). lia. }
  rewrite fexp64.
  replace (Z.max (d + 0 - 53) (-1074)) with (d - 53) by lia.
  destruct (shl_align_spec p 0 (d - 53)) as [Hsnd Hfst].
  destruct (shl_align p 0 (d - 53)) as [mz ez]. cbn [fst snd] in Hsnd, Hfst.
  replace (Z.min 0 (d - 53)) with (d - 53) in Hsnd, Hfst by lia.
  replace (0 - (d - 53)) with (53 - d) in Hfst by lia.
  subst ez.
  assert (Hmz : 2 ^ 52 <= Zpos mz < 2 ^ 53).
  { rewrite Hfst. split.
    - replace 52 with ((d - 1) + (53 - d)) by lia.
      rewrite (Z.pow_add_r 2 (d - 1) (53 - d)) by lia.
      apply Z.mul_le_mono_nonneg_r; [apply Z.pow_nonneg; lia | exact Dlo].
    - replace 53 with (d + (53 - d)) at 2 by lia.
      rewrite (Z.pow_add_r 2 d (53 - d)) by lia.
      apply Z.mul_lt_mono_pos_r; [apply Z.pow_pos_nonneg; lia | exact Dhi]. }
  rewrite (round_aux_exact false mz (d - 53) Hmz) by lia.
  exists mz, (d - 53). split; [reflexivity|]. split; [exact Hmz|].
  split; [lia|].
  rewrite Hfst, <- Z.mul_assoc, <- Z.pow_add_r by lia.
  f_equal. f_equal. lia.
Qed.

(** Rounding a quotient below one: the result is one, or a positive
    number with an exponent below -52. *)
Lemma round_aux_below_one (q e : Z) (l : location) :
  2 ^ 52 <= q < 2 ^ 54 -> -1000 <= e <= 0 -> q < 2 ^ (- e) ->
  binary_round_aux 53 1024 false q e l = F64.one
  \/ exists m e2,
       binary_round_aux 53 1024 false q e l = S754_finite false m e2
       /\ -1074 <= e2 <= -53 /\ Zpos m < 2 ^ 53.
Proof.
  intros Hq He Hv. unfold binary_round_aux.
  pose proof (shr_fexp_spec q e l ltac:(lia)) as S1. cbv zeta in S1.
  set (n1 := fexp 53 1024 (Zdigits2 q + e) - e) in *.
  destruct (shr_fexp 53 1024 q e l) as [mrs1 e1].
  cbn [fst snd] in S1. destruct S1 as (Hm1 & He1 & _).
  set (m1 := shr_m mrs1) in *.
  assert (H1 : 2 ^ 52 <= m1 < 2 ^ 53 /\ e1 <= -53 /\ e <= e1).
  { destruct (Z.lt_ge_cases q (2 ^ 53)) as [Hlt | Hge].
    - assert (Hn : n1 = 0)
        by (unfold n1; rewrite fexp64, (Zdigits2_eq q 53) by lia; lia).
      rewrite Hn in Hm1, He1. cbn [Z.max] in Hm1, He1.
      rewrite Z.pow_0_r, Z.div_1_r in Hm1. rewrite Hm1.
      split; [lia|]. split; [|lia].
      assert (H : 2 ^ 52 < 2 ^ (- e)) by lia.
      apply Z.pow_lt_mono_r_iff in H; lia.
    - assert (Hn : n1 = 1)
        by (unfold n1; rewrite fexp64, (Zdigits2_eq q 54) by lia; lia).
      rewrite Hn in Hm1, He1. cbn [Z.max] in Hm1, He1.
      change (Z.max 1 0) with 1 in Hm1, He1.
      rewrite Z.pow_1_r in Hm1. rewrite Hm1.
      split; [Z.div_mod_to_equations; lia|]. split; [|lia].
      assert (H : 2 ^ 53 < 2 ^ (- e)) by lia.
      apply Z.pow_lt_mono_r_iff in H; lia. }
  destruct H1 as (Hm1r & He1hi & He1lo).
  set (mr := round_nearest_even m1 (loc_of_shr_record mrs1)).
  pose proof (round_nearest_even_range m1 (loc_of_shr_record mrs1)) as Hr.
  fold mr in Hr.
  destruct (Z.lt_ge_cases mr (2 ^ 53)) as [Hlt | Hge].
  - (* no carry *)
    rewrite (shr_fexp_id mr e1) by lia. cbn [shr_m].
    destruct mr as [|p|p] eqn:Emr; try lia.
    replace (e1 <=? 1024 - 53) with true by (symmetry; apply Z.leb_le; lia).
    right. exists p, e1. split; [reflexivity|]. split; lia.
  - (* the rounding carries into a 54th digit *)
    assert (Emr : mr = 2 ^ 53) by lia.
    rewrite Emr. unfold shr_fexp.
    rewrite (Zdigits2_eq (2 ^ 53) 54) by lia.
    rewrite fexp64.
    replace (Z.max (54 + e1 - 53) (-1074) - e1) with 1 by lia.
    change (shr_m (fst (shr (shr_record_of_loc (2 ^ 53) loc_Exact) e1 1)))
      with 4503599627370496.
    cbn [shr shr_record_of_loc iter_pos fst snd].
    change (shr_m (shr_1 (Build_shr_record (2 ^ 53) false false)))
      with 4503599627370496.
    replace (e1 + 1 <=? 1024 - 53) with true
      by (symmetry; apply Z.leb_le; lia).
    destruct (Z.eq_dec e1 (-53)) as [-> | Hne].
    + left. rewrite one_is. reflexivity.
    + right. exists 4503599627370496%positive, (e1 + 1).
      split; [reflexivity|]. split; lia.
Qed.

(** The quotient of two positive numbers of 53 digits, the first below
    the second. *)
Lemma div_below_one (mA mB : positive) (eA eB : Z) :
  2 ^ 52 <= Zpos mA < 2 ^ 53 -> 2 ^ 52 <= Zpos mB < 2 ^ 53 ->
  -52 <= eA <= 0 -> -52 <= eB <= 0 ->
  Zpos mA * 2 ^ (52 + eA) < Zpos mB * 2 ^ (52 + eB) ->
  let t := F64.div (S754_finite false mA eA) (S754_finite false mB eB) in
  t = F64.one
  \/ exists m e, t = S754_finite false m e
                 /\ -1074 <= e <= -53 /\ Zpos m < 2 ^ 53.
Proof.
  intros HA HB HeA HeB Hlt t. subst t.
  unfold F64.div, SFdiv, SFdiv_core_binary. cbn [xorb].
  change F64.prec with 53. change F64.emax with 1024.
  rewrite (Zdigits2_eq (Zpos mA) 53), (Zdigits2_eq (Zpos mB) 53)
    by (try assumption; lia).
  rewrite fexp64.
  replace (Z.min (Z.max (53 + eA - (53 + eB) - 53) (-1074)) (eA - eB))
    with (eA - eB - 53) by lia.
  replace (eA - eB - (eA - eB - 53)) with 53 by lia.
  cbv beta iota.
  rewrite Z.shiftl_mul_pow2 by lia.
  pose proof (Z_div_mod (Zpos mA * 2 ^ 53) (Zpos mB) ltac:(lia)) as Hdm.
  destruct (Z.div_eucl (Zpos mA * 2 ^ 53) (Zpos mB)) as [q r].
  destruct Hdm as [Heq Hr].
  set (a := Zpos mA) in *. set (b := Zpos mB) in *.
  apply round_aux_below_one.
  - split.
    + destruct (Z.lt_ge_cases q (2 ^ 52)) as [Hq | Hq]; [|exact Hq].
      exfalso.
      assert (H : b * (q + 1) <= b * 2 ^ 52)
        by (apply Z.mul_le_mono_nonneg_l; clear - HB Hq; lia).
      clear - H Heq Hr HA HB. lia.
    + destruct (Z.lt_ge_cases q (2 ^ 54)) as [Hq | Hq]; [exact Hq|].
      exfalso.
      assert (H : b * 2 ^ 54 <= b * q)
        by (apply Z.mul_le_mono_nonneg_l; clear - HB Hq; lia).
      clear - H Heq Hr HA HB. lia.
  - lia.
  - set (PA := 2 ^ (52 + eA)) in *. set (PB := 2 ^ (52 + eB)) in *.
    assert (HPA : 0 < PA) by (apply Z.pow_pos_nonneg; lia).
    assert (Hpow : 2 ^ (- (eA - eB - 53)) * PA = PB * 2 ^ 53).
    { unfold PA, PB. rewrite <- !Z.pow_add_r by lia. f_equal. lia. }
    set (Zv := 2 ^ (- (eA - eB - 53))) in *.
    destruct (Z.lt_ge_cases q Zv) as [Hq | Hq]; [exact Hq|].
    exfalso.
    assert (S1 : (b * q) * PA <= (a * 2 ^ 53) * PA)
      by (apply Z.mul_le_mono_nonneg_r; clear - Heq Hr HPA; lia).
    assert (S2 : Zv * PA <= q * PA)
      by (apply Z.mul_le_mono_nonneg_r; clear - Hq HPA; lia).
    assert (S3 : (Zv * PA) * b <= (q * PA) * b)
      by (apply Z.mul_le_mono_nonneg_r; clear - S2 HB; lia).
    rewrite Hpow in S3.
    clear - S1 S3 Hlt. lia.
Qed.

(** The [t] of a step: zero, one, or a number strictly between them. *)
Lemma t_of_cases (steps step : Z) :
  1 <= steps < 2 ^ 53 -> 0 <= step <= steps ->
  t_of steps step = F64.zero \/ t_of steps step = F64.one
  \/ exists m e, t_of steps step = S754_finite false m e
                 /\ -1074 <= e <= -53 /\ Zpos m < 2 ^ 53.
Proof.
  intros Hs Hstep.
  assert (Hs63 : 1 <= steps < 2 ^ 63) by lia.
  destruct (t_of_ends steps Hs63) as [E0 E1].
  destruct (Z.eq_dec step 0) as [-> | Hn0]; [now left|].
  destruct (Z.eq_dec step steps) as [-> | Hne]; [now right; left|].
  right.
  destruct (of_Z_normal step ltac:(lia)) as (mA & eA & HA & HmA & HeA & HvA).
  destruct (of_Z_normal steps Hs) as (mB & eB & HB & HmB & HeB & HvB).
  unfold t_of. rewrite HA, HB.
  apply div_below_one; try assumption.
  rewrite HvA, HvB. lia.
Qed.

(** Every step of a transition of up to 2^53 steps gives a colour
    between the two colours of the transition. *)
Lemma interpolateColor_step_between (steps step : Z) (c1 c2 : RGBA) :
  1 <= steps < 2 ^ 53 -> 0 <= step <= steps ->
  wf_color c1 -> wf_color c2 ->
  betweenColors c1 c2 (interpolateColor c1 c2 (t_of steps step)).
Proof.
  intros Hs Hstep (Hr1 & Hg1 & Hb1 & Ha1) (Hr2 & Hg2 & Hb2 & Ha2).
  unfold betweenColors, interpolateColor. cbn [R G B A].
  assert (H : forall x y, is_uint8 x -> is_uint8 y ->
                between x y (interpolateChannel x y (t_of steps step))).
  { intros x y Hx Hy.
    destruct (interpolateChannel_ends x y Hx Hy) as [E0 E1].
    destruct (t_of_cases steps step Hs Hstep)
      as [-> | [-> | (m & e & -> & He & Hm)]].
    - unfold F64.zero. rewrite E0. now apply between_left.
    - rewrite E1. now apply between_right.
    - now apply interpolateChannel_inside. }
  split; [|split; [|split]]; apply H; assumption.
Qed.

(** ** Every frame of a run *)

Lemma colorAt_wf (l : list RGBA) (i : nat) :
  Forall wf_color l -> wf_color (colorAt l i).
Proof.
  intros H. unfold colorAt.
  destruct (nth_in_or_default i l Slice.zeroColor) as [Hin | ->].
  - rewrite Forall_forall in H. now apply H.
  - unfold wf_color, is_uint8. cbn. lia.
Qed.

(** The colours of both tracks have bytes for channels. *)
Lemma loadTracks_colours env n t n' cfg h colors inactiveColors :
  loadTracks env n = (t, n', Some (cfg, h, colors, inactiveColors)) ->
  Forall wf_color (Slice.elems h colors)
  /\ Forall wf_color (Slice.elems h inactiveColors).
Proof.
  unfold loadTracks, bind, ret, Printf, Exit.
  destruct (env_file env) as [fc|e]; cbn; [|discriminate].
  destruct (parseColors (Colors (Active (resolve fc (env_flags env)))))
    as [pa|e] eqn:Hpa; cbn; [|discriminate].
  pose proof (parseColors_wf _ _ Hpa) as Wpa.
  pose proof (SliceFacts.alloc_wf [] pa (env_spare env)) as Hwf.
  pose proof (SliceFacts.alloc_elems [] pa (env_spare env)) as Hel.
  destruct (0 <? Z.of_nat (List.length (Colors (Inactive
                (resolve fc (env_flags env)))))).
  - destruct (parseColors (Colors (Inactive (resolve fc (env_flags env)))))
      as [pi|e] eqn:Hpi; cbn; [|discriminate].
    pose proof (parseColors_wf _ _ Hpi) as Wpi.
    intros H. injection H as _ _ _ <- <- <-.
    split.
    + exact (eq_ind_r (Forall wf_color) Wpa
               (eq_trans (proj2 (alloc_keeps _ pi (env_spare env) _ Hwf)) Hel)).
    + exact (eq_ind_r (Forall wf_color) Wpi
               (SliceFacts.alloc_elems
                  (fst (Slice.alloc [] pa (env_spare env))) pi
                  (env_spare env))).
  - cbn.
    pose proof (deriveInactive_rotate _ _ (env_grow env) Hwf)
      as (Hrot & Hkeep & _).
    rewrite Hel in Hrot, Hkeep.
    assert (W2 : Forall wf_color
                   (Slice.elems
                      (fst (deriveInactive
                              (fst (Slice.alloc [] pa (env_spare env)))
                              (snd (Slice.alloc [] pa (env_spare env)))
                              (env_grow env)))
                      (snd (deriveInactive
                              (fst (Slice.alloc [] pa (env_spare env)))
                              (snd (Slice.alloc [] pa (env_spare env)))
                              (env_grow env))))).
    { rewrite Hrot. pose proof Wpa as W.
      rewrite <- (firstn_skipn (List.length pa / 2) pa) in W.
      apply Forall_app in W. destruct W as [Wf Ws].
      apply Forall_app. split; assumption. }
    assert (W1 : Forall wf_color
                   (Slice.elems
                      (fst (deriveInactive
                              (fst (Slice.alloc [] pa (env_spare env)))
                              (snd (Slice.alloc [] pa (env_spare env)))
                              (env_grow env)))
                      (snd (Slice.alloc [] pa (env_spare env)))))
      by (rewrite Hkeep; exact Wpa).
    clear Hrot Hkeep Hel Hwf.
    destruct (deriveInactive _ _ _) as [h2 s2]. cbn in *.
    intros H. injection H as _ _ _ <- <- <-. split; assumption.
Qed.

(** X20: every frame lies between the two colours of its transition.
    In a run with at least one and fewer than 2^53 steps per transition,
    the frame numbered [k] shows, on the active and on the inactive
    border, a colour each channel of which is between the channels of the
    colour its transition starts from and of the colour it ends on, or one
    below the smaller of the two. *)
Theorem every_frame_is_between_its_colours (fuel : nat) (env : Env)
  (t : list event) (n : nat) (cfg : Config) (h : Slice.store)
  (colors inactiveColors : Slice.t) (k : nat) (a : borderArgs) :
  loadTracks env 0%nat = (t, n, Some (cfg, h, colors, inactiveColors)) ->
  Slice.length inactiveColors = Slice.length colors ->
  1 <= stepsOf cfg < 2 ^ 53 ->
  nth_error (runs (trace fuel env)) k = Some a ->
  let active := Slice.elems h colors in
  let inactive := Slice.elems h inactiveColors in
  let i := trackIndex active (stepsOf cfg) k in
  let j := ((i + 1) mod List.length active)%nat in
  exists ca ci,
    active_color a = glowWrap (Glow (Active cfg)) (colorToHex ca)
    /\ inactive_color a = colorToHex ci
    /\ betweenColors (colorAt active i) (colorAt active j) ca
    /\ betweenColors (colorAt inactive i) (colorAt inactive j) ci.
Proof.
  intros HL Hlen Hs Ha active inactive i j.
  rewrite (main_closed _ env t n cfg h colors inactiveColors HL Hlen
             ltac:(lia)) in Ha.
  rewrite runs_frames in Ha. fold active inactive in Ha.
  set (N := (fuel * (Slice.length colors
                     * framesPerTransition (stepsOf cfg)))%nat) in *.
  assert (Hk : (k < N)%nat).
  { destruct (Nat.lt_ge_cases k N) as [H | H]; [exact H|].
    rewrite (proj2 (nth_error_None _ _)) in Ha
      by (rewrite length_map, length_seq; exact H).
    discriminate Ha. }
  rewrite nth_error_map_seq in Ha by exact Hk.
  injection Ha as <-.
  destruct (loadTracks_colours _ _ _ _ _ _ _ _ HL) as [Wa Wi].
  fold active in Wa. fold inactive in Wi.
  destruct (loadTracks_cfg _ _ _ _ _ _ _ _ HL) as (fc & _ & Hcfg).
  assert (Hgi : Glow (Inactive cfg) = false)
    by (rewrite Hcfg; apply resolve_glow).
  unfold frameAt, frameArgs. cbn [active_color inactive_color].
  fold i j. rewrite Hgi. cbn [glowWrap].
  set (step := Z.of_nat (subStep (stepsOf cfg) k)).
  assert (Hstep : 0 <= step <= stepsOf cfg).
  { unfold step, subStep, framesPerTransition.
    pose proof (Nat.mod_upper_bound k (Z.to_nat (stepsOf cfg + 1))
                  ltac:(lia)).
    lia. }
  exists (interpolateColor (colorAt active i) (colorAt active j)
            (t_of (stepsOf cfg) step)),
         (interpolateColor (colorAt inactive i) (colorAt inactive j)
            (t_of (stepsOf cfg) step)).
  split; [reflexivity|]. split; [reflexivity|].
  split; apply interpolateColor_step_between;
    try assumption; apply colorAt_wf; assumption.
Qed.

Lemma every_frame_is_between_its_colours_witness :
  exists ca ci,
    "0xFF7F007F" = glowWrap false (colorToHex ca)
    /\ "0xFF7F007F" = colorToHex ci
    /\ betweenColors (mkRGBA 255 0 0 255) (mkRGBA 0 0 255 255) ca
    /\ betweenColors (mkRGBA 0 0 255 255) (mkRGBA 255 0 0 255) ci.
Proof.
  apply (every_frame_is_between_its_colours 1 envTwo [] 0%nat
           (resolve (mkConfig emptyBorderConfig emptyBorderConfig)
              (env_flags envTwo))
           [[mkRGBA 255 0 0 255; mkRGBA 0 0 255 255];
            [mkRGBA 0 0 255 255; mkRGBA 255 0 0 255]]
           (Slice.mk 0 0 2 2) (Slice.mk 1 0 2 2) 1%nat
           (mkArgs "0xFF7F007F" "0xFF7F007F" (F64.of_Z 5))).
  - vm_compute. reflexivity.
  - reflexivity.
  - assert (E : stepsOf (resolve (mkConfig emptyBorderConfig emptyBorderConfig)
                           (env_flags envTwo)) = 2)
      by (vm_compute; reflexivity).
    rewrite E. lia.
  - vm_compute. reflexivity.
Defined.

Lemma stepsOf_below (cfg : Config) : stepsOf cfg < 2 ^ 63.
Proof.
  unfold stepsOf.
  destruct (to_int64_cases (F64.mul (Secs (Active cfg)) (FPS (Active cfg))))
    as [(z & _ & Hz & ->) | ->]; lia.
Qed.

(** X21: with at least one step per transition, the last frame of a
    transition shows exactly the colour the transition ends on, on both
    borders, and the frame after it, the first of the next transition,
    is the same frame again: [step / steps] is 1 there and 0 after, with
    no rounding error, so the animation has no jump where two transitions
    meet and draws every configured colour twice in a row. *)
Theorem transitions_meet_on_their_colour (fuel : nat) (env : Env)
  (t : list event) (n : nat) (cfg : Config) (h : Slice.store)
  (colors inactiveColors : Slice.t) (k : nat) (a b : borderArgs) :
  loadTracks env 0%nat = (t, n, Some (cfg, h, colors, inactiveColors)) ->
  Slice.length inactiveColors = Slice.length colors ->
  1 <= stepsOf cfg ->
  Z.of_nat (subStep (stepsOf cfg) k) = stepsOf cfg ->
  nth_error (runs (trace fuel env)) k = Some a ->
  nth_error (runs (trace fuel env)) (S k) = Some b ->
  let active := Slice.elems h colors in
  let inactive := Slice.elems h inactiveColors in
  let j := ((trackIndex active (stepsOf cfg) k + 1) mod List.length active)%nat
  in
  b = a
  /\ active_color a
     = glowWrap (Glow (Active cfg)) (colorToHex (colorAt active j))
  /\ inactive_color a = colorToHex (colorAt inactive j).
Proof.
  intros HL Hlen Hs Hlast Ha Hb active inactive j.
  rewrite (main_closed _ env t n cfg h colors inactiveColors HL Hlen
             ltac:(lia)) in Ha, Hb.
  rewrite runs_frames in Ha, Hb. fold active inactive in Ha, Hb.
  set (N := (fuel * (Slice.length colors
                     * framesPerTransition (stepsOf cfg)))%nat) in *.
  assert (Hk : (S k < N)%nat).
  { destruct (Nat.lt_ge_cases (S k) N) as [H | H]; [exact H|].
    rewrite (proj2 (nth_error_None _ _)) in Hb
      by (rewrite length_map, length_seq; exact H).
    discriminate Hb. }
  rewrite nth_error_map_seq in Ha, Hb by lia.
  injection Ha as <-. injection Hb as <-.
  destruct (loadTracks_wf _ _ _ _ _ _ _ _ HL) as [Wc _].
  pose proof (SliceFacts.elems_length h colors Wc) as Hn. fold active in Hn.
  assert (Hpos : (0 < Slice.length colors)%nat).
  { destruct (Slice.length colors); [|lia]. unfold N in Hk. lia. }
  destruct (loadTracks_colours _ _ _ _ _ _ _ _ HL) as [Wa Wi].
  fold active in Wa. fold inactive in Wi.
  destruct (loadTracks_cfg _ _ _ _ _ _ _ _ HL) as (fc & _ & Hcfg).
  assert (Hgi : Glow (Inactive cfg) = false)
    by (rewrite Hcfg; apply resolve_glow).
  pose proof (schedule_next (Slice.length colors) (stepsOf cfg) k active
                Hn Hpos ltac:(lia)) as Hnext.
  cbv zeta in Hnext. destruct Hnext as (_ & _ & Hnext).
  rewrite Hlast, Z.ltb_irrefl in Hnext. destruct Hnext as [Hi1 Hs1].
  rewrite <- Hn in Hi1. fold j in Hi1.
  pose proof (stepsOf_below cfg) as Hlt.
  unfold frameAt, frameArgs. cbn [active_color inactive_color].
  rewrite Hi1, Hs1, Hlast. fold j. rewrite Hgi. cbn [glowWrap].
  change (Z.of_nat 0) with 0.
  set (i := trackIndex active (stepsOf cfg) k).
  set (j' := ((j + 1) mod List.length active)%nat).
  destruct (interpolateColor_at_ends (stepsOf cfg)
              (colorAt active i) (colorAt active j) ltac:(lia)
              ltac:(now apply colorAt_wf) ltac:(now apply colorAt_wf))
    as [_ ->].
  destruct (interpolateColor_at_ends (stepsOf cfg)
              (colorAt inactive i) (colorAt inactive j) ltac:(lia)
              ltac:(now apply colorAt_wf) ltac:(now apply colorAt_wf))
    as [_ ->].
  destruct (interpolateColor_at_ends (stepsOf cfg)
              (colorAt active j) (colorAt active j') ltac:(lia)
              ltac:(now apply colorAt_wf) ltac:(now apply colorAt_wf))
    as [-> _].
  destruct (interpolateColor_at_ends (stepsOf cfg)
              (colorAt inactive j) (colorAt inactive j') ltac:(lia)
              ltac:(now apply colorAt_wf) ltac:(now apply colorAt_wf))
    as [-> _].
  split; [reflexivity|]. split; reflexivity.
Qed.

Lemma transitions_meet_on_their_colour_witness :
  mkArgs "0xFF0000FF" "0xFFFF0000" (F64.of_Z 5)
  = mkArgs "0xFF0000FF" "0xFFFF0000" (F64.of_Z 5)
  /\ "0xFF0000FF" = glowWrap false (colorToHex (mkRGBA 0 0 255 255))
  /\ "0xFFFF0000" = colorToHex (mkRGBA 255 0 0 255).
Proof.
  apply (transitions_meet_on_their_colour 1 envTwo [] 0%nat
           (resolve (mkConfig emptyBorderConfig emptyBorderConfig)
              (env_flags envTwo))
           [[mkRGBA 255 0 0 255; mkRGBA 0 0 255 255];
            [mkRGBA 0 0 255 255; mkRGBA 255 0 0 255]]
           (Slice.mk 0 0 2 2) (Slice.mk 1 0 2 2) 2%nat
           (mkArgs "0xFF0000FF" "0xFFFF0000" (F64.of_Z 5))
           (mkArgs "0xFF0000FF" "0xFFFF0000" (F64.of_Z 5))).
  - vm_compute. reflexivity.
  - reflexivity.
  - assert (E : stepsOf (resolve (mkConfig emptyBorderConfig emptyBorderConfig)
                           (env_flags envTwo)) = 2)
      by (vm_compute; reflexivity).
    rewrite E. lia.
  - vm_compute. reflexivity.
  - vm_compute. reflexivity.
  - vm_compute. reflexivity.
Defined.

(** ** A number of steps that does not fit *)

Lemma flat_map_nil {X Y : Type} (l : list X) :
  flat_map (fun _ => @nil Y) l = [].
Proof. induction l as [|x l IH]; cbn; auto. Qed.

(** With a negative number of steps a transition does nothing. *)
Lemma transition_idle env cfg h colors inactiveColors steps delay j n :
  Slice.wf h colors -> Slice.wf h inactiveColors ->
  Slice.length inactiveColors = Slice.length colors ->
  steps < 0 -> (j < Slice.length colors)%nat ->
  transition env cfg h colors inactiveColors steps delay (0 + Z.of_nat j) n
  = ([], (n + 0)%nat, Some tt).
Proof.
  intros Wc Wi Hlen Hs Hj. rewrite Z.add_0_l. unfold transition, slen.
  rewrite Hlen.
  assert (Hrem : Z.rem (Z.of_nat j + 1) (Z.of_nat (Slice.length colors))
                 = Z.of_nat ((j + 1) mod Slice.length colors)).
  { rewrite Z.rem_mod_nonneg by lia. rewrite Nat2Z.inj_mod. f_equal. lia. }
  rewrite Hrem.
  assert (Hm : ((j + 1) mod Slice.length colors < Slice.length colors)%nat)
    by (apply Nat.mod_upper_bound; lia).
  rewrite !at_index_ok by (try assumption; lia).
  rewrite !bind_ret.
  replace (Z.to_nat (steps + 1)) with 0%nat by lia.
  cbn [for_range]. unfold ret. now rewrite Nat.add_0_r.
Qed.

Lemma animate_idle env cfg h colors inactiveColors steps delay fuel n :
  Slice.wf h colors -> Slice.wf h inactiveColors ->
  Slice.length inactiveColors = Slice.length colors ->
  steps < 0 ->
  animate env cfg h colors inactiveColors steps delay fuel n
  = ([], n, Some tt).
Proof.
  intros Wc Wi Hlen Hs.
  assert (Hc : forall k,
             cycle env cfg h colors inactiveColors steps delay k
             = ([], (k + 0)%nat, Some tt)).
  { intros k. unfold cycle.
    pose proof (for_range_closed 0 (Slice.length colors) 0
                  (transition env cfg h colors inactiveColors steps delay)
                  (fun _ _ => [])
                  (fun j m Hj =>
                     transition_idle env cfg h colors inactiveColors steps
                       delay j m Wc Wi Hlen Hs Hj)
                  (Slice.length colors) 0%nat k (Nat.le_refl _)) as H.
    cbn [Z.of_nat] in H. rewrite Z.add_0_l, Nat.mul_0_r, !Nat.add_0_r in H.
    rewrite H, flat_map_nil. f_equal. f_equal. lia. }
  unfold animate.
  pose proof (forever_closed 0
                (cycle env cfg h colors inactiveColors steps delay)
                (fun _ => []) Hc fuel 0%nat n) as H.
  rewrite Nat.mul_0_r, !Nat.add_0_r in H.
  rewrite H, flat_map_nil. f_equal. f_equal. lia.
Qed.

(** X22: when [stepsPerTransition] comes out negative, as it does on
    amd64 when the product of the seconds and the frames per second does
    not fit an [int], the process starts up and then does nothing, for
    ever: it draws no frame, does not sleep, prints nothing and never
    exits. *)
Theorem negative_steps_spin_silently (fuel : nat) (env : Env)
  (t : list event) (n : nat) (cfg : Config) (h : Slice.store)
  (colors inactiveColors : Slice.t) :
  loadTracks env 0%nat = (t, n, Some (cfg, h, colors, inactiveColors)) ->
  Slice.length inactiveColors = Slice.length colors ->
  stepsOf cfg < 0 ->
  main fuel env 0%nat = ([], 0%nat, Some tt).
Proof.
  intros HL Hlen Hs.
  destruct (loadTracks_wf _ _ _ _ _ _ _ _ HL) as [Wc Wi].
  destruct (loadTracks_ok _ _ _ _ _ HL) as [-> ->].
  unfold main. unfold bind at 1. rewrite HL. unfold runTracks.
  unfold slen. rewrite Hlen, Z.eqb_refl. cbn [negb]. rewrite bind_ret.
  now rewrite (animate_idle env cfg h colors inactiveColors (stepsOf cfg)
                 (delayOf cfg) fuel 0%nat Wc Wi Hlen Hs).
Qed.

Lemma negative_steps_spin_silently_witness :
  main 3 envHuge 0%nat = ([], 0%nat, Some tt).
Proof.
  apply (negative_steps_spin_silently 3 envHuge [] 0%nat
           (resolve (mkConfig emptyBorderConfig emptyBorderConfig)
              (env_flags envHuge))
           [[mkRGBA 255 0 0 255; mkRGBA 0 0 255 255];
            [mkRGBA 0 0 255 255; mkRGBA 255 0 0 255]]
           (Slice.mk 0 0 2 2) (Slice.mk 1 0 2 2)).
  - vm_compute. reflexivity.
  - reflexivity.
  - assert (E : stepsOf (resolve (mkConfig emptyBorderConfig emptyBorderConfig)
                           (env_flags envHuge)) = - 2 ^ 63)
      by (vm_compute; reflexivity).
    rewrite E. lia.
Defined.
